(** * openscad_docsgen: the comment-block parsing engine of [parser.py]

    A shallow embedding of [DocsGenParser] (header matching, body
    extraction, block dispatch, name index) and the properties of the
    specification that concern it.

    Conventions.  A Python [str] is a [string]; its characters are read as
    code points 0..255, so character classes, whitespace and comparisons
    are the ones Python applies to text in that range.  A Python [dict] is
    a [gmap]; object references are indices into a store of nodes; a
    [while] loop over [line_num] is a recursion over the lines that remain;
    [raise] is an outcome of its own, carrying the state reached. *)

From Stdlib Require Import Ascii String List Arith Lia Permutation Sorted
  DecimalString.
From stdpp Require Import base gmap strings list.

(* Let [simpl] compute the concatenation of strings. *)
#[local] Arguments String.append : simpl nomatch.

(* ===================================================================== *)
(** ** Python string operations used by the parser *)
(* ===================================================================== *)

Module Py.

Definition ord (c : ascii) : nat := nat_of_ascii c.

(** [str.isspace] on one character of the range 0..255. *)
Definition isspace (c : ascii) : bool :=
  let n := ord c in
  ((9 <=? n) && (n <=? 13)) || ((28 <=? n) && (n <=? 32))
  || (n =? 133) || (n =? 160).

(** [s.startswith(p)] *)
Definition startswith (s p : string) : bool := String.prefix p s.

(** [s * n] *)
Fixpoint mul (s : string) (n : nat) : string :=
  match n with
  | O => ""
  | S k => s +:+ mul s k
  end.

(** [s[n:]] *)
Fixpoint slice_from (n : nat) (s : string) : string :=
  match n, s with
  | O, _ => s
  | S _, "" => ""
  | S k, String _ s' => slice_from k s'
  end.

(** [s.lstrip()] *)
Fixpoint lstrip (s : string) : string :=
  match s with
  | "" => ""
  | String c s' => if isspace c then lstrip s' else s
  end.

(** [s.rstrip()] *)
Fixpoint rstrip (s : string) : string :=
  match s with
  | "" => ""
  | String c s' =>
      match rstrip s' with
      | "" => if isspace c then "" else String c ""
      | r => String c r
      end
  end.

(** [s.strip()] *)
Definition strip (s : string) : string := lstrip (rstrip s).

(** [s.rstrip(chars)] for a one-character [chars]. *)
Fixpoint rstrip_char (ch : ascii) (s : string) : string :=
  match s with
  | "" => ""
  | String c s' =>
      match rstrip_char ch s' with
      | "" => if Ascii.eqb c ch then "" else String c ""
      | r => String c r
      end
  end.

(** [sub in s] *)
Fixpoint contains (sub s : string) : bool :=
  String.prefix sub s ||
  match s with
  | "" => false
  | String _ s' => contains sub s'
  end.

(** [s.split(sep)] for a non-empty [sep]: the occurrences of [sep] are
    found from the left and do not overlap.  [skip] counts the characters
    of an occurrence still to be passed over, [cur] is the piece being
    collected. *)
Fixpoint split_go (sep : string) (skip : nat) (cur s : string)
  : list string :=
  match s with
  | "" => [cur]
  | String c s' =>
      match skip with
      | S k => split_go sep k cur s'
      | O =>
          if String.prefix sep s
          then cur :: split_go sep (String.length sep - 1) "" s'
          else split_go sep 0 (cur +:+ String c "") s'
      end
  end.

Definition split (sep s : string) : list string := split_go sep 0 "" s.

(** [s.split(sep, 1)]: at most one cut, at the first occurrence. *)
Fixpoint split1_go (sep : string) (cur s : string) : list string :=
  match s with
  | "" => [cur]
  | String c s' =>
      if String.prefix sep s
      then [cur; slice_from (String.length sep) s]
      else split1_go sep (cur +:+ String c "") s'
  end.

Definition split1 (sep s : string) : list string := split1_go sep "" s.

(** [s.upper()], exact on the letters a..z; the parser only compares the
    result with constants made of the letters A..Z. *)
Definition upper_char (c : ascii) : ascii :=
  let n := ord c in
  if (97 <=? n) && (n <=? 122) then ascii_of_nat (n - 32) else c.

Fixpoint upper (s : string) : string :=
  match s with
  | "" => ""
  | String c s' => String (upper_char c) (upper s')
  end.

(** [s.lower()], exact on the letters A..Z. *)
Definition lower_char (c : ascii) : ascii :=
  let n := ord c in
  if (65 <=? n) && (n <=? 90) then ascii_of_nat (n + 32) else c.

Fixpoint lower (s : string) : string :=
  match s with
  | "" => ""
  | String c s' => String (lower_char c) (lower s')
  end.

(** [str(n)] for a non-negative [int]. *)
Definition str_of_nat (n : nat) : string :=
  NilZero.string_of_uint (Nat.to_uint n).

(** [s1 <= s2] on [str]: lexicographic on code points. *)
Definition le (s1 s2 : string) : bool := String.leb s1 s2.

(** [sorted(l)] on a list of [str].  The order is total and two keys that
    compare equal are the same string, so every sorting algorithm returns
    the same list; insertion from the right keeps equal keys in their
    original order, as Python's sort does. *)
Fixpoint insert_sorted (x : string) (l : list string) : list string :=
  match l with
  | [] => [x]
  | y :: l' => if le x y then x :: l else y :: insert_sorted x l'
  end.

Fixpoint sorted (l : list string) : list string :=
  match l with
  | [] => []
  | x :: l' => insert_sorted x (sorted l')
  end.

End Py.

(* ===================================================================== *)
(** ** A backtracking matcher for the regular expressions of [re] *)
(* ===================================================================== *)

(** The fragment of Python's [re] syntax that [_header_pat] uses.  A star
    is only ever applied to a character class; quantifiers are greedy and
    give back one character at a time, as [re] does. *)
Module Re.

Inductive regex : Type :=
| Lit (c : ascii)              (* a literal character *)
| Cls (p : ascii -> bool)      (* a character class: [...] or . *)
| Star (p : ascii -> bool)     (* cls* *)
| Seq (r1 r2 : regex)          (* r1 r2 *)
| Opt (r : regex)              (* r? *)
| Grp (n : nat) (r : regex)    (* the n-th capturing group *)
| Eol.                         (* $ *)

(** The captured groups: [None] for a group that took no part. *)
Definition groups := nat -> option string.

Definition no_groups : groups := fun _ => None.

Definition set_group (n : nat) (v : string) (g : groups) : groups :=
  fun i => if Nat.eqb i n then Some v else g i.

(** The first [length s - length s'] characters of [s]. *)
Definition consumed (s s' : string) : string :=
  String.substring 0 (String.length s - String.length s') s.

(** [cls*] followed by the continuation [k]: the longest run first. *)
Fixpoint star {R} (p : ascii -> bool) (s : string)
  (k : string -> option R) : option R :=
  match s with
  | "" => k ""
  | String c s' =>
      if p c
      then match star p s' k with
           | Some r => Some r
           | None => k s
           end
      else k s
  end.

(** [run r s g k]: match [r] at the head of [s], then continue with [k] on
    what is left; the first success in the order of [re]'s backtracking. *)
Fixpoint run {R} (r : regex) (s : string) (g : groups)
  (k : string -> groups -> option R) : option R :=
  match r with
  | Lit c =>
      match s with
      | String c' s' => if Ascii.eqb c' c then k s' g else None
      | "" => None
      end
  | Cls p =>
      match s with
      | String c' s' => if p c' then k s' g else None
      | "" => None
      end
  | Star p => star p s (fun s' => k s' g)
  | Seq r1 r2 => run r1 s g (fun s' g' => run r2 s' g' k)
  | Opt r' =>
      match run r' s g k with
      | Some v => Some v
      | None => k s g
      end
  | Grp n r' => run r' s g (fun s' g' => k s' (set_group n (consumed s s') g'))
  | Eol =>
      match s with
      | "" => k s g
      | String c "" => if Ascii.eqb c "010" then k s g else None
      | _ => None
      end
  end.

(** [pat.match(s)]: anchored at the start of [s]. *)
Definition match_ (r : regex) (s : string) : option groups :=
  run r s no_groups (fun _ g => Some g).

End Re.

(* ===================================================================== *)
(** ** The header pattern *)
(* ===================================================================== *)

(** [[A-Z]] *)
Definition cls_upper (c : ascii) : bool :=
  let n := Py.ord c in (65 <=? n) && (n <=? 90).

(** [[A-Za-z0-9_&-]] *)
Definition cls_word (c : ascii) : bool :=
  let n := Py.ord c in
  ((65 <=? n) && (n <=? 90)) || ((97 <=? n) && (n <=? 122))
  || ((48 <=? n) && (n <=? 57)) || (n =? 95) || (n =? 38) || (n =? 45).

(** [[^)]] *)
Definition cls_not_rparen (c : ascii) : bool := negb (Ascii.eqb c ")").

(** [.] (any character but a newline) *)
Definition cls_dot (c : ascii) : bool := negb (Ascii.eqb c "010").

Definition seq (rs : list Re.regex) (last : Re.regex) : Re.regex :=
  fold_right Re.Seq last rs.

(** The pattern of [DocsGenParser._header_pat], token by token (blanks
    added between the tokens, [_] standing for the blank of the pattern):
<<
      ^ / / _
      ( [A-Z] [A-Za-z0-9_&-]* ( _? [A-Z] [A-Za-z0-9_&-]* )? )      groups 1, 2
      ( \( [^)]* \) )?                                            group 3
      :
      ( _ .* )?                                                   group 4
      $
>>
    [match] anchors at the start of the line, so the leading anchor of the
    pattern adds nothing. *)
Definition _header_pat : Re.regex :=
  seq [ Re.Lit "/"; Re.Lit "/"; Re.Lit " ";
        Re.Grp 1 (seq [ Re.Cls cls_upper; Re.Star cls_word ]
                    (Re.Opt (Re.Grp 2 (seq [ Re.Opt (Re.Lit " ");
                                              Re.Cls cls_upper ]
                                         (Re.Star cls_word)))));
        Re.Opt (Re.Grp 3 (seq [ Re.Lit "("; Re.Star cls_not_rparen ]
                            (Re.Lit ")")));
        Re.Lit ":";
        Re.Opt (Re.Grp 4 (Re.Seq (Re.Lit " ") (Re.Star cls_dot))) ]
      Re.Eol.

(** [s[1:-1]] *)
Definition slice_1_m1 (s : string) : string :=
  String.substring 1 (String.length s - 2) s.

(** Lines 225-230 of [_parse_block]: the match and the three values read
    off it. *)
Definition header_match (line : string) : option (string * string * string) :=
  match Re.match_ _header_pat line with
  | None => None
  | Some g =>
      let title := default "" (g 1) in
      let meta := match g 3 with Some m => slice_1_m1 m | None => "" end in
      let subtitle := match g 4 with Some s => Py.strip s | None => "" end in
      Some (title, meta, subtitle)
  end.

(* ===================================================================== *)
(** ** Blocks, origins and the error log *)
(* ===================================================================== *)

Definition dquote : string := String "034" "".
Definition newline : string := String "010" "".

Record OriginInfo : Type := mkOrigin {
  file : string;   (* the src_file given to the parse call *)
  line : nat       (* the header's line number, counted from 1 *)
}.

(** The block classes of [blocks.py] that the parser instantiates. *)
Inductive BlockCls : Type :=
| GenericBlock | LabelBlock | TextBlock | NumberedListBlock | BulletListBlock
| TableBlock | FigureBlock | ExampleBlock
| FileBlock | SectionBlock | SubsectionBlock | IncludesBlock | ItemBlock
| TopicsBlock | SeeAlsoBlock.

Definition BlockCls_eqb (a b : BlockCls) : bool :=
  match a, b with
  | GenericBlock, GenericBlock | LabelBlock, LabelBlock
  | TextBlock, TextBlock | NumberedListBlock, NumberedListBlock
  | BulletListBlock, BulletListBlock | TableBlock, TableBlock
  | FigureBlock, FigureBlock | ExampleBlock, ExampleBlock
  | FileBlock, FileBlock | SectionBlock, SectionBlock
  | SubsectionBlock, SubsectionBlock | IncludesBlock, IncludesBlock
  | ItemBlock, ItemBlock | TopicsBlock, TopicsBlock
  | SeeAlsoBlock, SeeAlsoBlock => true
  | _, _ => false
  end.

(** Modelled from the spec: the block objects of [blocks.py], which is not
    part of the sources at hand.  A node carries its kind, title, subtitle,
    body, origin and meta, the back-reference to its parent and the ordered
    list of its children; a File node also has a summary, a group,
    footnotes and common code, an Item also has aliases and the deprecated
    flag.  References are positions in the store of nodes. *)
Record Node : Type := mkNode {
  cls : BlockCls;  (* the class of the object *)
  title : string;
  subtitle : string;
  body : list string;
  origin : OriginInfo;
  parent : option nat;  (* back-reference, set at construction *)
  children : list nat;  (* in order of attachment *)
  meta : string;  (* the text of the header's parenthesis *)
  header_sets : option (list (list string));  (* TableBlock only *)
  summary : string;  (* FileBlock *)
  group : string;  (* FileBlock *)
  footnotes : list (list string);  (* FileBlock *)
  common_code : list string;  (* FileBlock *)
  aliases : list string;  (* ItemBlock *)
  deprecated : bool  (* ItemBlock *)
}.

Definition node_set_children (v : list nat) (x : Node) : Node :=
  mkNode (cls x) (title x) (subtitle x) (body x) (origin x) (parent x) v
    (meta x) (header_sets x) (summary x) (group x) (footnotes x)
    (common_code x) (aliases x) (deprecated x).

Definition node_set_summary (v : string) (x : Node) : Node :=
  mkNode (cls x) (title x) (subtitle x) (body x) (origin x) (parent x)
    (children x) (meta x) (header_sets x) v (group x) (footnotes x)
    (common_code x) (aliases x) (deprecated x).

Definition node_set_group (v : string) (x : Node) : Node :=
  mkNode (cls x) (title x) (subtitle x) (body x) (origin x) (parent x)
    (children x) (meta x) (header_sets x) (summary x) v (footnotes x)
    (common_code x) (aliases x) (deprecated x).

Definition node_set_footnotes (v : list (list string)) (x : Node) : Node :=
  mkNode (cls x) (title x) (subtitle x) (body x) (origin x) (parent x)
    (children x) (meta x) (header_sets x) (summary x) (group x) v
    (common_code x) (aliases x) (deprecated x).

Definition node_set_common_code (v : list string) (x : Node) : Node :=
  mkNode (cls x) (title x) (subtitle x) (body x) (origin x) (parent x)
    (children x) (meta x) (header_sets x) (summary x) (group x)
    (footnotes x) v (aliases x) (deprecated x).

Definition node_set_aliases (v : list string) (x : Node) : Node :=
  mkNode (cls x) (title x) (subtitle x) (body x) (origin x) (parent x)
    (children x) (meta x) (header_sets x) (summary x) (group x)
    (footnotes x) (common_code x) v (deprecated x).

Definition node_set_deprecated (v : bool) (x : Node) : Node :=
  mkNode (cls x) (title x) (subtitle x) (body x) (origin x) (parent x)
    (children x) (meta x) (header_sets x) (summary x) (group x)
    (footnotes x) (common_code x) (aliases x) v.

(** Modelled from the spec: the constructors of [blocks.py].  A block is
    built with the attributes it is given, has no children yet, and is
    appended to the children of its parent when it has one.  The spec
    names no condition under which a constructor refuses a block. *)
Definition new_node (c : BlockCls) (title subtitle : string)
  (body : list string) (origin : OriginInfo) (parent : option nat)
  (meta : string) (hs : option (list (list string))) : Node :=
  mkNode c title subtitle body origin parent [] meta hs "" "" [] [] [] false.

Definition add_child (child : nat) (n : Node) : Node :=
  node_set_children (children n ++ [child]) n.

Definition attach (parent : option nat) (child : nat) (h : list Node)
  : list Node :=
  match parent with
  | Some p => alter (add_child child) p h
  | None => h
  end.

(** Modelled from the spec: [DocsGenException(block, message)] of
    [blocks.py].  [AttributeError] is Python's own, raised by an attribute
    access on [None] or on an [int]. *)
Inductive Exn : Type :=
| DocsGenException (block message : string)
| AttributeError (message : string).

Inductive Severity : Type := WARNING | FAIL.

(** Modelled from the spec: an entry of the [ErrorLog] of [errorlog.py],
    (file, line, message, severity).  The message is [str(e)] for the
    exception [e] that was caught; the entry keeps [e] itself. *)
Record LogEntry : Type := mkEntry {
  log_file : string;
  log_line : nat;
  log_exn : Exn;
  log_level : Severity
}.

(* ===================================================================== *)
(** ** The parser and its state *)
(* ===================================================================== *)

(** The callbacks that a registry entry can name. *)
Inductive Callback : Type := status_block_cb | alias_block_cb.

(** A value of [header_defs]: (parenttype, nodetype, extras, callback). *)
Definition HeaderDef : Type :=
  option BlockCls * BlockCls * option (list (list string)) * option Callback.

(** The fields of [opts] that [_parse_block] writes.  The calls of
    [opts.update_target()] that follow some of these writes recompute
    [opts.target], which parsing never reads; they have no counterpart
    here. *)
Record Options : Type := mkOptions {
  docs_dir : string;
  project_name : string;
  target_profile : string;
  gen_files : bool;
  gen_toc : bool;
  gen_index : bool;
  gen_topics : bool;
  gen_cheat : bool;
  gen_sidebar : bool
}.

Definition opts_set_docs_dir (v : string) (x : Options) : Options :=
  mkOptions v (project_name x) (target_profile x) (gen_files x) (gen_toc x)
    (gen_index x) (gen_topics x) (gen_cheat x) (gen_sidebar x).

Definition opts_set_project_name (v : string) (x : Options) : Options :=
  mkOptions (docs_dir x) v (target_profile x) (gen_files x) (gen_toc x)
    (gen_index x) (gen_topics x) (gen_cheat x) (gen_sidebar x).

Definition opts_set_target_profile (v : string) (x : Options) : Options :=
  mkOptions (docs_dir x) (project_name x) v (gen_files x) (gen_toc x)
    (gen_index x) (gen_topics x) (gen_cheat x) (gen_sidebar x).

Definition opts_set_gen_files (v : bool) (x : Options) : Options :=
  mkOptions (docs_dir x) (project_name x) (target_profile x) v (gen_toc x)
    (gen_index x) (gen_topics x) (gen_cheat x) (gen_sidebar x).

Definition opts_set_gen_toc (v : bool) (x : Options) : Options :=
  mkOptions (docs_dir x) (project_name x) (target_profile x) (gen_files x) v
    (gen_index x) (gen_topics x) (gen_cheat x) (gen_sidebar x).

Definition opts_set_gen_index (v : bool) (x : Options) : Options :=
  mkOptions (docs_dir x) (project_name x) (target_profile x) (gen_files x)
    (gen_toc x) v (gen_topics x) (gen_cheat x) (gen_sidebar x).

Definition opts_set_gen_topics (v : bool) (x : Options) : Options :=
  mkOptions (docs_dir x) (project_name x) (target_profile x) (gen_files x)
    (gen_toc x) (gen_index x) v (gen_cheat x) (gen_sidebar x).

Definition opts_set_gen_cheat (v : bool) (x : Options) : Options :=
  mkOptions (docs_dir x) (project_name x) (target_profile x) (gen_files x)
    (gen_toc x) (gen_index x) (gen_topics x) v (gen_sidebar x).

Definition opts_set_gen_sidebar (v : bool) (x : Options) : Options :=
  mkOptions (docs_dir x) (project_name x) (target_profile x) (gen_files x)
    (gen_toc x) (gen_index x) (gen_topics x) (gen_cheat x) v.

(** The fields of [DocsGenParser] that parsing reads or writes, with the
    two things it shares with the rest of the process: the block objects
    and the error log. *)
Record State : Type := mkState {
  opts : Options;  (* self.opts *)
  strict : bool;  (* self.strict *)
  file_blocks : list nat;  (* self.file_blocks *)
  curr_file_block : option nat;
  curr_section : option nat;
  curr_subsection : option nat;
  curr_item : option nat;
  curr_parent : option nat;
  ignored_file_pats : list string;
  ignored_files : gset string;  (* the keys of the dict, every value being True *)
  priority_files : list string;
  items_by_name : gmap string nat;  (* the NameIndex *)
  header_defs : gmap string HeaderDef;  (* the registry of block types *)
  heap : list Node;  (* every block object built so far *)
  errorlog : list LogEntry  (* the process-wide ErrorLog, oldest first *)
}.

Definition set_opts (v : Options) (x : State) : State :=
  mkState v (strict x) (file_blocks x) (curr_file_block x) (curr_section x)
    (curr_subsection x) (curr_item x) (curr_parent x) (ignored_file_pats x)
    (ignored_files x) (priority_files x) (items_by_name x) (header_defs x)
    (heap x) (errorlog x).

Definition set_file_blocks (v : list nat) (x : State) : State :=
  mkState (opts x) (strict x) v (curr_file_block x) (curr_section x)
    (curr_subsection x) (curr_item x) (curr_parent x) (ignored_file_pats x)
    (ignored_files x) (priority_files x) (items_by_name x) (header_defs x)
    (heap x) (errorlog x).

Definition set_curr_file_block (v : option nat) (x : State) : State :=
  mkState (opts x) (strict x) (file_blocks x) v (curr_section x)
    (curr_subsection x) (curr_item x) (curr_parent x) (ignored_file_pats x)
    (ignored_files x) (priority_files x) (items_by_name x) (header_defs x)
    (heap x) (errorlog x).

Definition set_curr_section (v : option nat) (x : State) : State :=
  mkState (opts x) (strict x) (file_blocks x) (curr_file_block x) v
    (curr_subsection x) (curr_item x) (curr_parent x) (ignored_file_pats x)
    (ignored_files x) (priority_files x) (items_by_name x) (header_defs x)
    (heap x) (errorlog x).

Definition set_curr_subsection (v : option nat) (x : State) : State :=
  mkState (opts x) (strict x) (file_blocks x) (curr_file_block x)
    (curr_section x) v (curr_item x) (curr_parent x) (ignored_file_pats x)
    (ignored_files x) (priority_files x) (items_by_name x) (header_defs x)
    (heap x) (errorlog x).

Definition set_curr_item (v : option nat) (x : State) : State :=
  mkState (opts x) (strict x) (file_blocks x) (curr_file_block x)
    (curr_section x) (curr_subsection x) v (curr_parent x)
    (ignored_file_pats x) (ignored_files x) (priority_files x)
    (items_by_name x) (header_defs x) (heap x) (errorlog x).

Definition set_curr_parent (v : option nat) (x : State) : State :=
  mkState (opts x) (strict x) (file_blocks x) (curr_file_block x)
    (curr_section x) (curr_subsection x) (curr_item x) v
    (ignored_file_pats x) (ignored_files x) (priority_files x)
    (items_by_name x) (header_defs x) (heap x) (errorlog x).

Definition set_ignored_file_pats (v : list string) (x : State) : State :=
  mkState (opts x) (strict x) (file_blocks x) (curr_file_block x)
    (curr_section x) (curr_subsection x) (curr_item x) (curr_parent x) v
    (ignored_files x) (priority_files x) (items_by_name x) (header_defs x)
    (heap x) (errorlog x).

Definition set_ignored_files (v : gset string) (x : State) : State :=
  mkState (opts x) (strict x) (file_blocks x) (curr_file_block x)
    (curr_section x) (curr_subsection x) (curr_item x) (curr_parent x)
    (ignored_file_pats x) v (priority_files x) (items_by_name x)
    (header_defs x) (heap x) (errorlog x).

Definition set_priority_files (v : list string) (x : State) : State :=
  mkState (opts x) (strict x) (file_blocks x) (curr_file_block x)
    (curr_section x) (curr_subsection x) (curr_item x) (curr_parent x)
    (ignored_file_pats x) (ignored_files x) v (items_by_name x)
    (header_defs x) (heap x) (errorlog x).

Definition set_items_by_name (v : gmap string nat) (x : State) : State :=
  mkState (opts x) (strict x) (file_blocks x) (curr_file_block x)
    (curr_section x) (curr_subsection x) (curr_item x) (curr_parent x)
    (ignored_file_pats x) (ignored_files x) (priority_files x) v
    (header_defs x) (heap x) (errorlog x).

Definition set_header_defs (v : gmap string HeaderDef) (x : State) : State :=
  mkState (opts x) (strict x) (file_blocks x) (curr_file_block x)
    (curr_section x) (curr_subsection x) (curr_item x) (curr_parent x)
    (ignored_file_pats x) (ignored_files x) (priority_files x)
    (items_by_name x) v (heap x) (errorlog x).

Definition set_heap (v : list Node) (x : State) : State :=
  mkState (opts x) (strict x) (file_blocks x) (curr_file_block x)
    (curr_section x) (curr_subsection x) (curr_item x) (curr_parent x)
    (ignored_file_pats x) (ignored_files x) (priority_files x)
    (items_by_name x) (header_defs x) v (errorlog x).

Definition set_errorlog (v : list LogEntry) (x : State) : State :=
  mkState (opts x) (strict x) (file_blocks x) (curr_file_block x)
    (curr_section x) (curr_subsection x) (curr_item x) (curr_parent x)
    (ignored_file_pats x) (ignored_files x) (priority_files x)
    (items_by_name x) (header_defs x) (heap x) v.

(** The value of a key of the dict that [_parse_meta_dict] builds: the
    text after the first "=", or the integer 1. *)
Inductive MetaVal : Type := VStr (s : string) | VOne.

(** Computations of the parser: a state in, and either a value with the
    new state or an exception with the state reached when it was raised. *)
Inductive outcome (A : Type) : Type :=
| Return (st : State) (a : A)
| Raise (st : State) (e : Exn).
Arguments Return {A} st a.
Arguments Raise {A} st e.

Definition M (A : Type) : Type := State -> outcome A.

Definition ret {A} (a : A) : M A := fun st => Return st a.

Definition bind {A B} (m : M A) (f : A -> M B) : M B :=
  fun st =>
    match m st with
    | Return st' a => f a st'
    | Raise st' e => Raise st' e
    end.

Definition raise {A} (e : Exn) : M A := fun st => Raise st e.

Definition gets {A} (f : State -> A) : M A := fun st => Return st (f st).

Definition modify (f : State -> State) : M unit := fun st => Return (f st) tt.

Definition when (b : bool) (m : M unit) : M unit := if b then m else ret tt.

Notation "'let!' x ':=' m 'in' k" := (bind m (fun x => k))
  (at level 10, x name, m at level 100, k at level 200).
Notation "m ';;' k" := (bind m (fun _ => k))
  (at level 100, k at level 200, right associativity).

Fixpoint for_each {A} (l : list A) (f : A -> M unit) : M unit :=
  match l with
  | [] => ret tt
  | x :: l' => f x ;; for_each l' f
  end.

(** Python's truth of a [str], a list and an optional reference. *)
Definition nonempty (s : string) : bool := negb (String.eqb s "").
Definition some_list {A} (l : list A) : bool :=
  match l with [] => false | _ => true end.
Definition is_some {A} (o : option A) : bool :=
  match o with Some _ => true | None => false end.

Definition RCFILE : string := ".openscad_docsgen_rc".

(** What the parser asks of the world outside it. *)
Record Env : Type := mkEnv {
  glob : string -> bool -> list string;  (* glob.glob(pat, recursive=b) *)
  set_target : string -> bool;           (* what opts.set_target(name) returns *)
  rcfile : option (list string)          (* the lines of RCFILE, if it exists *)
}.

Notation "a == b" := (String.eqb a b) (at level 70, no associativity).

(** [x in [...]] on a list of [str]. *)
Definition in_list (x : string) (l : list string) : bool :=
  existsb (String.eqb x) l.

Section Parser.

Variable env : Env.

Definition upd_node (i : nat) (f : Node -> Node) : M unit :=
  modify (fun st => set_heap (alter f i (heap st)) st).

Definition upd_opts (f : Options -> Options) : M unit :=
  modify (fun st => set_opts (f (opts st)) st).

(** The constructor call [cls(title, subtitle, body, origin, parent=...)]:
    the new object is placed at the end of the store. *)
Definition new_block (c : BlockCls) (title subtitle : string)
  (body : list string) (origin : OriginInfo) (parent : option nat)
  (meta : string) (hs : option (list (list string))) : M nat :=
  fun st =>
    let id := length (heap st) in
    let n := new_node c title subtitle body origin parent meta hs in
    Return (set_heap (attach parent id (heap st ++ [n])) st) id.

(** [node.parent] for the node a reference points to. *)
Definition node_parent (st : State) (i : nat) : option nat :=
  heap st !! i ≫= parent.

(** [isinstance(ref, c)], asked for [c = ItemBlock] only; no class that the
    parser builds derives from [ItemBlock]. *)
Definition isinstance (st : State) (ref : option nat) (c : BlockCls) : bool :=
  match ref ≫= (fun i => heap st !! i) with
  | Some n => BlockCls_eqb (cls n) c
  | None => false
  end.

(** [if self.curr_item: self.curr_parent = self.curr_item.parent] followed
    by [self.curr_item = None]. *)
Definition close_item (st : State) : State :=
  match curr_item st with
  | Some i => set_curr_item None (set_curr_parent (node_parent st i) st)
  | None => st
  end.

Definition _status_block_cb (subtitle : string) : M unit :=
  let! ci := gets curr_item in
  match ci with
  | None => raise (AttributeError "'NoneType' object has no attribute 'deprecated'")
  | Some i => upd_node i (node_set_deprecated (Py.contains "DEPRECATED" subtitle))
  end.

Definition _alias_block_cb (subtitle : string) : M unit :=
  let names := map Py.strip (Py.split "," subtitle) in
  let! ci := gets curr_item in
  match ci with
  | None => raise (AttributeError "'NoneType' object has no attribute 'aliases'")
  | Some i =>
      upd_node i (fun n => node_set_aliases (aliases n ++ names) n) ;;
      for_each names (fun alias =>
        modify (fun st => set_items_by_name (<[alias := i]> (items_by_name st)) st))
  end.

Definition run_callback (cb : Callback) (subtitle : string) : M unit :=
  match cb with
  | status_block_cb => _status_block_cb subtitle
  | alias_block_cb => _alias_block_cb subtitle
  end.

(** The loop of [_skip_lines] over the lines from [line_num] on. *)
Fixpoint skip_loop (rest : list string) (line_num : nat) (st : State)
  : State * nat :=
  match rest with
  | [] => (close_item st, line_num)
  | line :: rest' =>
      let st1 :=
        if is_some (curr_item st) && negb (Py.startswith line "//")
        then close_item st else st in
      if is_some (header_match line) then (st1, line_num)
      else skip_loop rest' (S line_num) st1
  end.

Definition _skip_lines (lines : list string) (line_num : nat) : M nat :=
  fun st =>
    let (st', n) := skip_loop (drop line_num lines) line_num st in
    Return st' n.

(** One turn of the loop of [_parse_meta_dict]. *)
Definition meta_dict_add (d : gmap string MetaVal) (part : string)
  : gmap string MetaVal :=
  if Py.contains "=" part
  then match Py.split1 "=" part with
       | [key; val] => <[key := VStr val]> d
       | _ => d   (* not reached: part holds an "=" *)
       end
  else <[part := VOne]> d.

Definition _parse_meta_dict (meta : string) : gmap string MetaVal :=
  fold_left meta_dict_add (Py.split ";" meta) ∅.

Definition has_key {V} (k : string) (d : gmap string V) : bool :=
  is_some (d !! k).

Definition define (title : string) (d : HeaderDef) : M unit :=
  modify (fun st => set_header_defs (<[title := d]> (header_defs st)) st).

Definition _define_blocktype (title meta : string) : M unit :=
  let title := Py.strip title in
  let meta := _parse_meta_dict meta in
  let parentspec := if has_key "ItemOnly" meta then Some ItemBlock else None in
  if has_key "NumList" meta then
    define title (parentspec, NumberedListBlock, None, None)
  else if has_key "BulletList" meta then
    define title (parentspec, BulletListBlock, None, None)
  else if has_key "Table" meta then
    match meta !! "Headers" with
    | None =>
        raise (DocsGenException "DefineHeader"
                 "Table type is missing Header= option, while declaring block:")
    | Some VOne =>
        raise (AttributeError "'int' object has no attribute 'split'")
    | Some (VStr v) =>
        let hdr_meta := Py.split "||" v in
        let hdr_sets := map (fun hset => map Py.strip (Py.split "|" hset)) hdr_meta in
        define title (parentspec, TableBlock, Some hdr_sets, None)
    end
  else if has_key "Example" meta then
    define title (parentspec, ExampleBlock, None, None)
  else if has_key "Figure" meta then
    define title (parentspec, FigureBlock, None, None)
  else if has_key "Label" meta then
    define title (parentspec, LabelBlock, None, None)
  else if has_key "Text" meta then
    define title (parentspec, TextBlock, None, None)
  else if has_key "Generic" meta then
    define title (parentspec, GenericBlock, None, None)
  else
    raise (DocsGenException "DefineHeader"
             "Could not parse target block type, while declaring block:").

Definition _mkfilenode (origin : OriginInfo) : M unit :=
  let! cfb := gets curr_file_block in
  match cfb with
  | Some _ => ret tt
  | None =>
      let! f := new_block FileBlock "LibFile" (file origin) [] origin None "" None in
      modify (fun st =>
        set_file_blocks (file_blocks st ++ [f])
          (set_curr_parent (Some f) (set_curr_file_block (Some f) st)))
  end.

(** The body-extraction loop of [_parse_block] (lines 234-248) over the
    lines from [line_num] on: the body and the index of the first line
    that is not part of it, or the exception of line 240. *)
Fixpoint body_loop (title : string) (rest : list string) (first_line : bool)
  (indent : nat) (body : list string) (line_num : nat)
  : Exn + (list string * nat) :=
  match rest with
  | [] => inr (body, line_num)
  | line :: rest' =>
      if negb (Py.startswith line ("//" +:+ Py.mul " " indent)) then
        if Py.startswith line "//  " then
          inl (DocsGenException title
                 "Body line has less indentation than first line, while declaring block:")
        else inr (body, line_num)
      else
        let line := Py.slice_from 2 line in
        let indent :=
          if first_line
          then String.length line - String.length (Py.lstrip line)
          else indent in
        let line := Py.slice_from indent line in
        body_loop title rest' false indent (body ++ [Py.rstrip line]) (S line_num)
  end.

Definition extract_body (title : string) (lines : list string) (line_num : nat)
  : Exn + (list string * nat) :=
  body_loop title (drop line_num lines) true 2 [] line_num.

(** [node.origin] for the node a reference points to.  A reference held by
    the parser always points into the store; the default is never used. *)
Definition node_origin (st : State) (i : nat) : OriginInfo :=
  default (mkOrigin "" 0) (origin <$> heap st !! i).

Definition rc_only (title : string) (origin : OriginInfo) : M unit :=
  if negb (file origin == RCFILE)
  then raise (DocsGenException title
                ("Block disallowed outside of " +:+ RCFILE +:+ " file:"))
  else ret tt.

Definition no_body (title : string) (body : list string) : M unit :=
  if some_list body
  then raise (DocsGenException title "Body not supported, while declaring block:")
  else ret tt.

Definition need_subtitle (title subtitle : string) : M unit :=
  if negb (nonempty subtitle)
  then raise (DocsGenException title
                "Must provide a subtitle when declaring block:")
  else ret tt.

(** [body.insert(0, subtitle)] when the subtitle is not empty. *)
Definition with_subtitle (subtitle : string) (body : list string) : list string :=
  if nonempty subtitle then subtitle :: body else body.

(** An assignment to an attribute of [self.curr_file_block], after
    [_mkfilenode] has made sure that there is one. *)
Definition upd_file (f : Node -> Node) : M unit :=
  let! cfb := gets curr_file_block in
  match cfb with
  | Some i => upd_node i f
  | None => ret tt
  end.

(** One block per body line, the subtitle going to the first only. *)
Fixpoint block_per_line (c : BlockCls) (title subtitle : string)
  (body : list string) (origin : OriginInfo) (parent : option nat)
  (meta : string) : M unit :=
  match body with
  | [] => ret tt
  | line :: body' =>
      new_block c title subtitle [line] origin parent meta None ;;
      block_per_line c title "" body' origin parent meta
  end.

Definition generate_docs_part (title part : string) : M unit :=
  let orig_part := Py.strip part in
  let part := Py.upper orig_part in
  if part == "FILES" then upd_opts (opts_set_gen_files true)
  else if part == "TOC" then upd_opts (opts_set_gen_toc true)
  else if part == "INDEX" then upd_opts (opts_set_gen_index true)
  else if part == "TOPICS" then upd_opts (opts_set_gen_topics true)
  else if in_list part ["CHEAT"; "CHEATSHEET"] then upd_opts (opts_set_gen_cheat true)
  else if part == "SIDEBAR" then upd_opts (opts_set_gen_sidebar true)
  else raise (DocsGenException title
                ("Unknown type " +:+ dquote +:+ orig_part +:+ dquote
                 +:+ ", while declaring block:")).

(** The declaration of a Constant, Function, Module or Function&Module
    (lines 403-414). *)
Definition declare_item (title subtitle : string) (body : list string)
  (origin : OriginInfo) : M unit :=
  _mkfilenode origin ;;
  let! cs := gets curr_section in
  when (negb (is_some cs))
    (let! cfb := gets curr_file_block in
     let! s := new_block SectionBlock "Section" "" [] origin cfb "" None in
     modify (set_curr_section (Some s))) ;;
  let! parent := gets curr_section in
  modify (set_curr_parent parent) ;;
  let! index := gets items_by_name in
  match index !! subtitle with
  | Some prev =>
      let! prevorig := gets (fun st => node_origin st prev) in
      raise (DocsGenException title
               ("Previous declaration of `" +:+ subtitle +:+ "` at "
                +:+ file prevorig +:+ ":" +:+ Py.str_of_nat (line prevorig)
                +:+ ", Redeclared:"))
  | None =>
      let! item := new_block ItemBlock title subtitle body origin parent "" None in
      modify (fun st => set_items_by_name (<[subtitle := item]> (items_by_name st)) st) ;;
      modify (set_curr_item (Some item)) ;;
      modify (set_curr_parent (Some item))
  end.

(** A title found in [header_defs] (lines 391-400). *)
Definition registered_block (d : HeaderDef) (title meta subtitle : string)
  (body : list string) (origin : OriginInfo) (parent : option nat) : M unit :=
  let '(parcls, c, data, cb) := d in
  let! fits := gets (fun st =>
    match parcls with
    | None => true
    | Some pc => isinstance st (curr_parent st) pc
    end) in
  when fits
    ((match c with
      | GenericBlock | LabelBlock | TextBlock | NumberedListBlock
      | BulletListBlock =>
          new_block c title subtitle body origin parent "" None ;; ret tt
      | TableBlock =>
          new_block c title subtitle body origin parent "" data ;; ret tt
      | FigureBlock | ExampleBlock =>
          new_block c title subtitle body origin parent meta None ;; ret tt
      | _ => ret tt
      end) ;;
     match cb with
     | Some f => run_callback f subtitle
     | None => ret tt
     end).

(** The body of the [try] of [_parse_block] up to the last [raise]
    (lines 251-422): the dispatch on the title. *)
Definition dispatch (title meta subtitle : string) (body : list string)
  (origin : OriginInfo) : M unit :=
  let! parent := gets curr_parent in
  if title == "DefineHeader" then
    _define_blocktype subtitle meta
  else if title == "IgnoreFiles" then
    rc_only title origin ;;
    let body := with_subtitle subtitle body in
    modify (fun st => set_ignored_file_pats
                        (ignored_file_pats st ++ map Py.strip body) st) ;;
    modify (fun st => set_ignored_files
                        (list_to_set
                           (concat (map (fun pat => glob env pat true)
                                      (ignored_file_pats st)))) st)
  else if title == "PrioritizeFiles" then
    rc_only title origin ;;
    let body := with_subtitle subtitle body in
    modify (set_priority_files
              (concat (map (fun line => glob env (Py.strip line) false) body)))
  else if title == "DocsDirectory" then
    rc_only title origin ;;
    no_body title body ;;
    upd_opts (opts_set_docs_dir (Py.rstrip_char "/" (Py.strip subtitle)))
  else if title == "ProjectName" then
    rc_only title origin ;;
    no_body title body ;;
    upd_opts (opts_set_project_name (Py.strip subtitle))
  else if title == "TargetProfile" then
    rc_only title origin ;;
    no_body title body ;;
    (if negb (set_target env (Py.strip subtitle))
     then raise (DocsGenException title "Body not supported, while declaring block:")
     else ret tt) ;;
    upd_opts (opts_set_target_profile (Py.strip subtitle))
  else if title == "GenerateDocs" then
    rc_only title origin ;;
    no_body title body ;;
    let! o := gets opts in
    when (negb (gen_files o || gen_toc o || gen_index o || gen_topics o
                || gen_cheat o))
      (for_each (Py.split "," subtitle) (generate_docs_part title))
  else if (title == "vim") || (title == "emacs") then
    ret tt
  else if in_list title ["File"; "LibFile"] then
    let! cfb := gets curr_file_block in
    if is_some cfb then
      raise (DocsGenException title
               "File/Libfile block already specified, while declaring block:")
    else
      let! f := new_block FileBlock title subtitle body origin None "" None in
      modify (set_curr_file_block (Some f)) ;;
      modify (set_curr_section None) ;;
      modify (set_curr_subsection None) ;;
      modify (set_curr_parent (Some f)) ;;
      modify (fun st => set_file_blocks (file_blocks st ++ [f]) st)
  else
  let! cfb := gets curr_file_block in
  let! is_strict := gets strict in
  if negb (is_some cfb) && is_strict then
    raise (DocsGenException title
             "Must declare File or LibFile block before declaring block:")
  else if title == "Section" then
    _mkfilenode origin ;;
    let! cfb := gets curr_file_block in
    let! s := new_block SectionBlock title subtitle body origin cfb "" None in
    modify (set_curr_section (Some s)) ;;
    modify (set_curr_subsection None) ;;
    modify (set_curr_parent (Some s))
  else if title == "Subsection" then
    let! cs := gets curr_section in
    if negb (is_some cs) then
      raise (DocsGenException title
               "Must declare a Section before declaring block:")
    else
      need_subtitle title subtitle ;;
      let! s := new_block SubsectionBlock title subtitle body origin cs "" None in
      modify (set_curr_subsection (Some s)) ;;
      modify (set_curr_parent (Some s))
  else if title == "Includes" then
    _mkfilenode origin ;;
    let! cfb := gets curr_file_block in
    new_block IncludesBlock title subtitle body origin cfb "" None ;; ret tt
  else if title == "FileSummary" then
    need_subtitle title subtitle ;;
    _mkfilenode origin ;;
    upd_file (node_set_summary (Py.strip subtitle))
  else if title == "FileGroup" then
    need_subtitle title subtitle ;;
    _mkfilenode origin ;;
    upd_file (node_set_group (Py.strip subtitle))
  else if title == "FileFootnotes" then
    need_subtitle title subtitle ;;
    _mkfilenode origin ;;
    upd_file (node_set_footnotes
                (map (fun part => map Py.strip (Py.split1 "=" (Py.strip part)))
                   (Py.split ";" subtitle)))
  else if title == "CommonCode" then
    _mkfilenode origin ;;
    upd_file (fun n => node_set_common_code (common_code n ++ body) n)
  else if title == "Figure" then
    _mkfilenode origin ;;
    new_block FigureBlock title subtitle body origin parent meta None ;; ret tt
  else if title == "Example" then
    let! ci := gets curr_item in
    when (is_some ci)
      (new_block ExampleBlock title subtitle body origin parent meta None ;; ret tt)
  else if title == "Figures" then
    _mkfilenode origin ;;
    block_per_line FigureBlock "Figure" subtitle body origin parent meta
  else if title == "Examples" then
    let! ci := gets curr_item in
    when (is_some ci)
      (block_per_line ExampleBlock "Example" subtitle body origin parent meta)
  else
  let! hd := gets (fun st => header_defs st !! title) in
  match hd with
  | Some d => registered_block d title meta subtitle body origin parent
  | None =>
      if in_list title ["Constant"; "Function"; "Module"; "Function&Module"] then
        declare_item title subtitle body origin
      else if title == "Topics" then
        let! ci := gets curr_item in
        when (is_some ci)
          (new_block TopicsBlock title subtitle body origin parent "" None ;; ret tt)
      else if title == "See Also" then
        let! ci := gets curr_item in
        when (is_some ci)
          (new_block SeeAlsoBlock title subtitle body origin parent "" None ;; ret tt)
      else
        raise (DocsGenException title "Unrecognized block:")
  end.

(** Lines 424-428: the item is closed unless a comment line follows, and
    the lines up to the next header are skipped. *)
Definition after_block (lines : list string) (line_num : nat) : M nat :=
  let follows :=
    match lines !! line_num with
    | Some l => Py.startswith l "//"
    | None => false
    end in
  when ((length lines <=? line_num) || negb follows) (modify close_item) ;;
  _skip_lines lines line_num.

(** [try: ... except DocsGenException as e: errorlog.add_entry(...)]; any
    other exception passes through. *)
Definition try_log {A} (m : M A) (origin : OriginInfo) (otherwise : A) : M A :=
  fun st =>
    match m st with
    | Raise st' (DocsGenException b msg) =>
        Return (set_errorlog
                  (errorlog st' ++ [mkEntry (file origin) (line origin)
                                      (DocsGenException b msg) FAIL]) st')
               otherwise
    | o => o
    end.

Definition _parse_block (lines : list string) (line_num : nat)
  (src_file : string) : M nat :=
  let! line_num := _skip_lines lines line_num in
  if length lines <=? line_num then ret line_num
  else
    let hdr_line_num := line_num in
    match lines !! line_num with
    | None => ret line_num   (* not reached: line_num < len(lines) *)
    | Some line =>
        match header_match line with
        | None => ret line_num
        | Some (title, meta, subtitle) =>
            match extract_body title lines (line_num + 1) with
            | inl e => raise e
            | inr (body, line_num) =>
                let origin := mkOrigin src_file (hdr_line_num + 1) in
                try_log (dispatch title meta subtitle body origin ;;
                         after_block lines line_num)
                        origin line_num
            end
        end
    end.

(** [parse_lines]: [while line_num < len(lines): line_num = _parse_block(...)].
    The loop is unrolled [fuel] times; [parse_lines] gives it as many turns
    as there are lines left, which is shown below to be enough. *)
Fixpoint parse_loop (fuel : nat) (lines : list string) (line_num : nat)
  (src_file : string) : M nat :=
  fun st =>
    if length lines <=? line_num then Return st line_num
    else
      match fuel with
      | O => Return st line_num
      | S fuel' =>
          match _parse_block lines line_num src_file st with
          | Return st' n => parse_loop fuel' lines n src_file st'
          | Raise st' e => Raise st' e
          end
      end.

Definition parse_lines (lines : list string) (line_num : nat)
  (src_file : string) : M unit :=
  parse_loop (length lines - line_num) lines line_num src_file ;; ret tt.

Definition builtin_header_defs : gmap string HeaderDef :=
  list_to_map
    [ ("Status", (Some ItemBlock, LabelBlock, None, Some status_block_cb));
      ("Alias", (Some ItemBlock, LabelBlock, None, Some alias_block_cb));
      ("Aliases", (Some ItemBlock, LabelBlock, None, Some alias_block_cb));
      ("Arguments",
       (Some ItemBlock, TableBlock,
        Some [ [ "^<abbr title=" +:+ dquote
                 +:+ "These args can be used by position or by name."
                 +:+ dquote +:+ ">By&nbsp;Position</abbr>";
                 "What it does" ];
               [ "^<abbr title=" +:+ dquote
                 +:+ "These args must be used by name, ie: name=value"
                 +:+ dquote +:+ ">By&nbsp;Name</abbr>";
                 "What it does" ] ],
        None)) ].

Definition default_lines : list string :=
  [ "// DefineHeader(Text): Text";
    "// DefineHeader(Text;ItemOnly): Description";
    "// DefineHeader(BulletList;ItemOnly): Usage" ].

(** ["// " + line for line in f.readlines()] *)
Definition commented (ls : list string) : list string :=
  map (fun l => "// " +:+ l) ls.

Definition _reset_header_defs : M unit :=
  modify (set_header_defs builtin_header_defs) ;;
  parse_lines default_lines 0 "Defaults" ;;
  match rcfile env with
  | Some ls => parse_lines (commented ls) 0 RCFILE
  | None => ret tt
  end.

(** The state that [__init__] starts from, before it calls
    [_reset_header_defs]: nothing parsed, nothing logged. *)
Definition blank (o : Options) (is_strict : bool) : State :=
  mkState o is_strict [] None None None None None [] ∅ [] ∅ ∅ [] [].

(** [DocsGenParser(opts)] in a fresh process. *)
Definition init (o : Options) (is_strict : bool) : outcome unit :=
  _reset_header_defs (blank o is_strict).

(** [parse_file], given the lines that [f.readlines()] returns. *)
Definition parse_file (filename : string) (contents : list string)
  (commentless : bool) : M unit :=
  let! ign := gets ignored_files in
  if decide (filename ∈ ign) then ret tt
  else
    modify (set_curr_file_block None) ;;
    modify (set_curr_section None) ;;
    _reset_header_defs ;;
    parse_lines (if commentless then commented contents else contents)
      0 filename.

(** [get_indexed_names]: the keys of [items_by_name], sorted. *)
Definition get_indexed_names (st : State) : list string :=
  Py.sorted (map_to_list (items_by_name st)).*1.

End Parser.

(* ===================================================================== *)
(** ** Notions of the specification *)
(* ===================================================================== *)

(** Re-indentation of a comment line by [k] columns: [k] blanks are put in
    right after the "//". *)
Definition reindent (k : nat) (line : string) : string :=
  "//" +:+ Py.mul " " k +:+ Py.slice_from 2 line.

(** The lines [start .. stop-1] re-indented, the others left as they are. *)
Definition reindent_block (k start stop : nat) (lines : list string)
  : list string :=
  take start lines
  ++ map (reindent k) (take (stop - start) (drop start lines))
  ++ drop stop lines.

(** The indent of a body line: the length of the whitespace that follows
    its "//". *)
Definition indent_width (line : string) : nat :=
  let x := Py.slice_from 2 line in
  String.length x - String.length (Py.lstrip x).

(** A body line with the "//" and [w] more characters taken off its left
    and the whitespace taken off its right. *)
Definition normalize (w : nat) (line : string) : string :=
  Py.rstrip (Py.slice_from w (Py.slice_from 2 line)).

(** The number of Item nodes of the store that carry the subtitle [s]. *)
Definition is_item_named (s : string) (n : Node) : bool :=
  BlockCls_eqb (cls n) ItemBlock && (subtitle n == s).

Definition item_count (s : string) (h : list Node) : nat :=
  length (filter (fun n => is_item_named s n = true) h).



(** The File-or-LibFile guard of strict mode lets the block through. *)
Definition guard_passes (st : State) : Prop :=
  strict st = false \/ is_Some (curr_file_block st).

(** The attributes that a block is built with. *)
Definition is_block (c : BlockCls) (t s : string) (b : list string)
  (o : OriginInfo) (p : option nat) (nd : Node) : Prop :=
  cls nd = c /\ title nd = t /\ subtitle nd = s /\ body nd = b
  /\ origin nd = o /\ parent nd = p.

(** What a Section header leaves behind when the unit has no File node
    yet: a placeholder File node named after the source file, with the
    Section as its only child, and the Section as the current parent. *)
Definition placeholder_file_made (src : string) (ln : nat)
  (subtitle : string) (body : list string) (st st' : State) : Prop :=
  let f := length (heap st) in
  let s := S f in
  let o := mkOrigin src ln in
  heap st' = heap st ++
    [ add_child s (new_node FileBlock "LibFile" src [] o None "" None);
      new_node SectionBlock "Section" subtitle body o (Some f) "" None ]
  /\ curr_file_block st' = Some f
  /\ file_blocks st' = file_blocks st ++ [f]
  /\ curr_section st' = Some s
  /\ curr_parent st' = Some s
  /\ errorlog st' = errorlog st.

(** ** States and inputs of the examples *)

(** Nothing on disk and no RC file. *)
Definition env0 : Env := mkEnv (fun _ _ => []) (fun _ => false) None.

Definition opts0 : Options :=
  mkOptions "" "" "" false false false false false false.

Definition state_of {A} (o : outcome A) : State :=
  match o with
  | Return st _ => st
  | Raise st _ => st
  end.

(** The parser right after [DocsGenParser(opts)]. *)
Definition fresh (is_strict : bool) : State :=
  state_of (init env0 opts0 is_strict).

Definition figure_lines : list string :=
  [ "// LibFile: shapes.scad";
    "// Figure: A cube";
    "//   cube(10);" ].

(** The state after the LibFile block of [figure_lines]. *)
Definition after_libfile : State :=
  state_of (_parse_block env0 figure_lines 0 "shapes.scad" (fresh false)).

Definition example_lines : list string :=
  [ "// LibFile: shapes.scad";
    "// Example: A cube";
    "//   cube(10);" ].

Definition orphan_section_lines : list string :=
  [ "// Section: Shapes";
    "//   Basic shapes." ].

Definition dup_lines : list string :=
  [ "// LibFile: foo.scad";
    "// Function: bar()";
    "// Description:";
    "//   Does a thing.";
    "x = 1;";
    "// Function: bar()" ].

Definition indented_lines : list string :=
  [ "// Example: Two solids";
    "//   cube(10);";
    "//     sphere(5);  ";
    "// Section: Next" ].

Definition under_indented_lines : list string :=
  [ "// Section: Shapes";
    "//     Solids of all kinds,";
    "//   not as deep as the line before.";
    "// Function: bar()" ].

Definition alias_lines : list string :=
  [ "// Function: foo()";
    "";
    "// Function: bar()";
    "// Alias: foo()" ].

(** Alphabetical order that ignores case: the order of the lower-cased
    names. *)
Definition case_insensitive_le (a b : string) : Prop :=
  Py.le (Py.lower a) (Py.lower b) = true.

(** The order of [str]: lexicographic on code points, capitals first. *)
Definition code_point_le (a b : string) : Prop := Py.le a b = true.

Definition mixed_case_lines : list string :=
  [ "// Function: apple()";
    "";
    "// Function: Banana()" ].

Definition mixed_case_state : State :=
  state_of (parse_lines env0 mixed_case_lines 0 "fruit.scad" (fresh false)).

(** The options that name the kind of block of a DefineHeader, in the
    order in which [_define_blocktype] tests them, each with the class it
    stands for. *)
Definition kind_table : list (string * BlockCls) :=
  [ ("NumList", NumberedListBlock); ("BulletList", BulletListBlock);
    ("Table", TableBlock); ("Example", ExampleBlock);
    ("Figure", FigureBlock); ("Label", LabelBlock); ("Text", TextBlock);
    ("Generic", GenericBlock) ].


(** The first kind option, in that order, that is a key of the dict. *)
Definition first_kind (d : gmap string MetaVal) : option (string * BlockCls) :=
  List.find (fun kc => has_key (fst kc) d) kind_table.

(** The key that a token of the option string stands for. *)
Definition option_key (part : string) : string :=
  if Py.contains "=" part then hd "" (Py.split1 "=" part) else part.





Definition parentspec_of (meta : string) : option BlockCls :=
  if has_key "ItemOnly" (_parse_meta_dict meta) then Some ItemBlock else None.


(** ** The header grammar *)

(** Every character of [s] is in the class [p]. *)
Fixpoint all_chars (p : ascii -> bool) (s : string) : bool :=
  match s with
  | "" => true
  | String c s' => p c && all_chars p s'
  end.

(** A capitalized word: a capital letter, then letters, digits, '_', '&'
    and '-'. *)
Definition capitalized_word (w : string) : Prop :=
  exists c w', w = String c w' /\ cls_upper c = true
               /\ all_chars cls_word w' = true.

(** A title: one capitalized word, or two with one blank between them. *)
Definition header_title (t : string) : Prop :=
  capitalized_word t
  \/ exists w1 w2, t = w1 +:+ " " +:+ w2
                   /\ capitalized_word w1 /\ capitalized_word w2.

(** The optional metadata: nothing, or [m] between parentheses, [m]
    having no closing parenthesis in it. *)
Definition header_meta (mp m : string) : Prop :=
  (mp = "" /\ m = "")
  \/ (mp = "(" +:+ m +:+ ")" /\ all_chars cls_not_rparen m = true).

(** The end of a line: nothing, or the newline that [readlines] keeps. *)
Definition line_end (e : string) : Prop := e = "" \/ e = newline.

(** The header grammar in the words of the specification: the comment
    prefix, a title, optional metadata, a colon, and the rest of the line
    as the subtitle, trimmed. *)
Definition spec_header_line (line t m s : string) : Prop :=
  exists mp rest e,
    line = "// " +:+ t +:+ mp +:+ ":" +:+ rest +:+ e
    /\ header_title t /\ header_meta mp m
    /\ all_chars cls_dot rest = true /\ line_end e
    /\ s = Py.strip rest.

(** The header grammar of [_header_pat]: as above, but what follows the
    colon is either the end of the line or a blank and then the text of
    the subtitle. *)
Definition header_line (line t m s : string) : Prop :=
  exists mp sp e,
    line = "// " +:+ t +:+ mp +:+ ":" +:+ sp +:+ e
    /\ header_title t /\ header_meta mp m /\ line_end e
    /\ ((sp = "" /\ s = "")
        \/ exists u, sp = " " +:+ u /\ all_chars cls_dot u = true
                     /\ s = Py.strip sp).

(** What it means for a regular expression to match at the head of a
    string: [matches r s g s' g'] when [r] takes a prefix of [s] and leaves
    [s'], the groups going from [g] to [g']. *)
Inductive matches : Re.regex -> string -> Re.groups -> string -> Re.groups
                    -> Prop :=
| M_Lit c s g : matches (Re.Lit c) (String c s) g s g
| M_Cls p c s g : p c = true -> matches (Re.Cls p) (String c s) g s g
| M_Star p u s g : all_chars p u = true -> matches (Re.Star p) (u +:+ s) g s g
| M_Seq r1 r2 s g s1 g1 s2 g2 :
    matches r1 s g s1 g1 -> matches r2 s1 g1 s2 g2 ->
    matches (Re.Seq r1 r2) s g s2 g2
| M_Opt_some r s g s' g' : matches r s g s' g' -> matches (Re.Opt r) s g s' g'
| M_Opt_none r s g : matches (Re.Opt r) s g s g
| M_Grp n r s g s' g' :
    matches r s g s' g' ->
    matches (Re.Grp n r) s g s' (Re.set_group n (Re.consumed s s') g')
| M_Eol s g : line_end s -> matches Re.Eol s g s g.

(** The three values that [header_match] reads off the groups. *)
Definition triple_of (g : Re.groups) : string * string * string :=
  (default "" (g 1),
   match g 3 with Some m => slice_1_m1 m | None => "" end,
   match g 4 with Some s => Py.strip s | None => "" end).

(* ===================================================================== *)
(** ** Auxiliary notions of the proofs *)
(* ===================================================================== *)

(** The characters that a title is made of. *)
Definition title_char (c : ascii) : bool := cls_word c || Ascii.eqb c " ".

(** [r] is empty or starts with a character outside the class [q]: a run
    of [q]-characters stops there. *)
Definition stops (q : ascii -> bool) (r : string) : Prop :=
  match r with
  | "" => True
  | String c _ => q c = false
  end.

(** Two versions of a node that differ in their children at most. *)
Definition same_node (a b : Node) : Prop :=
  node_set_children [] a = node_set_children [] b.

(** [st'] is [st] with blocks added that are not Items and with other
    context pointers: the name index and the log are the same, and the
    nodes of [st] are still there. *)
Record grows (st st' : State) : Prop := {
  grows_index : items_by_name st' = items_by_name st;
  grows_log : errorlog st' = errorlog st;
  grows_defs : header_defs st' = header_defs st;
  grows_strict : strict st' = strict st;
  grows_item : curr_item st' = curr_item st;
  grows_length : length (heap st) <= length (heap st');
  grows_nodes : forall i x, heap st !! i = Some x ->
                  exists x', heap st' !! i = Some x' /\ same_node x x';
  grows_count : forall s, item_count s (heap st') = item_count s (heap st);
}.

(** [skip_loop] and [after_block] only move the item and parent pointers. *)
Record same_content (st st' : State) : Prop := {
  same_heap : heap st' = heap st;
  same_index : items_by_name st' = items_by_name st;
  same_log : errorlog st' = errorlog st;
  same_file : curr_file_block st' = curr_file_block st;
  same_section : curr_section st' = curr_section st;
}.


(** The expression of the title, inside group 1. *)
Definition re_title : Re.regex :=
  Re.Seq (Re.Cls cls_upper)
    (Re.Seq (Re.Star cls_word)
       (Re.Opt (Re.Grp 2 (Re.Seq (Re.Opt (Re.Lit " "))
                            (Re.Seq (Re.Cls cls_upper) (Re.Star cls_word)))))).

Definition re_meta : Re.regex :=
  Re.Opt (Re.Grp 3 (Re.Seq (Re.Lit "(")
                      (Re.Seq (Re.Star cls_not_rparen) (Re.Lit ")")))).

Definition re_subtitle : Re.regex :=
  Re.Opt (Re.Grp 4 (Re.Seq (Re.Lit " ") (Re.Star cls_dot))).


(* ===================================================================== *)
(** ** The table of file hashes *)
(* ===================================================================== *)

(** A Python [dict] whose order of iteration is observed: the list of its
    items, in the order in which the keys were first inserted. *)
Module Dict.

Section Ops.

Context {V : Type}.

(** [d.get(k)]; [k in d] is [is_some (get k d)]. *)
Fixpoint get (k : string) (d : list (string * V)) : option V :=
  match d with
  | [] => None
  | (k', v) :: d' => if k' == k then Some v else get k d'
  end.

(** [d[k] = v]: a key that is there keeps its place, a new one goes last. *)
Fixpoint setitem (k : string) (v : V) (d : list (string * V))
  : list (string * V) :=
  match d with
  | [] => [(k, v)]
  | (k', v') :: d' =>
      if k' == k then (k', v) :: d' else (k', v') :: setitem k v d'
  end.

End Ops.

End Dict.

(** Files read in text mode. *)
Module PyFile.

(** [f.readlines()] on the text of a file: a line ends with a line feed, a
    carriage return or the two in a row, and each of these is handed over
    as one line feed.  [after_cr] tells that the character before was a
    carriage return, [cur] is the line being collected. *)
Fixpoint readlines_go (after_cr : bool) (cur s : string) : list string :=
  match s with
  | "" => if nonempty cur then [cur] else []
  | String c s' =>
      if Ascii.eqb c "010" then
        if after_cr then readlines_go false cur s'
        else (cur +:+ newline) :: readlines_go false "" s'
      else if Ascii.eqb c "013" then
        (cur +:+ newline) :: readlines_go true "" s'
      else readlines_go false (cur +:+ String c "") s'
  end.

Definition readlines (text : string) : list string :=
  readlines_go false "" text.

End PyFile.

Definition HASHFILE : string := ".source_hashes".

(** The loop of [read_hashes]; [None] stands for the [ValueError] of an
    unpacking that does not find two values. *)
Fixpoint read_hashes_loop (lines : list string)
  (file_hashes : list (string * string)) : option (list (string * string)) :=
  match lines with
  | [] => Some file_hashes
  | line :: lines' =>
      match Py.split "|" (Py.strip line) with
      | [filename; hashstr] =>
          read_hashes_loop lines' (Dict.setitem filename hashstr file_hashes)
      | _ => None
      end
  end.

(** [read_hashes], given the text of the hashes file when there is one:
    the new value of [self.file_hashes]. *)
Definition read_hashes (hashfile : option string) : list (string * string) :=
  match hashfile with
  | None => []
  | Some text =>
      match read_hashes_loop (PyFile.readlines text) [] with
      | Some file_hashes => file_hashes
      | None => []
      end
  end.

(** [write_hashes]: the text that the hashes file is left with, on a
    system that stores a line feed as it is. *)
Definition write_hashes (file_hashes : list (string * string)) : string :=
  fold_right String.append ""
    (map (fun '(filename, hashstr) => filename +:+ "|" +:+ hashstr +:+ newline)
       file_hashes).

Section Hashes.

(** [_sha256sum(filename)]: the digest of what the file holds now. *)
Variable _sha256sum : string -> string.

(** [matches_hash]: the new value of [self.file_hashes] and the Boolean
    returned. *)
Definition matches_hash (filename : string)
  (file_hashes : list (string * string)) : list (string * string) * bool :=
  let newhash := _sha256sum filename in
  match Dict.get filename file_hashes with
  | None => (Dict.setitem filename newhash file_hashes, false)
  | Some oldhash =>
      if negb (oldhash == newhash)
      then (Dict.setitem filename newhash file_hashes, false)
      else (file_hashes, true)
  end.

End Hashes.

(* ===================================================================== *)
(** ** The order of the files in the listings *)
(* ===================================================================== *)

(** [node.subtitle] and [node.group] for the node a reference points to. *)
Definition node_subtitle (st : State) (i : nat) : string :=
  default "" (subtitle <$> heap st !! i).

Definition node_group (st : State) (i : nat) : string :=
  default "" (group <$> heap st !! i).

(** The inner loop of the first part of [_files_prioritized]: the file
    blocks named [pri_file] are put out, and the name is marked as found
    when there is one. *)
Definition prioritize_one (st : State) (acc : list nat * gset string)
  (pri_file : string) : list nat * gset string :=
  fold_left
    (fun '(out, found) file_block =>
       if node_subtitle st file_block == pri_file
       then (out ++ [file_block], {[pri_file]} ∪ found)
       else (out, found))
    (file_blocks st) acc.

Definition _files_prioritized (st : State) : list nat :=
  let '(out, found) :=
    fold_left (prioritize_one st) (priority_files st) ([], ∅) in
  fold_left
    (fun out file_block =>
       if decide (node_subtitle st file_block ∈ found)
       then out else out ++ [file_block])
    (file_blocks st) out.

(** The groups of [write_toc_file] and [write_sidebar_file] (lines 715-721
    and 905-911): the groups that have a name in the order in which the
    files bring them up, then the group without a name if a file has
    none. *)
Definition file_groups (st : State) (prifiles : list nat) : list string :=
  let named :=
    fold_left
      (fun groups fblock =>
         let g := node_group st fblock in
         if nonempty g && negb (in_list g groups)
         then groups ++ [g] else groups)
      prifiles [] in
  fold_left
    (fun groups fblock =>
       let g := node_group st fblock in
       if negb (nonempty g) && negb (in_list g groups)
       then groups ++ [g] else groups)
    prifiles named.

(** The file numbers listed under [group] by the loops of lines 729-731
    and 927-929: [fnum] counts from 0 over all the files. *)
Definition files_of_group (st : State) (prifiles : list nat) (group : string)
  : list (nat * nat) :=
  filter (fun numbered => node_group st numbered.2 = group)
    (imap (fun fnum fblock => (fnum, fblock)) prifiles).

(* ===================================================================== *)
(** ** Several files *)
(* ===================================================================== *)

Section Files.

Variable env : Env.

(** [parse_files], given for each file name the lines that [readlines]
    returns for it. *)
Definition parse_files (filenames : list (string * list string))
  (commentless : bool) : M unit :=
  for_each filenames
    (fun '(filename, contents) => parse_file env filename contents commentless).

End Files.

(* ===================================================================== *)
(** ** Notions of the further properties *)
(* ===================================================================== *)

(** The number of times that [c] occurs in [s]. *)
Fixpoint count_char (c : ascii) (s : string) : nat :=
  match s with
  | "" => 0
  | String x s' => (if Ascii.eqb x c then 1 else 0) + count_char c s'
  end.

(** A character that takes no part in the layout of the hashes file:
    neither the separator nor an end of line. *)
Definition hash_plain (c : ascii) : bool :=
  negb (Ascii.eqb c "|") && negb (Ascii.eqb c "010")
  && negb (Ascii.eqb c "013").

(** A file name and a hash that a line of the hashes file gives back as
    they are: plain characters, no whitespace at the left of the name nor
    at the right of the hash. *)
Definition storable (item : string * string) : Prop :=
  all_chars hash_plain item.1 = true /\ all_chars hash_plain item.2 = true
  /\ Py.lstrip item.1 = item.1 /\ Py.rstrip item.2 = item.2.

(** The keys of a [dict] are distinct. *)
Definition distinct_keys {V} (d : list (string * V)) : Prop := NoDup d.*1.

(** A character that does not end a line. *)
Definition cls_no_eol (c : ascii) : bool :=
  negb (Ascii.eqb c "010") && negb (Ascii.eqb c "013").

(** The line that [write_hashes] writes for an item. *)
Definition hash_line (item : string * string) : string :=
  item.1 +:+ "|" +:+ item.2 +:+ newline.

(** The file blocks named [name], in the order of parsing. *)
Definition files_named (st : State) (name : string) : list nat :=
  filter (fun fb => node_subtitle st fb = name) (file_blocks st).

(** The number of times that [x] occurs in [l]. *)
Definition occurrences {A} `{EqDecision A} (x : A) (l : list A) : nat :=
  length (filter (fun y => y = x) l).

(** The files with their numbers, as [enumerate] gives them. *)
Definition enumerate {A} (l : list A) : list (nat * A) :=
  imap (fun i x => (i, x)) l.

(* ===================================================================== *)
(** ** Well-formed states *)
(* ===================================================================== *)

(** The class of the node that a reference points to. *)
Definition cls_at (h : list Node) (i : nat) : option BlockCls :=
  cls <$> h !! i.

(** A reference that is [None] or points to a node of class [c]. *)
Definition typed (h : list Node) (r : option nat) (c : BlockCls) : Prop :=
  forall i, r = Some i -> cls_at h i = Some c.

(** A reference that is [None] or points into the store. *)
Definition valid (h : list Node) (r : option nat) : Prop :=
  forall i, r = Some i -> i < length h.

(** The parent that goes with a class: none for a File, a File for a
    Section, a Section for a Subsection and for an Item; any node of the
    store, or none, for the other blocks. *)
Definition parent_fits (h : list Node) (c : BlockCls) (p : option nat) : Prop :=
  match c with
  | FileBlock => p = None
  | SectionBlock => exists f, p = Some f /\ cls_at h f = Some FileBlock
  | SubsectionBlock | ItemBlock =>
      exists s, p = Some s /\ cls_at h s = Some SectionBlock
  | _ => valid h p
  end.

(** The names that an Item goes by. *)
Definition names_of (nd : Node) : list string := subtitle nd :: aliases nd.

(** The context pointers of the parser point to nodes of the right class;
    the current parent is an Item only when it is the Item that is open. *)
Definition pointers_ok (h : list Node) (cfb cs css ci cp : option nat) : Prop :=
  typed h cfb FileBlock /\ typed h cs SectionBlock
  /\ typed h css SubsectionBlock /\ typed h ci ItemBlock
  /\ valid h cp
  /\ (forall p, cp = Some p -> cls_at h p = Some ItemBlock -> ci = Some p).

Record well_formed (st : State) : Prop := {
  (* every node has the parent that goes with its class, an older node *)
  wf_parents : forall i nd, heap st !! i = Some nd ->
    parent_fits (heap st) (cls nd) (parent nd)
    /\ forall p, parent nd = Some p -> p < i;
  (* file_blocks lists the File nodes, each once *)
  wf_files : forall f,
    f ∈ file_blocks st <-> cls_at (heap st) f = Some FileBlock;
  wf_files_once : NoDup (file_blocks st);
  (* a name of the index belongs to the Item that the index gives for it *)
  wf_index : forall k i, items_by_name st !! k = Some i ->
    exists nd, heap st !! i = Some nd /\ cls nd = ItemBlock /\ k ∈ names_of nd;
  (* every name of every Item is in the index *)
  wf_covers : forall i nd k, heap st !! i = Some nd -> cls nd = ItemBlock ->
    k ∈ names_of nd -> is_Some (items_by_name st !! k);
  wf_pointers : pointers_ok (heap st) (curr_file_block st) (curr_section st)
                  (curr_subsection st) (curr_item st) (curr_parent st);
  (* a callback is only registered for blocks that want an Item above *)
  wf_callbacks : forall t pc c data cb,
    header_defs st !! t = Some (pc, c, data, Some cb) -> pc = Some ItemBlock
}.

(** What well-formedness reads of a node. *)
Definition core (nd : Node) : BlockCls * option nat * string * list string :=
  (cls nd, parent nd, subtitle nd, aliases nd).

(** The exceptions that a block titled [title] can end with: the
    [DocsGenException] raised in its name and, for a DefineHeader, the
    [AttributeError] of a Headers option that has no value. *)
Definition no_split : Exn :=
  AttributeError "'int' object has no attribute 'split'".

Definition raised_for (title : string) (e : Exn) : Prop :=
  (e = no_split /\ title = "DefineHeader")
  \/ exists msg, e = DocsGenException title msg.

(** The exception of an under-indented body line. *)
Definition under_indented (title : string) : Exn :=
  DocsGenException title
    "Body line has less indentation than first line, while declaring block:".

(** The header at line [n] (counted from 1) of [lines], and its title. *)
Definition header_at (lines : list string) (n : nat) (title : string) : Prop :=
  exists line meta subtitle,
    1 <= n /\ lines !! (n - 1) = Some line
    /\ header_match line = Some (title, meta, subtitle).

(** An entry of the log made for a block of [lines]: it names the source
    file and the line of the header of the block, and holds an exception
    raised in the name of the block. *)
Definition entry_of (lines : list string) (src_file : string) (e : LogEntry)
  : Prop :=
  log_file e = src_file /\ log_level e = FAIL
  /\ exists title msg, header_at lines (log_line e) title
                       /\ log_exn e = DocsGenException title msg.

(** A computation that leaves the log as it is, and raises nothing but
    exceptions in the name of the block titled [title] and Python's own
    [AttributeError]. *)
Definition keeps_log (title : string) {A} (m : M A) : Prop :=
  forall st,
    match m st with
    | Return st' _ => errorlog st' = errorlog st
    | Raise st' e =>
        errorlog st' = errorlog st
        /\ exists msg, e = AttributeError msg \/ e = DocsGenException title msg
    end.

(** A computation that, run from [st], ends in a well-formed state: with a
    value and a state that satisfy [Q], or with an exception that the block
    titled [title] can end with. *)
Definition safe (title : string) {A} (m : M A) (st : State)
  (Q : A -> State -> Prop) : Prop :=
  match m st with
  | Return st' a => well_formed st' /\ Q a st'
  | Raise st' e => well_formed st' /\ raised_for title e
  end.

(** The classes of the blocks that hang anywhere: not a File, a Section,
    a Subsection or an Item. *)
Definition is_leaf (c : BlockCls) : bool :=
  match c with
  | FileBlock | SectionBlock | SubsectionBlock | ItemBlock => false
  | _ => true
  end.

(** [DocsGenParser(opts)] followed by [parse_files(filenames)], in a fresh
    process. *)
Definition session (env : Env) (o : Options) (is_strict : bool)
  (filenames : list (string * list string)) (commentless : bool)
  : outcome unit :=
  match init env o is_strict with
  | Return st _ => parse_files env filenames commentless st
  | Raise st e => Raise st e
  end.

(** The exceptions that leave [parse_lines]: the one of an under-indented
    body line and the one of a Headers option without a value, each for a
    header of [lines]. *)
Definition escapes (lines : list string) (e : Exn) : Prop :=
  exists title hdr,
    header_at lines hdr title
    /\ (e = under_indented title \/ (e = no_split /\ title = "DefineHeader")).

(** The configuration directives that are only let through in the RC
    file. *)
Definition rc_titles : list string :=
  ["IgnoreFiles"; "PrioritizeFiles"; "DocsDirectory"; "ProjectName";
   "TargetProfile"; "GenerateDocs"].

Definition disallowed (title : string) : Exn :=
  DocsGenException title
    ("Block disallowed outside of " +:+ RCFILE +:+ " file:").

(** The state with one more entry in the log, of level FAIL. *)
Definition logged (src_file : string) (line : nat) (e : Exn) (st : State)
  : State :=
  set_errorlog (errorlog st ++ [mkEntry src_file line e FAIL]) st.

(** The kinds of documents that a GenerateDocs block names: the parts of
    its subtitle between the commas, trimmed and in capitals. *)
Definition docs_kinds (subtitle : string) : list string :=
  map (fun part => Py.upper (Py.strip part)) (Py.split "," subtitle).

Definition known_kinds : list string :=
  ["FILES"; "TOC"; "INDEX"; "TOPICS"; "CHEAT"; "CHEATSHEET"; "SIDEBAR"].

(** The options after a GenerateDocs block that names [kinds]. *)
Definition with_docs (kinds : list string) (o : Options) : Options :=
  mkOptions (docs_dir o) (project_name o) (target_profile o)
    (gen_files o || in_list "FILES" kinds)
    (gen_toc o || in_list "TOC" kinds)
    (gen_index o || in_list "INDEX" kinds)
    (gen_topics o || in_list "TOPICS" kinds)
    (gen_cheat o || in_list "CHEAT" kinds || in_list "CHEATSHEET" kinds)
    (gen_sidebar o || in_list "SIDEBAR" kinds).

(** One of the five kinds of documents that the command line can ask for
    is asked for. *)
Definition docs_chosen (o : Options) : bool :=
  gen_files o || gen_toc o || gen_index o || gen_topics o || gen_cheat o.

(** A file system in which a pattern is the name of a file: [glob] finds
    the file that the pattern names. *)
Definition env_literal : Env := mkEnv (fun pat _ => [pat]) (fun _ => false) None.

(** A block of examples under a declaration, and the state in which its
    header is met: the Item bar() is open. *)
Definition examples_lines : list string :=
  [ "// Function: bar()";
    "// Examples: Two calls";
    "//   bar(1);";
    "//   bar(2);" ].

Definition item_open : State :=
  state_of (_parse_block env0 examples_lines 0 "foo.scad" (fresh false)).

(** The titles that [_parse_block] knows by itself and tells before it
    looks into the registry of block types. *)
Definition builtin_titles : list string :=
  ["DefineHeader"; "IgnoreFiles"; "PrioritizeFiles"; "DocsDirectory";
   "ProjectName"; "TargetProfile"; "GenerateDocs"; "vim"; "emacs";
   "File"; "LibFile"; "Section"; "Subsection"; "Includes"; "FileSummary";
   "FileGroup"; "FileFootnotes"; "CommonCode"; "Figure"; "Example";
   "Figures"; "Examples"].

(** The parent that the registry asks for is there: any, or an Item. *)
Definition parent_wanted (pc : option BlockCls) (st : State) : bool :=
  match pc with
  | None => true
  | Some c => isinstance st (curr_parent st) c
  end.

(** The state in which a Function header is met after a LibFile header. *)
Definition function_lines : list string :=
  [ "// LibFile: foo.scad";
    "// Function: bar()" ].

Definition at_function : State :=
  state_of (_parse_block env0 function_lines 0 "foo.scad" (fresh false)).

(** The value that a token of the option string gives to its key: the
    text after the first "=", or the integer 1. *)
Definition option_value (part : string) : MetaVal :=
  if Py.contains "=" part
  then VStr (nth 1 (Py.split1 "=" part) "")
  else VOne.

(** A project of two files whose RC file puts the second one first. *)
Definition env_priority : Env :=
  mkEnv (fun pat _ => [pat]) (fun _ => false)
    (Some ["PrioritizeFiles: b.scad"]).

Definition two_files : State :=
  state_of (session env_priority opts0 false
              [ ("a.scad", ["// LibFile: a.scad"]);
                ("b.scad", ["// LibFile: b.scad"]) ] false).

(** The titles that are told before the File-or-LibFile guard of strict
    mode. *)
Definition unguarded_titles : list string :=
  ["DefineHeader"; "IgnoreFiles"; "PrioritizeFiles"; "DocsDirectory";
   "ProjectName"; "TargetProfile"; "GenerateDocs"; "vim"; "emacs";
   "File"; "LibFile"].

(** The titles that are told after the registry has been looked into. *)
Definition late_titles : list string :=
  ["Constant"; "Function"; "Module"; "Function&Module"; "Topics"; "See Also"].

Definition file_wanted (title : string) : Exn :=
  DocsGenException title
    "Must declare File or LibFile block before declaring block:".

Definition file_twice (title : string) : Exn :=
  DocsGenException title
    "File/Libfile block already specified, while declaring block:".

Definition unrecognized (title : string) : Exn :=
  DocsGenException title "Unrecognized block:".

(** The state after a session over the one file of [dup_lines]. *)
Definition after_dup : State :=
  state_of (session env0 opts0 false [("foo.scad", dup_lines)] false).

(* ===================================================================== *)
(** ** Declarations over a whole session *)
(* ===================================================================== *)







(** Re-indentation of a comment line by any text [w], put in right after
    the "//"; [reindent k] is the case of [k] blanks. *)
Definition reindent_by (w line : string) : string :=
  "//" +:+ w +:+ Py.slice_from 2 line.

Definition reindent_block_by (w : string) (start stop : nat)
  (lines : list string) : list string :=
  take start lines
  ++ map (reindent_by w) (take (stop - start) (drop start lines))
  ++ drop stop lines.

Definition tab : string := String "009" "".

(* ===================================================================== *)
(** ** The scan always advances *)
(* ===================================================================== *)

Section Progress.

Variable env : Env.

Lemma skip_loop_spec rest : forall n st st' h,
  skip_loop rest n st = (st', h) ->
  n <= h /\
  (h = n + length rest \/
   exists line, rest !! (h - n) = Some line /\ is_some (header_match line) = true).
Proof.
  induction rest as [|l rest IH]; intros n st st' h H; simpl in H.
  - inversion H; subst. split; [lia | left; simpl; lia].
  - destruct (is_some (header_match l)) eqn:Hm.
    + inversion H; subst. split; [lia | right]. exists l.
      rewrite Nat.sub_diag. simpl. auto.
    + apply IH in H as [Hle [-> | (line & Hl & Hh)]].
      * split; [lia | left; simpl; lia].
      * split; [lia | right]. exists line. split; [|exact Hh].
        replace (h - n) with (S (h - S n)) by lia. exact Hl.
Qed.

Lemma body_loop_ge title rest : forall first indent body n body' n',
  body_loop title rest first indent body n = inr (body', n') -> n <= n'.
Proof.
  induction rest as [|l rest IH]; intros first indent body n body' n' H;
    cbn [body_loop] in H.
  - inversion H; lia.
  - destruct (negb (Py.startswith l ("//" +:+ Py.mul " " indent))).
    + destruct (Py.startswith l "//  "); inversion H; lia.
    + apply IH in H. lia.
Qed.

Lemma _skip_lines_ge lines n st :
  exists st' h, _skip_lines lines n st = Return st' h /\ n <= h.
Proof.
  unfold _skip_lines. destruct (skip_loop (drop n lines) n st) as [st' h] eqn:E.
  exists st', h. split; [reflexivity|]. apply skip_loop_spec in E. tauto.
Qed.

Lemma after_block_ge lines k st :
  exists st' k', after_block lines k st = Return st' k' /\ k <= k'.
Proof.
  unfold after_block, bind, when, modify, ret.
  match goal with |- context [if ?b then _ else _] => destruct b end;
    apply _skip_lines_ge.
Qed.





End Progress.

(* ===================================================================== *)
(** ** Strings *)
(* ===================================================================== *)

Lemma append_assoc (a b c : string) : (a +:+ b) +:+ c = a +:+ (b +:+ c).
Proof. induction a as [|x a IH]; simpl; [reflexivity | now rewrite IH]. Qed.

Lemma append_nil_r (a : string) : a +:+ "" = a.
Proof. induction a as [|x a IH]; simpl; [reflexivity | now rewrite IH]. Qed.

Lemma length_append (a b : string) :
  String.length (a +:+ b) = String.length a + String.length b.
Proof. induction a as [|x a IH]; simpl; [reflexivity | now rewrite IH]. Qed.

Lemma prefix_iff (p s : string) :
  String.prefix p s = true <-> exists r, s = p +:+ r.
Proof.
  revert s. induction p as [|c p IH]; intros s.
  - simpl. destruct s; split; eauto.
  - destruct s as [|d s]; simpl.
    + split; [discriminate | intros [r Hr]; discriminate].
    + destruct (ascii_dec c d) as [->|Hne].
      * rewrite IH. split; intros [r Hr]; exists r.
        -- now rewrite Hr.
        -- now inversion Hr.
      * split; [discriminate | intros [r Hr]; inversion Hr; congruence].
Qed.

Lemma prefix_append (p r : string) : String.prefix p (p +:+ r) = true.
Proof. apply prefix_iff. eauto. Qed.

Lemma prefix_shorter (p q s : string) :
  String.prefix p s = false -> String.prefix (p +:+ q) s = false.
Proof.
  intros H. destruct (String.prefix (p +:+ q) s) eqn:E; [|reflexivity].
  apply prefix_iff in E as [r ->]. rewrite append_assoc, prefix_append in H.
  discriminate.
Qed.

Lemma mul_add (s : string) (a b : nat) :
  Py.mul s (a + b) = Py.mul s a +:+ Py.mul s b.
Proof.
  induction a as [|a IH]; simpl; [reflexivity|].
  now rewrite IH, append_assoc.
Qed.

Lemma length_blanks (k : nat) : String.length (Py.mul " " k) = k.
Proof. induction k as [|k IH]; simpl; [reflexivity | now rewrite IH]. Qed.

Lemma slice_from_append (a b : string) :
  Py.slice_from (String.length a) (a +:+ b) = b.
Proof. induction a as [|x a IH]; simpl; [now destruct b | exact IH]. Qed.

Lemma slice_from_add (a b : nat) (s : string) :
  Py.slice_from (a + b) s = Py.slice_from b (Py.slice_from a s).
Proof.
  revert s. induction a as [|a IH]; intros s; simpl; [reflexivity|].
  destruct s as [|c s]; [now destruct b | apply IH].
Qed.

Lemma lstrip_blanks (k : nat) (s : string) :
  Py.lstrip (Py.mul " " k +:+ s) = Py.lstrip s.
Proof. induction k as [|k IH]; simpl; [reflexivity | exact IH]. Qed.

Lemma length_lstrip (s : string) :
  String.length (Py.lstrip s) <= String.length s.
Proof.
  induction s as [|c s IH]; simpl; [lia|].
  destruct (Py.isspace c); simpl; lia.
Qed.

(* ===================================================================== *)
(** ** Body extraction and re-indentation *)
(* ===================================================================== *)

Lemma reindent_accepted (k i : nat) (r : string) :
  reindent k ("//" +:+ Py.mul " " i +:+ r)
  = "//" +:+ Py.mul " " (i + k) +:+ r.
Proof.
  unfold reindent. change (Py.slice_from 2 ("//" +:+ ?x)) with x.
  rewrite (Nat.add_comm i k), mul_add, append_assoc. reflexivity.
Qed.

Lemma accepted_iff (line : string) (i : nat) :
  Py.startswith line ("//" +:+ Py.mul " " i) = true
  <-> exists r, line = "//" +:+ Py.mul " " i +:+ r.
Proof.
  unfold Py.startswith. rewrite prefix_iff.
  split; intros [r ->]; exists r; [apply append_assoc | symmetry; apply append_assoc].
Qed.

Lemma rejected_deeper (line : string) (i k : nat) :
  Py.startswith line ("//" +:+ Py.mul " " i) = false ->
  Py.startswith line ("//" +:+ Py.mul " " (i + k)) = false.
Proof.
  unfold Py.startswith. intros H. rewrite mul_add, <- append_assoc.
  now apply prefix_shorter.
Qed.

(** What a body line contributes is the same after the re-indentation. *)
Lemma body_line_reindent (k i w : nat) (r : string) :
  Py.slice_from (w + k) (Py.slice_from 2 ("//" +:+ Py.mul " " (i + k) +:+ r))
  = Py.slice_from w (Py.slice_from 2 ("//" +:+ Py.mul " " i +:+ r)).
Proof.
  change (Py.slice_from 2 ("//" +:+ ?x)) with x.
  rewrite (Nat.add_comm i k), mul_add, append_assoc, (Nat.add_comm w k),
    slice_from_add.
  rewrite <- (length_blanks k) at 1. now rewrite slice_from_append.
Qed.

Lemma indent_reindent (k i : nat) (r : string) :
  String.length (Py.mul " " (i + k) +:+ r)
  - String.length (Py.lstrip (Py.mul " " (i + k) +:+ r))
  = String.length (Py.mul " " i +:+ r)
    - String.length (Py.lstrip (Py.mul " " i +:+ r)) + k.
Proof.
  rewrite !lstrip_blanks, !length_append, !length_blanks.
  pose proof (length_lstrip r). lia.
Qed.

Lemma body_loop_reindent title k rest :
  forall first indent body n body' n',
  body_loop title rest first indent body n = inr (body', n') ->
  body_loop title
    (map (reindent k) (take (n' - n) rest) ++ drop (n' - n) rest)
    first (if first then indent else indent + k) body n
  = inr (body', n').
Proof.
  induction rest as [|l rest IH]; intros first indent body n body' n' H.
  - cbn [body_loop] in H. inversion H; subst. rewrite take_nil, drop_nil.
    reflexivity.
  - cbn [body_loop] in H.
    destruct (Py.startswith l ("//" +:+ Py.mul " " indent)) eqn:Hacc;
      cbn [negb] in H.
    + pose proof (body_loop_ge _ _ _ _ _ _ _ _ H) as Hge.
      replace (n' - n) with (S (n' - S n)) by lia.
      apply accepted_iff in Hacc as [r ->].
      rewrite firstn_cons, skipn_cons, map_cons.
      rewrite <- app_comm_cons, reindent_accepted.
      cbn [body_loop].
      assert (Hacc' : Py.startswith ("//" +:+ Py.mul " " (indent + k) +:+ r)
                        ("//" +:+ Py.mul " " (if first then indent else indent + k))
                      = true).
      { destruct first; apply accepted_iff.
        - exists (Py.mul " " k +:+ r). now rewrite mul_add, append_assoc.
        - now exists r. }
      rewrite Hacc'. cbn [negb].
      apply IH in H. cbn [negb] in H.
      change (Py.slice_from 2 ("//" +:+ ?x)) with x in *.
      destruct first.
      * rewrite indent_reindent.
        rewrite <- H. f_equal. f_equal. f_equal.
        pose proof (body_line_reindent k indent
          (String.length (Py.mul " " indent +:+ r)
           - String.length (Py.lstrip (Py.mul " " indent +:+ r))) r) as E.
        change (Py.slice_from 2 ("//" +:+ ?x)) with x in E. now rewrite E.
      * rewrite <- H. f_equal. f_equal. f_equal.
        pose proof (body_line_reindent k indent indent r) as E.
        change (Py.slice_from 2 ("//" +:+ ?x)) with x in E. now rewrite E.
    + destruct (Py.startswith l "//  ") eqn:Hlow; [discriminate|].
      inversion H; subst. rewrite Nat.sub_diag.
      cbn [firstn skipn map app body_loop].
      assert (Hrej : Py.startswith l
                       ("//" +:+ Py.mul " " (if first then indent else indent + k))
                     = false).
      { destruct first; [exact Hacc | now apply rejected_deeper]. }
      rewrite Hrej, Hlow. reflexivity.
Qed.

Lemma body_loop_normalized title rest :
  forall indent body n body' n',
  body_loop title rest false indent body n = inr (body', n') ->
  body' = body ++ map (normalize indent) (take (n' - n) rest).
Proof.
  induction rest as [|l rest IH]; intros indent body n body' n' H.
  - cbn [body_loop] in H. inversion H; subst. rewrite take_nil. simpl.
    now rewrite app_nil_r.
  - cbn [body_loop] in H.
    destruct (Py.startswith l ("//" +:+ Py.mul " " indent)) eqn:Hacc;
      cbn [negb] in H.
    + pose proof (body_loop_ge _ _ _ _ _ _ _ _ H) as Hge.
      replace (n' - n) with (S (n' - S n)) by lia.
      apply IH in H. rewrite H, firstn_cons, map_cons.
      rewrite <- app_assoc. reflexivity.
    + destruct (Py.startswith l "//  "); [discriminate|].
      inversion H; subst. rewrite Nat.sub_diag. simpl.
      now rewrite app_nil_r.
Qed.

(* ===================================================================== *)
(** ** The store of nodes *)
(* ===================================================================== *)

Lemma same_node_refl a : same_node a a.
Proof. reflexivity. Qed.

Lemma same_node_trans a b c : same_node a b -> same_node b c -> same_node a c.
Proof. unfold same_node. congruence. Qed.

Lemma same_node_add_child c a : same_node a (add_child c a).
Proof. reflexivity. Qed.

Lemma same_node_fields a b :
  same_node a b ->
  cls a = cls b /\ title a = title b /\ subtitle a = subtitle b
  /\ body a = body b /\ origin a = origin b /\ parent a = parent b
  /\ meta a = meta b.
Proof.
  unfold same_node, node_set_children. intros H. inversion H. tauto.
Qed.

Lemma is_item_named_same s a b :
  same_node a b -> is_item_named s a = is_item_named s b.
Proof.
  intros H. apply same_node_fields in H as (Hc & _ & Hs & _).
  unfold is_item_named. now rewrite Hc, Hs.
Qed.

Lemma item_count_app s h1 h2 :
  item_count s (h1 ++ h2) = item_count s h1 + item_count s h2.
Proof. unfold item_count. now rewrite filter_app, length_app. Qed.

Lemma item_count_alter s c h : forall p,
  item_count s (alter (add_child c) p h) = item_count s h.
Proof.
  unfold item_count.
  induction h as [|x h IH]; intros p; [reflexivity|].
  destruct p as [|p]; simpl.
  - rewrite !filter_cons.
    rewrite <- (is_item_named_same s x (add_child c x)) by apply same_node_add_child.
    destruct (decide (is_item_named s x = true)); reflexivity.
  - change (list_alter (add_child c) p h) with (alter (add_child c) p h).
    rewrite !filter_cons.
    destruct (decide (is_item_named s x = true)); simpl; now rewrite IH.
Qed.

Lemma item_count_attach s p c h :
  item_count s (attach p c h) = item_count s h.
Proof. destruct p; [apply item_count_alter | reflexivity]. Qed.

Lemma lookup_attach p c h i x :
  h !! i = Some x -> exists x', attach p c h !! i = Some x' /\ same_node x x'.
Proof.
  intros H. destruct p as [p|]; simpl; [|eauto using same_node_refl].
  destruct (decide (p = i)) as [->|Hne].
  - exists (add_child c x). split; [|apply same_node_add_child].
    rewrite list_lookup_alter_eq. now rewrite H.
  - exists x. split; [|apply same_node_refl].
    now rewrite list_lookup_alter_ne.
Qed.

Lemma length_attach p c h : length (attach p c h) = length h.
Proof. destruct p; [apply length_alter | reflexivity]. Qed.

Lemma grows_refl st : grows st st.
Proof. split; eauto using same_node_refl. Qed.

Lemma grows_trans a b c : grows a b -> grows b c -> grows a c.
Proof.
  intros [] []. split; try congruence; try lia.
  intros i x Hx. destruct (grows_nodes0 i x Hx) as (x1 & H1 & S1).
    destruct (grows_nodes1 i x1 H1) as (x2 & H2 & S2).
    eauto using same_node_trans.
Qed.

Lemma grows_new_block c t s b o p m hs st :
  c <> ItemBlock ->
  exists st', new_block c t s b o p m hs st = Return st' (length (heap st))
    /\ grows st st'
    /\ heap st' = attach p (length (heap st))
                    (heap st ++ [new_node c t s b o p m hs])
    /\ opts st' = opts st /\ file_blocks st' = file_blocks st
    /\ curr_file_block st' = curr_file_block st
    /\ curr_section st' = curr_section st
    /\ curr_parent st' = curr_parent st.
Proof.
  intros Hc. eexists. split; [reflexivity|]. destruct st; simpl.
  split; [|tauto]. split; simpl; try reflexivity.
  - rewrite length_attach, length_app. lia.
  - intros i x Hx. apply lookup_attach. now apply lookup_app_l_Some.
  - intros s0. rewrite item_count_attach, item_count_app.
    unfold item_count at 2. simpl. rewrite filter_cons.
    destruct (decide _) as [E|E]; [|simpl; lia].
    unfold is_item_named in E. simpl in E. destruct c; simpl in E; try discriminate.
    contradiction.
Qed.

(** Writing the other fields of the state keeps [grows]. *)
Lemma grows_same_core st st1 st2 :
  grows st st1 ->
  items_by_name st2 = items_by_name st1 -> errorlog st2 = errorlog st1 ->
  header_defs st2 = header_defs st1 -> strict st2 = strict st1 ->
  curr_item st2 = curr_item st1 -> heap st2 = heap st1 ->
  grows st st2.
Proof.
  intros [] E1 E2 E3 E4 E5 E6.
  split; rewrite ?E6; solve [congruence | assumption].
Qed.

(* ===================================================================== *)
(** ** One step of the scan, started at a header line *)
(* ===================================================================== *)

Lemma header_starts_with_slashes line x :
  header_match line = Some x -> Py.startswith line "//" = true.
Proof.
  unfold header_match, Re.match_. intros H.
  destruct (Re.run _header_pat line Re.no_groups (fun _ g => Some g)) eqn:E;
    [clear H | discriminate].
  destruct line as [|c1 [|c2 line]]; cbn in E; try discriminate.
  - destruct (Ascii.eqb c1 "/"); discriminate.
  - destruct (Ascii.eqb c1 "/") eqn:E1; [|discriminate].
    destruct (Ascii.eqb c2 "/") eqn:E2; [|discriminate].
    apply Ascii.eqb_eq in E1, E2. subst. apply prefix_iff. now exists line.
Qed.

Lemma close_item_no_item st : curr_item st = None -> close_item st = st.
Proof. unfold close_item. now intros ->. Qed.

Lemma skip_loop_no_item rest : forall n st,
  curr_item st = None -> fst (skip_loop rest n st) = st.
Proof.
  induction rest as [|l rest IH]; intros n st H; cbn [skip_loop].
  - now rewrite close_item_no_item.
  - rewrite H. cbn [is_some andb].
    destruct (is_some (header_match l)); [reflexivity | now apply IH].
Qed.

Lemma _skip_lines_no_item lines n st :
  curr_item st = None -> exists h, _skip_lines lines n st = Return st h.
Proof.
  intros H. unfold _skip_lines.
  pose proof (skip_loop_no_item (drop n lines) n st H) as E.
  destruct (skip_loop (drop n lines) n st) as [st' h]. simpl in E. subst.
  eauto.
Qed.

Lemma _skip_lines_at_header lines n line st :
  lines !! n = Some line -> is_some (header_match line) = true ->
  _skip_lines lines n st = Return st n.
Proof.
  intros Hl Hm. unfold _skip_lines.
  rewrite (drop_S _ _ _ Hl). cbn [skip_loop]. rewrite Hm.
  destruct (header_match line) as [x|] eqn:E; [|discriminate].
  rewrite (header_starts_with_slashes _ _ E).
  now rewrite andb_false_r.
Qed.

Lemma after_block_no_item lines k st :
  curr_item st = None -> exists k', after_block lines k st = Return st k'.
Proof.
  intros H. destruct (_skip_lines_no_item lines k st H) as [h E].
  exists h. unfold after_block, bind, when, modify, ret.
  destruct (_ || _); [rewrite (close_item_no_item _ H)|]; now rewrite E.
Qed.

Section Steps.

Variable env : Env.

(** At a header line whose body is well indented, [_parse_block] is the
    dispatch on the title under the [try]. *)
Lemma _parse_block_at_header lines n src st line title meta subtitle body k :
  lines !! n = Some line ->
  header_match line = Some (title, meta, subtitle) ->
  extract_body title lines (n + 1) = inr (body, k) ->
  _parse_block env lines n src st
  = try_log (dispatch env title meta subtitle body (mkOrigin src (n + 1)) ;;
             after_block lines k)
            (mkOrigin src (n + 1)) k st.
Proof.
  intros Hl Hm Hb. unfold _parse_block. unfold bind at 1.
  rewrite (_skip_lines_at_header _ _ _ _ Hl) by now rewrite Hm.
  pose proof (lookup_lt_Some _ _ _ Hl) as Hlt.
  destruct (length lines <=? n) eqn:E; [apply Nat.leb_le in E; lia|].
  now rewrite Hl, Hm, Hb.
Qed.

(** An under-indented body line: the exception of line 240 leaves
    [_parse_block], and nothing is logged. *)
Lemma _parse_block_under_indented lines n src st line title meta subtitle e :
  lines !! n = Some line ->
  header_match line = Some (title, meta, subtitle) ->
  extract_body title lines (n + 1) = inl e ->
  _parse_block env lines n src st = Raise st e.
Proof.
  intros Hl Hm Hb. unfold _parse_block. unfold bind at 1.
  rewrite (_skip_lines_at_header _ _ _ _ Hl) by now rewrite Hm.
  pose proof (lookup_lt_Some _ _ _ Hl) as Hlt.
  destruct (length lines <=? n) eqn:E; [apply Nat.leb_le in E; lia|].
  now rewrite Hl, Hm, Hb.
Qed.

End Steps.

Section Blocks.

Variable env : Env.

Lemma attach_fresh_pair (h : list Node) (a b : Node) :
  alter (add_child (length (h ++ [a]))) (length h) ((h ++ [a]) ++ [b])
  = h ++ [add_child (S (length h)) a; b].
Proof.
  rewrite length_app, <- app_assoc. simpl.
  rewrite alter_app_r_alt by lia. rewrite Nat.sub_diag, Nat.add_1_r.
  reflexivity.
Qed.

Lemma dispatch_section meta subtitle body origin st :
  strict st = false -> curr_file_block st = None ->
  exists st',
    dispatch env "Section" meta subtitle body origin st = Return st' tt
    /\ heap st' = heap st ++
         [ add_child (S (length (heap st)))
             (new_node FileBlock "LibFile" (file origin) [] origin None "" None);
           new_node SectionBlock "Section" subtitle body origin
             (Some (length (heap st))) "" None ]
    /\ curr_file_block st' = Some (length (heap st))
    /\ file_blocks st' = file_blocks st ++ [length (heap st)]
    /\ curr_section st' = Some (S (length (heap st)))
    /\ curr_parent st' = Some (S (length (heap st)))
    /\ curr_item st' = curr_item st
    /\ errorlog st' = errorlog st
    /\ items_by_name st' = items_by_name st.
Proof.
  intros Hs Hf. destruct st; simpl in *; subst.
  eexists. split; [reflexivity|]. simpl.
  rewrite attach_fresh_pair, length_app, Nat.add_1_r. simpl.
  repeat split; reflexivity.
Qed.

End Blocks.

Section Leaves.

Variable env : Env.

Lemma _mkfilenode_grows origin st :
  exists st', _mkfilenode origin st = Return st' tt
    /\ grows st st' /\ is_Some (curr_file_block st')
    /\ curr_section st' = curr_section st.
Proof.
  unfold _mkfilenode, bind, gets.
  destruct (curr_file_block st) as [f|] eqn:Hf.
  - exists st. split; [reflexivity|]. split; [apply grows_refl|].
    split; [eauto | reflexivity].
  - destruct (grows_new_block FileBlock "LibFile" (file origin) [] origin None
                "" None st) as (st1 & E & G & _ & _ & _ & _ & Hs & _);
      [discriminate|].
    rewrite E. eexists. split; [reflexivity|].
    split; [|split; [destruct st1; simpl; eauto | destruct st1; exact Hs]].
    apply (grows_same_core st st1); [exact G | destruct st1; reflexivity ..].
Qed.

Lemma guard_cases st :
  guard_passes st -> negb (is_some (curr_file_block st)) && strict st = false.
Proof.
  intros [-> | [f ->]]; [apply andb_false_r | reflexivity].
Qed.

Lemma dispatch_example_no_item meta subtitle body origin st :
  curr_item st = None -> guard_passes st ->
  dispatch env "Example" meta subtitle body origin st = Return st tt.
Proof.
  intros Hi Hg. apply guard_cases in Hg.
  unfold dispatch, bind, gets. cbn [String.eqb Ascii.eqb Bool.eqb in_list existsb orb].
  rewrite Hg, Hi. reflexivity.
Qed.

Lemma dispatch_topics_no_item title meta subtitle body origin st :
  title = "Topics" \/ title = "See Also" ->
  header_defs st !! title = None ->
  curr_item st = None -> guard_passes st ->
  dispatch env title meta subtitle body origin st = Return st tt.
Proof.
  intros Ht Hd Hi Hg. apply guard_cases in Hg.
  destruct Ht; subst title;
    unfold dispatch, bind, gets;
    cbn [String.eqb Ascii.eqb Bool.eqb in_list existsb orb];
    rewrite Hg, Hd, Hi; reflexivity.
Qed.

Lemma dispatch_figure meta subtitle body origin st :
  guard_passes st ->
  exists st' i nd,
    dispatch env "Figure" meta subtitle body origin st = Return st' tt
    /\ grows st st' /\ length (heap st) <= i /\ heap st' !! i = Some nd
    /\ is_block FigureBlock "Figure" subtitle body origin (curr_parent st) nd.
Proof.
  intros Hg. apply guard_cases in Hg.
  unfold dispatch. unfold bind at 1. unfold gets at 1.
  cbn [String.eqb Ascii.eqb Bool.eqb in_list existsb orb].
  unfold bind at 1. unfold gets at 1. unfold bind at 1. unfold gets at 1.
  rewrite Hg.
  destruct (_mkfilenode_grows origin st) as (st1 & E1 & G1 & _).
  unfold bind at 1. rewrite E1.
  destruct (grows_new_block FigureBlock "Figure" subtitle body origin
              (curr_parent st) meta None st1) as (st2 & E2 & G2 & Hh & _);
    [discriminate|].
  unfold bind at 1. rewrite E2. unfold ret.
  destruct (lookup_attach (curr_parent st) (length (heap st1))
              (heap st1 ++ [new_node FigureBlock "Figure" subtitle body origin
                              (curr_parent st) meta None])
              (length (heap st1))
              (new_node FigureBlock "Figure" subtitle body origin
                 (curr_parent st) meta None)) as (nd & Hnd & Hsame).
  { rewrite lookup_app_r by lia. now rewrite Nat.sub_diag. }
  exists st2, (length (heap st1)), nd.
  split; [reflexivity|]. split; [eauto using grows_trans|].
  split; [apply G1|]. split; [now rewrite Hh|].
  apply same_node_fields in Hsame as (? & ? & ? & ? & ? & ? & ?).
  unfold is_block. simpl in *. repeat split; congruence.
Qed.

End Leaves.

(* ===================================================================== *)
(** ** Declarations of Items *)
(* ===================================================================== *)

Lemma bind_Return {A B} (m : M A) (f : A -> M B) st st' a :
  m st = Return st' a -> bind m f st = f a st'.
Proof. unfold bind. now intros ->. Qed.


Lemma bind_gets {A B} (g : State -> A) (f : A -> M B) st :
  bind (gets g) f st = f (g st) st.
Proof. reflexivity. Qed.

Lemma bind_modify {B} (g : State -> State) (f : unit -> M B) st :
  bind (modify g) f st = f tt (g st).
Proof. reflexivity. Qed.

Lemma same_content_refl st : same_content st st.
Proof. now split. Qed.

Lemma same_content_trans a b c :
  same_content a b -> same_content b c -> same_content a c.
Proof. intros [] []. split; congruence. Qed.

Lemma close_item_same st : same_content st (close_item st).
Proof.
  unfold close_item. destruct (curr_item st); [|apply same_content_refl].
  destruct st; now split.
Qed.

Lemma skip_loop_same rest : forall n st,
  same_content st (fst (skip_loop rest n st)).
Proof.
  induction rest as [|l rest IH]; intros n st; cbn [skip_loop].
  - apply close_item_same.
  - set (st1 := if is_some (curr_item st) && negb (Py.startswith l "//")
                then close_item st else st).
    assert (H1 : same_content st st1).
    { subst st1. destruct (_ && _);
        [apply close_item_same | apply same_content_refl]. }
    destruct (is_some (header_match l)); [exact H1|].
    eapply same_content_trans; [exact H1 | apply IH].
Qed.

Lemma after_block_same lines k st :
  exists st' k', after_block lines k st = Return st' k' /\ same_content st st'.
Proof.
  unfold after_block, bind, when, modify, ret, _skip_lines.
  destruct (_ || _).
  - pose proof (skip_loop_same (drop k lines) k (close_item st)) as H.
    destruct (skip_loop (drop k lines) k (close_item st)) as [st' k'].
    exists st', k'. split; [reflexivity|].
    eapply same_content_trans; [apply close_item_same | exact H].
  - pose proof (skip_loop_same (drop k lines) k st) as H.
    destruct (skip_loop (drop k lines) k st) as [st' k'].
    exists st', k'. split; [reflexivity | exact H].
Qed.

Section Items.

Variable env : Env.






End Items.

(* ===================================================================== *)
(** ** Sections, leaves and declarations: the claims *)
(* ===================================================================== *)

(** C9, the claim as stated, fails in strict mode: the Section header of a
    unit without a File node is answered by a FAIL entry, and neither a
    File node nor a Section node is made. *)
Lemma strict_orphan_section_is_an_error :
  curr_file_block (fresh true) = None
  /\ header_match "// Section: Shapes" = Some ("Section", "", "Shapes")
  /\ exists st',
       _parse_block env0 orphan_section_lines 0 "shapes.scad" (fresh true)
       = Return st' 2
       /\ heap st' = heap (fresh true)
       /\ curr_file_block st' = None
       /\ curr_parent st' = None
       /\ errorlog st'
          = errorlog (fresh true)
            ++ [mkEntry "shapes.scad" 1
                  (DocsGenException "Section"
                     "Must declare File or LibFile block before declaring block:")
                  FAIL].
Proof.
  split; [vm_compute; reflexivity|]. split; [vm_compute; reflexivity|].
  eexists. split; [vm_compute; reflexivity|].
  repeat split; vm_compute; reflexivity.
Qed.

(** C3, the claim as stated, fails for Figure: with no Item open, the
    Figure header of [figure_lines] adds a Figure node to the store, as a
    child of the File node. *)
Lemma figure_without_item_builds_a_node :
  curr_item after_libfile = None
  /\ header_match "// Figure: A cube" = Some ("Figure", "", "A cube")
  /\ length (heap after_libfile) = 1
  /\ exists st',
       _parse_block env0 figure_lines 1 "shapes.scad" after_libfile
       = Return st' 3
       /\ heap st' !! 1
          = Some (new_node FigureBlock "Figure" "A cube" ["cube(10);"]
                    (mkOrigin "shapes.scad" 2) (Some 0) "" None)
       /\ (children <$> heap st' !! 0) = Some [1]
       /\ errorlog st' = [].
Proof.
  split; [vm_compute; reflexivity|]. split; [vm_compute; reflexivity|].
  split; [vm_compute; reflexivity|].
  eexists. split; [vm_compute; reflexivity|].
  repeat split; vm_compute; reflexivity.
Qed.


(* ===================================================================== *)
(** ** Termination, body extraction, and two defects: the claims *)
(* ===================================================================== *)



Lemma body_loop_first_normalized title l rest body n stop :
  body_loop title (l :: rest) true 2 [] n = inr (body, stop) ->
  body = map (normalize (indent_width l)) (take (stop - n) (l :: rest)).
Proof.
  intros H. cbn [body_loop] in H.
  destruct (Py.startswith l ("//" +:+ Py.mul " " 2)) eqn:Hacc;
    cbn [negb] in H.
  - pose proof (body_loop_ge _ _ _ _ _ _ _ _ H) as Hge.
    replace (stop - n) with (S (stop - S n)) by lia.
    apply body_loop_normalized in H. rewrite H, firstn_cons, map_cons.
    reflexivity.
  - destruct (Py.startswith l "//  "); [discriminate|].
    inversion H; subst. now rewrite Nat.sub_diag.
Qed.

Lemma drop_reindent_block k start stop lines :
  start <= stop ->
  drop start (reindent_block k start stop lines)
  = map (reindent k) (take (stop - start) (drop start lines))
    ++ drop (stop - start) (drop start lines).
Proof.
  intros Hle. unfold reindent_block.
  rewrite drop_drop. replace (start + (stop - start)) with stop by lia.
  destruct (decide (start <= length lines)) as [Hin|Hout].
  - rewrite drop_app_length'; [reflexivity|]. rewrite length_take. lia.
  - rewrite (drop_ge lines start) by lia.
    rewrite (drop_ge lines stop) by lia.
    rewrite take_nil. simpl. rewrite app_nil_r. apply drop_ge.
    rewrite length_take. lia.
Qed.

(** C8 (as amended).  When the body of a block is extracted from the
    lines [start] to [stop-1], no line of it being under-indented,
    re-indenting exactly those lines by [k] more blanks after the "//"
    gives the same body, ending at the same line; the body is made of
    those lines with the "//" and the indent of the first of them taken
    off the left and the whitespace taken off the right. *)
Theorem body_extraction_reindent_invariant title lines start k body stop :
  extract_body title lines start = inr (body, stop) ->
  extract_body title (reindent_block k start stop lines) start
  = inr (body, stop)
  /\ body = match take (stop - start) (drop start lines) with
            | [] => []
            | (first :: _) as block => map (normalize (indent_width first)) block
            end.
Proof.
  unfold extract_body. intros H.
  pose proof (body_loop_ge _ _ _ _ _ _ _ _ H) as Hge.
  split.
  - rewrite drop_reindent_block by exact Hge.
    exact (body_loop_reindent title k _ true 2 [] start body stop H).
  - destruct (drop start lines) as [|l rest] eqn:E.
    + cbn [body_loop] in H. inversion H; subst. now rewrite take_nil.
    + pose proof (body_loop_first_normalized _ _ _ _ _ _ H) as Hb.
      destruct (stop - start) as [|j] eqn:Ej; [exact Hb|].
      rewrite firstn_cons in *. exact Hb.
Qed.

Lemma body_extraction_reindent_witness :
  extract_body "Example" (reindent_block 3 1 3 indented_lines) 1
  = inr (["cube(10);"; "  sphere(5);"], 3)
  /\ ["cube(10);"; "  sphere(5);"]
     = match take (3 - 1) (drop 1 indented_lines) with
       | [] => []
       | (first :: _) as block => map (normalize (indent_width first)) block
       end.
Proof.
  apply (body_extraction_reindent_invariant "Example" indented_lines 1 3
           ["cube(10);"; "  sphere(5);"] 3).
  vm_compute. reflexivity.
Defined.

(** Re-indentation by blanks is re-indentation by a text of blanks. *)
Lemma reindent_by_blanks k start stop lines :
  reindent_block_by (Py.mul " " k) start stop lines
  = reindent_block k start stop lines.
Proof. reflexivity. Qed.

(** C8, the claim as stated, fails for whitespace other than blanks.  A
    tab put in right after the "//" of the two body lines of
    [indented_lines] ends the body before its first line: the body is
    empty.  Two blanks and a tab put in there make the indent of the
    first body line one that the second, though re-indented alike, does
    not match: the extraction raises. *)
Lemma tab_reindentation_changes_the_body :
  all_chars Py.isspace tab = true
  /\ extract_body "Example" indented_lines 1
     = inr (["cube(10);"; "  sphere(5);"], 3)
  /\ extract_body "Example" (reindent_block_by tab 1 3 indented_lines) 1
     = inr ([], 1)
  /\ extract_body "Example"
       (reindent_block_by ("  " +:+ tab) 1 3 indented_lines) 1
     = inl (DocsGenException "Example"
              "Body line has less indentation than first line, while declaring block:").
Proof. repeat split; vm_compute; reflexivity. Qed.

(** C1: what the code does at the failing input.  The third line of
    [under_indented_lines] starts with "//" and two blanks but is indented
    less than the first body line: the exception of line 240 leaves
    [parse_lines], the state is the one before the call (nothing logged,
    no node built), and the Function header that follows is never
    scanned. *)
Theorem under_indented_body_escapes :
  extract_body "Section" under_indented_lines 1
  = inl (DocsGenException "Section"
           "Body line has less indentation than first line, while declaring block:")
  /\ parse_lines env0 under_indented_lines 0 "shapes.scad" (fresh false)
     = Raise (fresh false)
         (DocsGenException "Section"
            "Body line has less indentation than first line, while declaring block:")
  /\ errorlog (fresh false) = []
  /\ heap (fresh false) = []
  /\ items_by_name (fresh false) !! "bar()" = None.
Proof. repeat split; vm_compute; reflexivity. Qed.

(** The loop of [_alias_block_cb]: each name of the list is bound to the
    Item, whatever it was bound to; the other names keep their binding. *)
Lemma alias_loop_binds (i : nat) names : forall st,
  exists st',
    for_each names
      (fun alias =>
         modify (fun st => set_items_by_name
                             (<[alias := i]> (items_by_name st)) st)) st
    = Return st' tt
    /\ errorlog st' = errorlog st
    /\ forall b, items_by_name st' !! b
                 = if decide (b ∈ names) then Some i
                   else items_by_name st !! b.
Proof.
  induction names as [|a names IH]; intros st.
  - exists st. split; [reflexivity|]. split; [reflexivity|].
    intros b. destruct (decide (b ∈ [])) as [Hin|_]; [|reflexivity].
    now apply elem_of_nil in Hin.
  - cbn [for_each]. rewrite bind_modify.
    destruct (IH (set_items_by_name (<[a:=i]> (items_by_name st)) st))
      as (st' & E & Hlog & Hall).
    exists st'. split; [exact E|].
    split; [rewrite Hlog; destruct st; reflexivity|].
    intros b. rewrite Hall.
    destruct (decide (b ∈ names)) as [Hin|Hout].
    + destruct (decide (b ∈ a :: names)) as [_|Hn]; [reflexivity|].
      exfalso. apply Hn. now apply list_elem_of_further.
    + replace (items_by_name (set_items_by_name (<[a:=i]> (items_by_name st)) st))
        with (<[a:=i]> (items_by_name st)) by (destruct st; reflexivity).
      destruct (decide (a = b)) as [->|Hne].
      * rewrite lookup_insert_eq.
        destruct (decide (b ∈ b :: names)) as [_|Hn]; [reflexivity|].
        exfalso. apply Hn, list_elem_of_here.
      * rewrite lookup_insert_ne by exact Hne.
        destruct (decide (b ∈ a :: names)) as [Hin|_]; [|reflexivity].
        apply elem_of_cons in Hin as [-> | Hin]; contradiction.
Qed.

(** Whatever the index held before, after the callback of an Alias block
    each of the names it lists belongs to the current Item; nothing is
    raised and nothing is logged. *)
Lemma _alias_block_cb_rebinds subtitle st i :
  curr_item st = Some i ->
  exists st',
    _alias_block_cb subtitle st = Return st' tt
    /\ errorlog st' = errorlog st
    /\ forall a, a ∈ map Py.strip (Py.split "," subtitle) ->
                 items_by_name st' !! a = Some i.
Proof.
  intros Hi. unfold _alias_block_cb. rewrite bind_gets, Hi.
  unfold upd_node. rewrite bind_modify.
  destruct (alias_loop_binds i (map Py.strip (Py.split "," subtitle))
              (set_heap
                 (alter (fun n => node_set_aliases
                                    (aliases n
                                     ++ map Py.strip (Py.split "," subtitle)) n)
                    i (heap st)) st))
    as (st' & E & Hlog & Hall).
  exists st'. split; [exact E|].
  split; [rewrite Hlog; destruct st; reflexivity|].
  intros a Ha. rewrite Hall. now destruct (decide _).
Qed.

(** C4: what the code does at the failing input.  After the first block of
    [alias_lines] the name foo() belongs to the Item of line 1 (node 2);
    the Alias block of bar() then re-points foo() to the Item of bar()
    (node 3) and nothing is logged. *)
Theorem alias_takes_over_registered_name :
  items_by_name
    (state_of (_parse_block env0 alias_lines 0 "foo.scad" (fresh false)))
    !! "foo()" = Some 2
  /\ exists st,
       parse_lines env0 alias_lines 0 "foo.scad" (fresh false) = Return st tt
       /\ items_by_name st !! "foo()" = Some 3
       /\ items_by_name st !! "bar()" = Some 3
       /\ (subtitle <$> heap st !! 2) = Some "foo()"
       /\ (subtitle <$> heap st !! 3) = Some "bar()"
       /\ (aliases <$> heap st !! 3) = Some ["foo()"]
       /\ errorlog st = [].
Proof.
  split; [vm_compute; reflexivity|].
  eexists. split; [vm_compute; reflexivity|].
  repeat split; vm_compute; reflexivity.
Qed.

(* ===================================================================== *)
(** ** The sorted enumeration of the index *)
(* ===================================================================== *)

Lemma le_total a b : Py.le a b = true \/ Py.le b a = true.
Proof. apply String.leb_total. Qed.

Lemma le_trans a b c : Py.le a b = true -> Py.le b c = true -> Py.le a c = true.
Proof.
  unfold Py.le. intros H1 H2. apply Is_true_true.
  apply Is_true_true in H1, H2.
  exact (@transitivity _ String.le _ a b c H1 H2).
Qed.

Lemma insert_sorted_perm x l : Permutation (Py.insert_sorted x l) (x :: l).
Proof.
  induction l as [|y l IH]; simpl; [reflexivity|].
  destruct (Py.le x y); [reflexivity|].
  rewrite IH. apply perm_swap.
Qed.

Lemma sorted_perm l : Permutation (Py.sorted l) l.
Proof.
  induction l as [|x l IH]; simpl; [reflexivity|].
  now rewrite insert_sorted_perm, IH.
Qed.

Lemma insert_sorted_sorted x l :
  StronglySorted code_point_le l ->
  StronglySorted code_point_le (Py.insert_sorted x l).
Proof.
  induction 1 as [|y l Hs IH Hall]; simpl.
  - repeat constructor.
  - destruct (Py.le x y) eqn:E.
    + constructor; [now constructor|]. constructor; [exact E|].
      eapply Forall_impl; [exact Hall|]. intros z Hz.
      exact (le_trans _ _ _ E Hz).
    + constructor; [exact IH|].
      assert (Hyx : code_point_le y x).
      { destruct (le_total x y) as [H|H]; [congruence | exact H]. }
      rewrite insert_sorted_perm. now constructor.
Qed.

Lemma sorted_sorted l : StronglySorted code_point_le (Py.sorted l).
Proof.
  induction l as [|x l IH]; simpl; [constructor|].
  now apply insert_sorted_sorted.
Qed.

(** What [get_indexed_names] does yield: every name of the index (primary
    names and aliases alike), each once, in the order of [str], ascending
    by code point, so that every capital letter comes before every small
    one. *)
Lemma indexed_names_by_code_point st :
  (forall name, name ∈ get_indexed_names st
                <-> is_Some (items_by_name st !! name))
  /\ NoDup (get_indexed_names st)
  /\ StronglySorted code_point_le (get_indexed_names st).
Proof.
  unfold get_indexed_names. split; [|split].
  - intros name. rewrite sorted_perm.
    rewrite list_elem_of_fmap. split.
    + intros ([k v] & -> & Hin). apply elem_of_map_to_list in Hin. eauto.
    + intros [v Hv]. exists (name, v). split; [reflexivity|].
      now apply elem_of_map_to_list.
  - rewrite sorted_perm. apply NoDup_fst_map_to_list.
  - apply sorted_sorted.
Qed.

(** C5: what the code does at the failing input.  With the names apple()
    and Banana() in the index, [get_indexed_names] yields Banana() first:
    the names come in the order of their code points, which is not their
    alphabetical order when case is ignored. *)
Theorem indexed_names_are_case_sensitive :
  get_indexed_names mixed_case_state = ["Banana()"; "apple()"]
  /\ ~ Sorted case_insensitive_le (get_indexed_names mixed_case_state)
  /\ Sorted case_insensitive_le ["apple()"; "Banana()"].
Proof.
  assert (E : get_indexed_names mixed_case_state = ["Banana()"; "apple()"])
    by (vm_compute; reflexivity).
  split; [exact E|]. split.
  - rewrite E. intros H.
    inversion H as [|? ? _ Hd]; subst. inversion Hd as [|? ? Hle]; subst.
    vm_compute in Hle. discriminate.
  - repeat constructor.
Qed.

(* ===================================================================== *)
(** ** The DefineHeader directive *)
(* ===================================================================== *)

Lemma split1_go_contains s : forall cur,
  Py.contains "=" s = true ->
  exists key val, Py.split1_go "=" cur s = [key; val].
Proof.
  induction s as [|c s IH]; intros cur H.
  - discriminate.
  - cbn [Py.contains] in H. cbn [Py.split1_go].
    destruct (String.prefix "=" (String c s)) eqn:E.
    + eauto.
    + simpl in H. apply IH, H.
Qed.










(* ===================================================================== *)
(** ** The matcher against the meaning of the regular expressions *)
(* ===================================================================== *)

Lemma star_sound {R} p s (k : string -> option R) v :
  Re.star p s k = Some v ->
  exists u s', s = u +:+ s' /\ all_chars p u = true /\ k s' = Some v.
Proof.
  induction s as [|c s IH]; cbn [Re.star]; intros H.
  - exists "", "". auto.
  - destruct (p c) eqn:Hc.
    + destruct (Re.star p s k) as [r|] eqn:E.
      * inversion H; subst. destruct (IH eq_refl) as (u & s' & -> & Hu & Hk).
        exists (String c u), s'. simpl. now rewrite Hc, Hu.
      * exists "", (String c s). auto.
    + exists "", (String c s). auto.
Qed.

Lemma star_complete {R} p u s' (k : string -> option R) :
  all_chars p u = true -> is_Some (k s') -> is_Some (Re.star p (u +:+ s') k).
Proof.
  induction u as [|c u IH]; simpl; intros Hu Hk.
  - destruct s' as [|c s]; cbn [Re.star]; [exact Hk|].
    destruct (p c); [|exact Hk].
    destruct (Re.star p s k); [eauto | exact Hk].
  - apply andb_true_iff in Hu as [Hc Hu]. rewrite Hc.
    destruct (IH Hu Hk) as [v ->]. eauto.
Qed.

Lemma run_sound {R} r : forall s g (k : string -> Re.groups -> option R) v,
  Re.run r s g k = Some v ->
  exists s' g', matches r s g s' g' /\ k s' g' = Some v.
Proof.
  induction r as [c|p|p|r1 IH1 r2 IH2|r IH|n r IH|]; intros s g k v H;
    cbn [Re.run] in H.
  - destruct s as [|c' s']; [discriminate|].
    destruct (Ascii.eqb c' c) eqn:E; [|discriminate].
    apply Ascii.eqb_eq in E as ->. eauto using matches.
  - destruct s as [|c' s']; [discriminate|].
    destruct (p c') eqn:E; [|discriminate]. eauto using matches.
  - apply star_sound in H as (u & s' & -> & Hu & Hk). eauto using matches.
  - apply IH1 in H as (s1 & g1 & M1 & H). apply IH2 in H as (s2 & g2 & M2 & H).
    eauto using matches.
  - destruct (Re.run r s g k) as [v'|] eqn:E.
    + inversion H; subst. apply IH in E as (s' & g' & M & Hk).
      eauto using matches.
    + eauto using matches.
  - apply IH in H as (s' & g' & M & Hk). eauto using matches.
  - destruct s as [|c [|]]; try discriminate.
    + exists "", g. split; [constructor; now left | exact H].
    + destruct (Ascii.eqb c "010") eqn:E; [|discriminate].
      apply Ascii.eqb_eq in E as ->.
      exists newline, g. split; [constructor; now right | exact H].
Qed.

Lemma run_complete {R} r s g s' g' :
  matches r s g s' g' ->
  forall k : string -> Re.groups -> option R,
    is_Some (k s' g') -> is_Some (Re.run r s g k).
Proof.
  induction 1 as [c s g|p c s g Hc|p u s g Hu|r1 r2 s g s1 g1 s2 g2 _ IH1 _ IH2
                 |r s g s' g' _ IH|r s g|n r s g s' g' _ IH|s g He];
    intros k Hk; cbn [Re.run].
  - now rewrite Ascii.eqb_refl.
  - now rewrite Hc.
  - now apply star_complete.
  - apply IH1, IH2, Hk.
  - destruct (IH k Hk) as [v ->]. eauto.
  - destruct (Re.run r s g k); [eauto | exact Hk].
  - apply IH, Hk.
  - destruct He as [-> | ->]; exact Hk.
Qed.

(** What is left after a match is a suffix of the input. *)
Lemma matches_suffix r s g s' g' :
  matches r s g s' g' -> exists u, s = u +:+ s'.
Proof.
  induction 1 as [c s g|p c s g Hc|p u s g Hu|r1 r2 s g s1 g1 s2 g2 _ IH1 _ IH2
                 |r s g s' g' _ IH|r s g|n r s g s' g' _ IH|s g He].
  - now exists (String c "").
  - now exists (String c "").
  - now exists u.
  - destruct IH1 as [u1 ->], IH2 as [u2 ->]. exists (u1 +:+ u2).
    now rewrite append_assoc.
  - exact IH.
  - now exists "".
  - exact IH.
  - now exists "".
Qed.

Lemma substring_prefix u s : String.substring 0 (String.length u) (u +:+ s) = u.
Proof.
  induction u as [|c u IH]; simpl; [now destruct s | now rewrite IH].
Qed.

Lemma consumed_append u s : Re.consumed (u +:+ s) s = u.
Proof.
  unfold Re.consumed. rewrite length_append.
  replace (String.length u + String.length s - String.length s)
    with (String.length u) by lia.
  apply substring_prefix.
Qed.

(* ===================================================================== *)
(** ** The header pattern against the header grammar *)
(* ===================================================================== *)

Ltac inv_matches :=
  repeat match goal with
  | H : matches (Re.Seq _ _) _ _ _ _ |- _ => inversion H; subst; clear H
  | H : matches (Re.Lit _) _ _ _ _ |- _ => inversion H; subst; clear H
  | H : matches (Re.Cls _) _ _ _ _ |- _ => inversion H; subst; clear H
  | H : matches (Re.Star _) _ _ _ _ |- _ => inversion H; subst; clear H
  | H : matches (Re.Grp _ _) _ _ _ _ |- _ => inversion H; subst; clear H
  | H : matches Re.Eol _ _ _ _ |- _ => inversion H; subst; clear H
  | H : matches (Re.Opt _) _ _ _ _ |- _ => inversion H; subst; clear H
  end.

Lemma all_chars_app p u v :
  all_chars p (u +:+ v) = all_chars p u && all_chars p v.
Proof.
  induction u as [|c u IH]; simpl; [reflexivity|].
  now rewrite IH, andb_assoc.
Qed.

Lemma upper_is_word c : cls_upper c = true -> cls_word c = true.
Proof. unfold cls_upper, cls_word. intros ->. reflexivity. Qed.

Lemma _header_pat_parts :
  _header_pat
  = Re.Seq (Re.Lit "/") (Re.Seq (Re.Lit "/") (Re.Seq (Re.Lit " ")
      (Re.Seq (Re.Grp 1 re_title)
         (Re.Seq re_meta (Re.Seq (Re.Lit ":") (Re.Seq re_subtitle Re.Eol)))))).
Proof. reflexivity. Qed.

Lemma title_inv s g s' g' :
  matches re_title s g s' g' ->
  exists t, s = t +:+ s' /\ header_title t
            /\ forall i, i <> 2 -> g' i = g i.
Proof.
  unfold re_title. intros H. inv_matches.
  - (* two words, a blank between them *)
    exists (String c u +:+ " " +:+ String c0 u0). split; [|split].
    + simpl. now rewrite !append_assoc.
    + right. exists (String c u), (String c0 u0).
      split; [reflexivity|]. split; red; eauto.
    + intros i Hi. unfold Re.set_group.
      destruct (Nat.eqb_spec i 2); [contradiction | reflexivity].
  - (* two words run together: one word *)
    exists (String c (u +:+ String c0 u0)). split; [|split].
    + simpl. now rewrite !append_assoc.
    + left. exists c, (u +:+ String c0 u0). split; [reflexivity|].
      split; [assumption|]. rewrite all_chars_app. simpl.
      rewrite upper_is_word by assumption.
      repeat match goal with
             | H : all_chars _ _ = true |- _ => rewrite H; clear H
             end.
      reflexivity.
    + intros i Hi. unfold Re.set_group.
      destruct (Nat.eqb_spec i 2); [contradiction | reflexivity].
  - (* one word *)
    exists (String c u). split; [reflexivity|]. split; [|reflexivity].
    left. red. eauto.
Qed.

Lemma title_matches t s g :
  header_title t -> exists g', matches re_title (t +:+ s) g s g'.
Proof.
  unfold re_title. intros [(c & w & -> & Hc & Hw)
                          | (w1 & w2 & -> & (c1 & u1 & -> & Hc1 & Hu1)
                                          & (c2 & u2 & -> & Hc2 & Hu2))].
  - exists g. simpl. econstructor; [now constructor|].
    econstructor; [now constructor | apply M_Opt_none].
  - eexists. simpl. rewrite !append_assoc. simpl.
    econstructor; [now constructor|].
    econstructor; [now constructor|].
    apply M_Opt_some. apply M_Grp.
    econstructor; [apply M_Opt_some; constructor|].
    econstructor; [now constructor | now constructor].
Qed.

Lemma slice_parens m : slice_1_m1 ("(" +:+ m +:+ ")") = m.
Proof.
  unfold slice_1_m1. simpl. rewrite length_append. simpl.
  replace (String.length m + 1 - 1) with (String.length m) by lia.
  apply substring_prefix.
Qed.

Lemma consumed_parens u r :
  Re.consumed (String "(" (u +:+ String ")" r)) r = "(" +:+ u +:+ ")".
Proof.
  replace (String "(" (u +:+ String ")" r)) with (("(" +:+ u +:+ ")") +:+ r)
    by (simpl; now rewrite append_assoc).
  apply consumed_append.
Qed.

Lemma consumed_blank u r : Re.consumed (String " " (u +:+ r)) r = " " +:+ u.
Proof. apply (consumed_append (" " +:+ u) r). Qed.

(** A match of the pattern is a line of the grammar, and the groups hold
    its title, its metadata between parentheses, and its subtitle after a
    blank. *)
Lemma pattern_inv line s' g :
  matches _header_pat line Re.no_groups s' g ->
  let '(t, m, s) := triple_of g in header_line line t m s.
Proof.
  rewrite _header_pat_parts. intros H.
  inversion H as [| | |? ? ? ? s1 g1 ? ? M1 H1| | | |]; subst; clear H.
  inversion H1 as [| | |? ? ? ? s2 g2 ? ? M2 H2| | | |]; subst; clear H1.
  inversion H2 as [| | |? ? ? ? s3 g3 ? ? M3 H3| | | |]; subst; clear H2.
  inversion H3 as [| | |? ? ? ? s4 g4 ? ? M4 H4| | | |]; subst; clear H3.
  inversion H4 as [| | |? ? ? ? s5 g5 ? ? M5 H5| | | |]; subst; clear H4.
  inversion H5 as [| | |? ? ? ? s6 g6 ? ? M6 H6| | | |]; subst; clear H5.
  inversion H6 as [| | |? ? ? ? s7 g7 ? ? M7 H7| | | |]; subst; clear H6.
  inversion M1; subst; clear M1. inversion M2; subst; clear M2.
  inversion M3; subst; clear M3. inversion M6; subst; clear M6.
  inversion H7 as [| | | | | | |? ? He]; subst; clear H7.
  inversion M4 as [| | | | | |? ? ? ? ? gt Mt|]; subst; clear M4.
  apply title_inv in Mt as (t & -> & Ht & Hg).
  rewrite consumed_append in *.
  unfold re_meta, re_subtitle in *.
  inversion M5 as [| | | |? ? ? ? ? Mm| | |]; subst; clear M5;
    [inversion Mm as [| | | | | |? ? ? ? ? gm Mm'|]; subst; clear Mm|];
    (inversion M7 as [| | | |? ? ? ? ? Ms| | |]; subst; clear M7;
     [inversion Ms as [| | | | | |? ? ? ? ? gs Ms'|]; subst; clear Ms|]);
    inv_matches; unfold triple_of;
    rewrite ?consumed_parens, ?consumed_blank; unfold Re.set_group;
    cbn [Nat.eqb default]; rewrite ?Hg by lia; cbn [Re.no_groups];
    rewrite ?slice_parens.
  - (* metadata and subtitle *)
    exists ("(" +:+ u +:+ ")"), (" " +:+ u0), s'.
    split; [simpl; now rewrite ?append_assoc|].
    split; [exact Ht|]. split; [right; auto|]. split; [exact He|].
    right. eauto.
  - (* metadata, no subtitle *)
    exists ("(" +:+ u +:+ ")"), "", s'.
    split; [simpl; now rewrite ?append_assoc|].
    split; [exact Ht|]. split; [right; auto|]. split; [exact He|].
    left. auto.
  - (* subtitle, no metadata *)
    exists "", (" " +:+ u), s'.
    split; [reflexivity|].
    split; [exact Ht|]. split; [left; auto|]. split; [exact He|].
    right. eauto.
  - (* neither *)
    exists "", "", s'.
    split; [reflexivity|].
    split; [exact Ht|]. split; [left; auto|]. split; [exact He|].
    left. auto.
Qed.

(** A run of characters of a class is determined by the string it starts
    and by where it has to stop. *)
Lemma span_unique q u : forall u' r r',
  all_chars q u = true -> all_chars q u' = true ->
  stops q r -> stops q r' ->
  u +:+ r = u' +:+ r' -> u = u' /\ r = r'.
Proof.
  induction u as [|c u IH]; intros [|c' u'] r r' Hu Hu' Hr Hr' E;
    simpl in *.
  - auto.
  - subst r. simpl in Hr. apply andb_true_iff in Hu' as [Hc _]. congruence.
  - subst r'. simpl in Hr'. apply andb_true_iff in Hu as [Hc _]. congruence.
  - inversion E; subst. apply andb_true_iff in Hu as [_ Hu].
    apply andb_true_iff in Hu' as [_ Hu'].
    destruct (IH u' r r' Hu Hu' Hr Hr' H1) as [-> ->]. auto.
Qed.

Lemma word_chars_title p w :
  (forall c, p c = true -> title_char c = true) ->
  all_chars p w = true -> all_chars title_char w = true.
Proof.
  intros Hp. induction w as [|c w IH]; simpl; [reflexivity|].
  intros H. apply andb_true_iff in H as [Hc Hw].
  now rewrite (Hp c Hc), IH.
Qed.

Lemma capitalized_word_chars w :
  capitalized_word w -> all_chars title_char w = true.
Proof.
  intros (c & w' & -> & Hc & Hw). simpl.
  unfold title_char at 1. rewrite (upper_is_word c Hc). simpl.
  apply (word_chars_title cls_word); [|exact Hw].
  intros c' H. unfold title_char. now rewrite H.
Qed.

Lemma header_title_chars t : header_title t -> all_chars title_char t = true.
Proof.
  intros [Hw | (w1 & w2 & -> & H1 & H2)].
  - now apply capitalized_word_chars.
  - rewrite !all_chars_app, (capitalized_word_chars _ H1),
      (capitalized_word_chars _ H2). reflexivity.
Qed.

(** After the title comes a parenthesis or the colon. *)
Lemma meta_stops_title mp m rest :
  header_meta mp m -> stops title_char (mp +:+ ":" +:+ rest).
Proof. intros [[-> _] | [-> _]]; reflexivity. Qed.

Lemma line_end_stops e : line_end e -> stops cls_dot e.
Proof. intros [-> | ->]; reflexivity. Qed.

Lemma header_meta_unique mp m r mp' m' r' :
  header_meta mp m -> header_meta mp' m' ->
  mp +:+ ":" +:+ r = mp' +:+ ":" +:+ r' -> m = m' /\ r = r'.
Proof.
  intros [[-> ->] | [-> Hm]] [[-> ->] | [-> Hm']] E; simpl in E.
  - inversion E. auto.
  - discriminate.
  - discriminate.
  - inversion E as [E']. rewrite !append_assoc in E'.
    destruct (span_unique cls_not_rparen m m' (")" +:+ String ":" r)
                (")" +:+ String ":" r') Hm Hm' eq_refl eq_refl E')
      as [-> E2].
    inversion E2. auto.
Qed.

Lemma subtitle_unique sp e s sp' e' s' :
  line_end e -> line_end e' ->
  (sp = "" /\ s = ""
   \/ exists u, sp = " " +:+ u /\ all_chars cls_dot u = true /\ s = Py.strip sp) ->
  (sp' = "" /\ s' = ""
   \/ exists u, sp' = " " +:+ u /\ all_chars cls_dot u = true
                /\ s' = Py.strip sp') ->
  sp +:+ e = sp' +:+ e' -> s = s'.
Proof.
  intros He He' [[-> ->] | (u & -> & Hu & ->)] [[-> ->] | (u' & -> & Hu' & ->)] E;
    simpl in E.
  - reflexivity.
  - subst e. destruct He as [H | H]; discriminate.
  - subst e'. destruct He' as [H | H]; discriminate.
  - inversion E as [E'].
    destruct (span_unique cls_dot u u' e e' Hu Hu'
                (line_end_stops _ He) (line_end_stops _ He') E') as [-> _].
    reflexivity.
Qed.

(** A line is a header in one way only. *)
Lemma header_line_unique line t m s t' m' s' :
  header_line line t m s -> header_line line t' m' s' ->
  t = t' /\ m = m' /\ s = s'.
Proof.
  intros (mp & sp & e & -> & Ht & Hm & He & Hs)
         (mp' & sp' & e' & E & Ht' & Hm' & He' & Hs').
  simpl in E. inversion E as [E1]. clear E.
  destruct (span_unique title_char t t' _ _
              (header_title_chars _ Ht) (header_title_chars _ Ht')
              (meta_stops_title _ _ _ Hm) (meta_stops_title _ _ _ Hm') E1)
    as [-> E2].
  destruct (header_meta_unique _ _ _ _ _ _ Hm Hm' E2) as [-> E3].
  split; [reflexivity|]. split; [reflexivity|].
  exact (subtitle_unique _ _ _ _ _ _ He He' Hs Hs' E3).
Qed.

(** Every line of the grammar is matched by the pattern. *)
Lemma pattern_matches line t m s :
  header_line line t m s ->
  exists s' g, matches _header_pat line Re.no_groups s' g.
Proof.
  intros (mp & sp & e & -> & Ht & Hm & He & Hs).
  rewrite _header_pat_parts.
  destruct (title_matches t (mp +:+ ":" +:+ sp +:+ e) Re.no_groups Ht)
    as [g1 M1].
  assert (Mm : exists g2, matches re_meta (mp +:+ ":" +:+ sp +:+ e)
                            (Re.set_group 1
                               (Re.consumed (t +:+ mp +:+ ":" +:+ sp +:+ e)
                                  (mp +:+ ":" +:+ sp +:+ e)) g1)
                            (":" +:+ sp +:+ e) g2).
  { unfold re_meta. destruct Hm as [[-> ->] | [-> Hc]].
    - eexists. apply M_Opt_none.
    - eexists. apply M_Opt_some, M_Grp. simpl. rewrite append_assoc.
      econstructor; [constructor|].
      econstructor; [now constructor | constructor]. }
  destruct Mm as [g2 M2].
  assert (Ms : exists g3, matches re_subtitle (sp +:+ e) g2 e g3).
  { unfold re_subtitle. destruct Hs as [[-> _] | (u & -> & Hu & _)].
    - eexists. apply M_Opt_none.
    - eexists. apply M_Opt_some, M_Grp. simpl.
      econstructor; [constructor | now constructor]. }
  destruct Ms as [g3 M3].
  exists e, g3. simpl.
  econstructor; [constructor|]. econstructor; [constructor|].
  econstructor; [constructor|].
  econstructor; [apply M_Grp, M1|].
  econstructor; [exact M2|].
  econstructor; [constructor|].
  econstructor; [exact M3 | now constructor].
Qed.

Lemma header_match_groups line :
  header_match line = triple_of <$> Re.match_ _header_pat line.
Proof.
  unfold header_match. now destruct (Re.match_ _header_pat line).
Qed.

Lemma header_match_sound line t m s :
  header_match line = Some (t, m, s) -> header_line line t m s.
Proof.
  rewrite header_match_groups. unfold Re.match_.
  destruct (Re.run _header_pat line Re.no_groups (fun _ g => Some g))
    as [g|] eqn:E; [|discriminate].
  apply run_sound in E as (s' & g' & M & Hk). inversion Hk; subst.
  apply pattern_inv in M. intros H.
  change (Some (triple_of g) = Some (t, m, s)) in H.
  assert (Et : triple_of g = (t, m, s)) by congruence.
  now rewrite Et in M.
Qed.

Lemma header_match_complete line t m s :
  header_line line t m s -> header_match line = Some (t, m, s).
Proof.
  intros H. destruct (pattern_matches _ _ _ _ H) as (s' & g & M).
  destruct (run_complete _ _ _ _ _ M (fun _ g => Some g)) as [g' E]; [eauto|].
  assert (Hm : header_match line = Some (triple_of g')).
  { rewrite header_match_groups. unfold Re.match_. now rewrite E. }
  destruct (triple_of g') as [[t' m'] s''] eqn:Et.
  destruct (header_line_unique _ _ _ _ _ _ _ H (header_match_sound _ _ _ _ Hm))
    as (-> & -> & ->).
  exact Hm.
Qed.

(** C7 (as amended).  [header_match] is a function of the line alone.  It
    returns the triple (title, meta, subtitle) exactly for the lines of
    the header grammar: "// ", a title of one or two capitalized words,
    optional metadata between parentheses, a colon, and then the end of
    the line or a blank followed by the subtitle text; the meta is
    returned without its parentheses and the subtitle trimmed, both empty
    when absent.  For every other line it returns no match. *)
Theorem header_match_grammar line :
  (forall t m s, header_match line = Some (t, m, s) <-> header_line line t m s)
  /\ (header_match line = None <-> ~ exists t m s, header_line line t m s).
Proof.
  split.
  - intros t m s. split;
      [apply header_match_sound | apply header_match_complete].
  - split.
    + intros E (t & m & s & H). apply header_match_complete in H. congruence.
    + intros H. destruct (header_match line) as [[[t m] s]|] eqn:E;
        [|reflexivity].
      exfalso. apply H. exists t, m, s. now apply header_match_sound.
Qed.

Lemma header_match_grammar_witness :
  header_match "// Module(Deprecated): cube()"
  = Some ("Module", "Deprecated", "cube()").
Proof.
  apply (proj1 (header_match_grammar "// Module(Deprecated): cube()")).
  exists "(Deprecated)", " cube()", "". split; [reflexivity|].
  split; [left; exists "M"%char, "odule"; repeat split|].
  split; [right; split; reflexivity|]. split; [now left|].
  right. exists "cube()". repeat split.
Defined.

(** C7, the claim as stated, fails: a line whose subtitle follows the colon
    with no blank between them is a header in the words of the
    specification, with that subtitle, and is not matched. *)
Lemma subtitle_needs_a_blank :
  spec_header_line "// Usage:cube(size)" "Usage" "" "cube(size)"
  /\ header_match "// Usage:cube(size)" = None.
Proof.
  split; [|vm_compute; reflexivity].
  exists "", "cube(size)", "". split; [reflexivity|].
  split; [left; exists "U"%char, "sage"; repeat split|].
  split; [left; auto|]. split; [reflexivity|]. split; [now left | reflexivity].
Qed.
(* ===================================================================== *)
(** ** The table of file hashes *)
(* ===================================================================== *)

Lemma get_setitem_eq {V} k (v : V) d : Dict.get k (Dict.setitem k v d) = Some v.
Proof.
  induction d as [|[k' v'] d IH]; simpl.
  - now rewrite String.eqb_refl.
  - destruct (k' == k) eqn:E; simpl; rewrite E; [reflexivity | exact IH].
Qed.

Lemma get_setitem_ne {V} k k' (v : V) d :
  k <> k' -> Dict.get k' (Dict.setitem k v d) = Dict.get k' d.
Proof.
  intros Hne. induction d as [|[k0 v0] d IH]; simpl.
  - destruct (k == k') eqn:E; [apply String.eqb_eq in E; contradiction|].
    reflexivity.
  - destruct (k0 == k) eqn:E; simpl.
    + apply String.eqb_eq in E. subst k0.
      destruct (k == k') eqn:E'; [apply String.eqb_eq in E'; contradiction|].
      reflexivity.
    + destruct (k0 == k'); [reflexivity | exact IH].
Qed.

Lemma get_None_keys {V} k (d : list (string * V)) :
  Dict.get k d = None <-> k ∉ d.*1.
Proof.
  induction d as [|[k0 v0] d IH]; simpl.
  - split; [intros _; apply not_elem_of_nil | reflexivity].
  - rewrite not_elem_of_cons. destruct (k0 == k) eqn:E.
    + apply String.eqb_eq in E. subst. split; [discriminate | tauto].
    + apply String.eqb_neq in E. rewrite IH.
      split; [intros H; split; [intros ->; now apply E | exact H] | tauto].
Qed.

Lemma setitem_new {V} k (v : V) d :
  Dict.get k d = None -> Dict.setitem k v d = d ++ [(k, v)].
Proof.
  induction d as [|[k0 v0] d IH]; simpl; [reflexivity|].
  destruct (k0 == k); [discriminate|]. intros H. now rewrite IH.
Qed.

Lemma setitem_same {V} k (v : V) d :
  Dict.get k d = Some v -> Dict.setitem k v d = d.
Proof.
  induction d as [|[k0 v0] d IH]; simpl; [discriminate|].
  destruct (k0 == k); [congruence|]. intros H. now rewrite IH.
Qed.

Lemma keys_setitem {V} k (v : V) d :
  (Dict.setitem k v d).*1
  = match Dict.get k d with Some _ => d.*1 | None => d.*1 ++ [k] end.
Proof.
  induction d as [|[k0 v0] d IH]; cbn [Dict.setitem Dict.get]; [reflexivity|].
  destruct (k0 == k) eqn:E; rewrite !fmap_cons; [reflexivity|].
  rewrite IH. now destruct (Dict.get k d).
Qed.

(** *** Lines *)

Lemma readlines_go_line s :
  all_chars cls_no_eol s = true ->
  forall cur rest,
    PyFile.readlines_go false cur (s +:+ newline +:+ rest)
    = (cur +:+ s +:+ newline) :: PyFile.readlines_go false "" rest.
Proof.
  induction s as [|c s IH]; intros H cur rest.
  - reflexivity.
  - cbn [all_chars] in H. apply andb_true_iff in H as [Hc Hs].
    unfold cls_no_eol in Hc. rewrite !andb_true_iff, !negb_true_iff in Hc.
    destruct Hc as [Hlf Hcr].
    change (String c s +:+ newline +:+ rest)
      with (String c (s +:+ newline +:+ rest)).
    cbn [PyFile.readlines_go]. rewrite Hlf, Hcr, (IH Hs).
    now rewrite append_assoc.
Qed.

Lemma all_chars_weaken (p q : ascii -> bool) s :
  (forall c, p c = true -> q c = true) ->
  all_chars p s = true -> all_chars q s = true.
Proof.
  intros Hpq. induction s as [|c s IH]; simpl; [reflexivity|].
  rewrite !andb_true_iff. intros [Hc Hs]. auto.
Qed.

Lemma plain_no_eol s :
  all_chars hash_plain s = true -> all_chars cls_no_eol s = true.
Proof.
  apply all_chars_weaken. intros c. unfold hash_plain, cls_no_eol.
  rewrite !andb_true_iff. tauto.
Qed.

Lemma write_hashes_cons item d :
  write_hashes (item :: d) = hash_line item +:+ write_hashes d.
Proof. destruct item. reflexivity. Qed.

Lemma readlines_write_hashes d :
  Forall (fun item => all_chars cls_no_eol item.1 = true
                      /\ all_chars cls_no_eol item.2 = true) d ->
  PyFile.readlines (write_hashes d) = map hash_line d.
Proof.
  unfold PyFile.readlines.
  induction d as [|[k v] d IH]; intros H; [reflexivity|].
  apply Forall_cons in H as [(Hk & Hv) Hd]. simpl in Hk, Hv.
  rewrite write_hashes_cons.
  assert (E : hash_line (k, v) +:+ write_hashes d
              = (k +:+ "|" +:+ v) +:+ newline +:+ write_hashes d).
  { unfold hash_line. cbn [fst snd]. now rewrite !append_assoc. }
  rewrite E, readlines_go_line.
  - cbn [map]. rewrite (IH Hd). unfold hash_line. cbn [fst snd].
    now rewrite !append_assoc.
  - rewrite !all_chars_app. rewrite Hk, Hv. reflexivity.
Qed.

Lemma storable_no_eol d :
  Forall storable d ->
  Forall (fun item => all_chars cls_no_eol item.1 = true
                      /\ all_chars cls_no_eol item.2 = true) d.
Proof.
  intros H. eapply Forall_impl; [exact H|]. intros item (Hk & Hv & _).
  split; now apply plain_no_eol.
Qed.

(** *** One line *)

Lemma rstrip_app_newline s : Py.rstrip (s +:+ newline) = Py.rstrip s.
Proof.
  induction s as [|c s IH]; [reflexivity|].
  change (String c s +:+ newline) with (String c (s +:+ newline)).
  cbn [Py.rstrip]. now rewrite IH.
Qed.

Lemma rstrip_cons_keep c s :
  Py.isspace c = false -> Py.rstrip (String c s) = String c (Py.rstrip s).
Proof.
  intros H. cbn [Py.rstrip]. destruct (Py.rstrip s); [now rewrite H | reflexivity].
Qed.

Lemma rstrip_nonempty_app a b :
  Py.rstrip b <> "" -> Py.rstrip (a +:+ b) = a +:+ Py.rstrip b.
Proof.
  intros Hb. induction a as [|c a IH]; [reflexivity|].
  change (String c a +:+ b) with (String c (a +:+ b)).
  cbn [Py.rstrip]. rewrite IH.
  destruct (a +:+ Py.rstrip b) eqn:E; [|simpl; now rewrite E].
  destruct a; [simpl in E; contradiction | discriminate].
Qed.

Lemma lstrip_stable_app k r :
  Py.lstrip k = k -> k <> "" -> Py.lstrip (k +:+ r) = k +:+ r.
Proof.
  destruct k as [|c k]; [contradiction|]. intros H _.
  change (String c k +:+ r) with (String c (k +:+ r)).
  cbn [Py.lstrip] in *. destruct (Py.isspace c); [|reflexivity].
  exfalso. pose proof (length_lstrip k) as Hl. rewrite H in Hl. simpl in Hl. lia.
Qed.

Lemma strip_hash_line item :
  storable item -> Py.strip (hash_line item) = item.1 +:+ "|" +:+ item.2.
Proof.
  destruct item as [k v]. intros (_ & _ & Hk & Hv). cbn [fst snd] in *.
  unfold Py.strip, hash_line. cbn [fst snd].
  replace (k +:+ "|" +:+ v +:+ newline) with ((k +:+ "|" +:+ v) +:+ newline)
    by now rewrite !append_assoc.
  rewrite rstrip_app_newline.
  assert (Hbar : Py.rstrip ("|" +:+ v) = "|" +:+ v).
  { change ("|" +:+ v) with (String "|" v).
    rewrite rstrip_cons_keep by reflexivity. now rewrite Hv. }
  rewrite rstrip_nonempty_app by (rewrite Hbar; discriminate).
  rewrite Hbar.
  destruct k as [|c k]; [reflexivity|].
  apply lstrip_stable_app; [exact Hk | discriminate].
Qed.


Lemma prefix_bar c s :
  String.prefix "|" (String c s) = Ascii.eqb c "|".
Proof.
  destruct (Ascii.eqb c "|") eqn:E.
  - apply Ascii.eqb_eq in E. subst. apply prefix_iff. now exists s.
  - destruct (String.prefix "|" (String c s)) eqn:P; [|reflexivity].
    apply prefix_iff in P as [r Hr]. inversion Hr; subst.
    rewrite Ascii.eqb_refl in E. discriminate.
Qed.

Lemma split_go_bar_length s : forall cur,
  length (Py.split_go "|" 0 cur s) = S (count_char "|" s).
Proof.
  induction s as [|c s IH]; intros cur; [reflexivity|].
  cbn [Py.split_go count_char]. rewrite prefix_bar.
  destruct (Ascii.eqb c "|"); cbn [String.length Nat.sub length];
    rewrite IH; reflexivity.
Qed.

Lemma split_bar_length s : length (Py.split "|" s) = S (count_char "|" s).
Proof. apply split_go_bar_length. Qed.

Lemma plain_not_bar c : hash_plain c = true -> Ascii.eqb c "|" = false.
Proof.
  unfold hash_plain. rewrite !andb_true_iff, !negb_true_iff. tauto.
Qed.

Lemma split_go_plain s : forall cur,
  all_chars hash_plain s = true -> Py.split_go "|" 0 cur s = [cur +:+ s].
Proof.
  induction s as [|c s IH]; intros cur H.
  - simpl. now rewrite append_nil_r.
  - cbn [all_chars] in H. apply andb_true_iff in H as [Hc Hs].
    cbn [Py.split_go]. rewrite prefix_bar, (plain_not_bar _ Hc), (IH _ Hs).
    now rewrite append_assoc.
Qed.

Lemma split_go_item k v : forall cur,
  all_chars hash_plain k = true -> all_chars hash_plain v = true ->
  Py.split_go "|" 0 cur (k +:+ "|" +:+ v) = [cur +:+ k; v].
Proof.
  induction k as [|c k IH]; intros cur Hk Hv.
  - change ("" +:+ "|" +:+ v) with (String "|" v).
    cbn [Py.split_go]. rewrite prefix_bar. cbn [Ascii.eqb Bool.eqb].
    cbn [String.length Nat.sub]. rewrite (split_go_plain _ _ Hv).
    now rewrite append_nil_r.
  - cbn [all_chars] in Hk. apply andb_true_iff in Hk as [Hc Hk].
    change (String c k +:+ "|" +:+ v) with (String c (k +:+ "|" +:+ v)).
    cbn [Py.split_go]. rewrite prefix_bar, (plain_not_bar _ Hc), (IH _ Hk Hv).
    now rewrite append_assoc.
Qed.

Lemma split_hash_line item :
  storable item ->
  Py.split "|" (Py.strip (hash_line item)) = [item.1; item.2].
Proof.
  intros H. rewrite (strip_hash_line _ H). destruct H as (Hk & Hv & _).
  unfold Py.split. now rewrite split_go_item.
Qed.

(** *** The loop *)

Lemma read_hashes_loop_written d : forall acc,
  Forall storable d -> NoDup (acc.*1 ++ d.*1) ->
  read_hashes_loop (map hash_line d) acc = Some (acc ++ d).
Proof.
  induction d as [|[k v] d IH]; intros acc Hs Hn.
  - simpl. now rewrite app_nil_r.
  - apply Forall_cons in Hs as [Hi Hd]. cbn [map read_hashes_loop].
    rewrite (split_hash_line _ Hi). cbn [fst snd].
    rewrite fmap_cons in Hn. cbn [fst] in Hn.
    assert (Hfresh : Dict.get k acc = None).
    { apply get_None_keys. apply NoDup_app in Hn as (_ & Hn & _).
      intros Hin. apply (Hn _ Hin). left. }
    rewrite (setitem_new _ _ _ Hfresh), IH; [now rewrite <- app_assoc | exact Hd |].
    rewrite fmap_app, <- app_assoc. exact Hn.
Qed.

Lemma read_hashes_loop_bad lines : forall acc,
  Exists (fun l => count_char "|" (Py.strip l) <> 1) lines ->
  read_hashes_loop lines acc = None.
Proof.
  induction lines as [|l lines IH]; intros acc H.
  - inversion H.
  - cbn [read_hashes_loop].
    pose proof (split_bar_length (Py.strip l)) as Hlen.
    destruct (Py.split "|" (Py.strip l)) as [|a [|b [|c r]]] eqn:E;
      try reflexivity.
    apply Exists_cons in H as [H | H]; [|now apply IH].
    simpl in Hlen. lia.
Qed.

Lemma read_hashes_loop_good lines : forall acc,
  Forall (fun l => count_char "|" (Py.strip l) = 1) lines ->
  is_Some (read_hashes_loop lines acc).
Proof.
  induction lines as [|l lines IH]; intros acc H.
  - now eexists.
  - apply Forall_cons in H as [Hl H]. cbn [read_hashes_loop].
    pose proof (split_bar_length (Py.strip l)) as Hlen. rewrite Hl in Hlen.
    destruct (Py.split "|" (Py.strip l)) as [|a [|b [|c r]]] eqn:E;
      try discriminate.
    now apply IH.
Qed.

Lemma count_char_app c a b :
  count_char c (a +:+ b) = count_char c a + count_char c b.
Proof.
  induction a as [|x a IH]; simpl; [reflexivity|]. rewrite IH. lia.
Qed.

Lemma count_char_lstrip c s :
  Py.isspace c = false -> count_char c (Py.lstrip s) = count_char c s.
Proof.
  intros Hc. induction s as [|x s IH]; [reflexivity|].
  cbn [Py.lstrip]. destruct (Py.isspace x) eqn:Ex; [|reflexivity].
  cbn [count_char]. destruct (Ascii.eqb x c) eqn:E; [|exact IH].
  apply Ascii.eqb_eq in E. congruence.
Qed.

Lemma count_char_rstrip c s :
  Py.isspace c = false -> count_char c (Py.rstrip s) = count_char c s.
Proof.
  intros Hc. induction s as [|x s IH]; [reflexivity|].
  cbn [Py.rstrip count_char]. rewrite <- IH.
  destruct (Py.rstrip s) eqn:Er.
  - destruct (Py.isspace x) eqn:Ex; [|simpl; lia].
    destruct (Ascii.eqb x c) eqn:E; [|reflexivity].
    apply Ascii.eqb_eq in E. congruence.
  - reflexivity.
Qed.

Lemma count_char_strip c s :
  Py.isspace c = false -> count_char c (Py.strip s) = count_char c s.
Proof.
  intros Hc. unfold Py.strip.
  now rewrite count_char_lstrip, count_char_rstrip.
Qed.

Lemma count_bar_hash_line item :
  count_char "|" (Py.strip (hash_line item))
  = count_char "|" item.1 + 1 + count_char "|" item.2.
Proof.
  rewrite count_char_strip by reflexivity. unfold hash_line.
  rewrite !count_char_app. simpl. lia.
Qed.

(** X1 ([read_hashes], [write_hashes]).  A table of hashes that is written
    out and read back is the same table, items in the same order, when its
    keys are distinct and every file name and hash is made of plain
    characters, the name without whitespace at its left and the hash
    without whitespace at its right. *)
Theorem hashes_round_trip (file_hashes : list (string * string)) :
  distinct_keys file_hashes ->
  Forall storable file_hashes ->
  read_hashes (Some (write_hashes file_hashes)) = file_hashes.
Proof.
  intros Hn Hs. unfold read_hashes.
  rewrite readlines_write_hashes by now apply storable_no_eol.
  now rewrite read_hashes_loop_written.
Qed.

Lemma hashes_round_trip_witness :
  read_hashes
    (Some (write_hashes [("shapes.scad", "9f86d081884c7d65");
                         ("lib/paths v2.scad", "")]))
  = [("shapes.scad", "9f86d081884c7d65"); ("lib/paths v2.scad", "")].
Proof.
  apply hashes_round_trip.
  - unfold distinct_keys. apply (bool_decide_unpack _). vm_compute. exact I.
  - repeat constructor; reflexivity.
Defined.

(** X2 ([read_hashes]).  One line of the hashes file that, once trimmed,
    does not hold exactly one vertical bar (a blank line, a line with no
    bar, a line with two) makes [read_hashes] give up the whole file: the
    table is empty, whatever the lines before it say. *)
Theorem corrupt_hashes_file_is_dropped (text : string) :
  Exists (fun l => count_char "|" (Py.strip l) <> 1) (PyFile.readlines text) ->
  read_hashes (Some text) = [].
Proof.
  intros H. unfold read_hashes. now rewrite read_hashes_loop_bad.
Qed.

Lemma corrupt_hashes_file_is_dropped_witness :
  read_hashes (Some ("shapes.scad|9f86d081" +:+ newline +:+ newline)) = [].
Proof.
  apply corrupt_hashes_file_is_dropped.
  apply Exists_cons_tl, Exists_cons_hd. vm_compute. discriminate.
Defined.

(** X3 ([write_hashes], [read_hashes]).  A file name or a hash with a
    vertical bar in it makes the file that [write_hashes] writes one that
    [read_hashes] gives up: the table read back is empty. *)
Theorem bar_in_a_name_loses_the_hashes (file_hashes : list (string * string)) :
  Forall (fun item => all_chars cls_no_eol item.1 = true
                      /\ all_chars cls_no_eol item.2 = true) file_hashes ->
  Exists (fun item => count_char "|" item.1 + count_char "|" item.2 <> 0)
    file_hashes ->
  read_hashes (Some (write_hashes file_hashes)) = [].
Proof.
  intros Hs Hbar. unfold read_hashes.
  rewrite (readlines_write_hashes _ Hs), read_hashes_loop_bad; [reflexivity|].
  apply Exists_fmap. eapply Exists_impl; [exact Hbar|].
  intros item H. unfold compose. rewrite count_bar_hash_line.
  cbv beta in H. lia.
Qed.

Lemma bar_in_a_name_loses_the_hashes_witness :
  read_hashes (Some (write_hashes [("shapes.scad", "9f86d081");
                                   ("a|b.scad", "0b1c")])) = [].
Proof.
  apply bar_in_a_name_loses_the_hashes.
  - repeat constructor; reflexivity.
  - apply Exists_cons_tl, Exists_cons_hd. vm_compute. discriminate.
Defined.


(** X4 ([matches_hash]).  Whatever it returns, [matches_hash] leaves the
    digest that the file has now as the hash recorded for it, and no other
    entry changed; it returns [True] exactly when that digest was the one
    recorded before, and asked again about the same file it returns [True]
    and changes nothing. *)
Theorem matches_hash_records_the_digest (_sha256sum : string -> string)
  (filename : string) (file_hashes : list (string * string)) :
  let after := (matches_hash _sha256sum filename file_hashes).1 in
  let same := (matches_hash _sha256sum filename file_hashes).2 in
  Dict.get filename after = Some (_sha256sum filename)
  /\ (same = true <-> Dict.get filename file_hashes = Some (_sha256sum filename))
  /\ (same = true -> after = file_hashes)
  /\ (forall other, other <> filename ->
        Dict.get other after = Dict.get other file_hashes)
  /\ matches_hash _sha256sum filename after = (after, true).
Proof.
  unfold matches_hash.
  destruct (Dict.get filename file_hashes) as [old|] eqn:E.
  - destruct (old == _sha256sum filename) eqn:Eo; cbn [negb fst snd].
    + apply String.eqb_eq in Eo. subst old.
      repeat split; auto. rewrite E, String.eqb_refl. reflexivity.
    + apply String.eqb_neq in Eo.
      split; [apply get_setitem_eq|].
      split; [split; [discriminate | congruence]|].
      split; [discriminate|].
      split; [intros other Ho; now apply get_setitem_ne|].
      now rewrite get_setitem_eq, String.eqb_refl.
  - cbn [fst snd].
    split; [apply get_setitem_eq|].
    split; [split; discriminate|].
    split; [discriminate|].
    split; [intros other Ho; now apply get_setitem_ne|].
    now rewrite get_setitem_eq, String.eqb_refl.
Qed.
(* ===================================================================== *)
(** ** The order of the files in the listings *)
(* ===================================================================== *)

Lemma filter_all {A} (P : A -> Prop) `{forall x, Decision (P x)} (l : list A) :
  (forall x, x ∈ l -> P x) -> filter P l = l.
Proof.
  induction l as [|x l IH]; intros Hl; [reflexivity|].
  rewrite filter_cons_True by (apply Hl; left).
  rewrite IH; [reflexivity|]. intros y Hy. apply Hl. now right.
Qed.

Lemma filter_none {A} (P : A -> Prop) `{forall x, Decision (P x)} (l : list A) :
  (forall x, x ∈ l -> ~ P x) -> filter P l = [].
Proof.
  induction l as [|x l IH]; intros Hl; [reflexivity|].
  rewrite filter_cons_False by (apply Hl; left).
  apply IH. intros y Hy. apply Hl. now right.
Qed.

Lemma filter_and {A} (P Q : A -> Prop) `{forall x, Decision (P x)}
  `{forall x, Decision (Q x)} (l : list A) :
  filter P (filter Q l) = filter (fun x => P x /\ Q x) l.
Proof.
  induction l as [|x l IH]; [reflexivity|].
  destruct (decide (Q x)) as [HQ|HQ].
  - rewrite (filter_cons_True Q) by exact HQ.
    destruct (decide (P x)) as [HP|HP].
    + rewrite !filter_cons_True by tauto. now rewrite IH.
    + rewrite !filter_cons_False by tauto. exact IH.
  - rewrite (filter_cons_False Q) by exact HQ.
    rewrite (filter_cons_False (fun x => P x /\ Q x)) by tauto. exact IH.
Qed.

Lemma filter_ext_in {A} (P Q : A -> Prop) `{forall x, Decision (P x)}
  `{forall x, Decision (Q x)} (l : list A) :
  (forall x, x ∈ l -> P x <-> Q x) -> filter P l = filter Q l.
Proof.
  induction l as [|x l IH]; intros Hl; [reflexivity|].
  assert (Hx : P x <-> Q x) by (apply Hl; left).
  assert (Hr : filter P l = filter Q l).
  { apply IH. intros y Hy. apply Hl. now right. }
  destruct (decide (P x)) as [HP|HP].
  - rewrite !filter_cons_True by tauto. now rewrite Hr.
  - rewrite !filter_cons_False by tauto. exact Hr.
Qed.

Lemma perm_of_eq {A} (l l' : list A) : l = l' -> l ≡ₚ l'.
Proof. now intros ->. Qed.

(** Buckets: a list cut by the value of a key, one bucket per value of a
    duplicate-free list of values, is the list again up to the order. *)
Lemma buckets_perm {A K} `{EqDecision K} (key : A -> K) (ks : list K) :
  NoDup ks -> forall l : list A,
  (ks ≫= fun k => filter (fun x => key x = k) l)
  ++ filter (fun x => key x ∉ ks) l ≡ₚ l.
Proof.
  induction 1 as [|k ks Hk Hn IH]; intros l.
  - cbn. rewrite filter_all; [reflexivity|].
    intros x _. apply not_elem_of_nil.
  - rewrite bind_cons, <- app_assoc.
    etransitivity; [|apply (filter_app_complement (fun x => key x = k) l)].
    apply Permutation_app_head.
    etransitivity; [|apply (IH (filter (fun x => ~ key x = k) l))].
    apply Permutation_app.
    + apply perm_of_eq. clear IH Hn.
      induction ks as [|k' ks IH']; [reflexivity|].
      rewrite !bind_cons. f_equal.
      * rewrite filter_and. apply list_filter_iff.
        intros x. split; [|tauto]. intros E. split; [exact E|].
        rewrite E. intros ->. apply Hk. left.
      * apply IH'. intros Hin. apply Hk. now right.
    + rewrite filter_and. apply perm_of_eq, list_filter_iff.
      intros x. rewrite not_elem_of_cons. tauto.
Qed.

(** *** [_files_prioritized] in closed form *)

Lemma prioritize_inner st p l : forall (out : list nat) (found : gset string),
  exists found' : gset string,
    fold_left
      (fun '((out, found) : list nat * gset string) file_block =>
         if node_subtitle st file_block == p
         then (out ++ [file_block], {[p]} ∪ found)
         else (out, found)) l (out, found)
    = (out ++ filter (fun fb => node_subtitle st fb = p) l, found')
    /\ forall x : string, x ∈ found' <->
         x ∈ found \/ (x = p /\ exists fb, fb ∈ l /\ node_subtitle st fb = p).
Proof.
  induction l as [|fb l IH]; intros out found.
  - exists found. split; [simpl; now rewrite app_nil_r|].
    intros x. split; [tauto|]. intros [H|(_ & fb & Hfb & _)]; [exact H|].
    now apply elem_of_nil in Hfb.
  - cbn [fold_left]. destruct (node_subtitle st fb == p) eqn:E.
    + apply String.eqb_eq in E.
      destruct (IH (out ++ [fb]) ({[p]} ∪ found)) as (found' & -> & Hf).
      exists found'. split.
      * rewrite filter_cons_True by exact E. now rewrite <- app_assoc.
      * intros x. rewrite Hf, elem_of_union, elem_of_singleton.
        split.
        -- intros [[->|H]|(-> & fb' & Hin & Hs)]; [right|now left|right].
           ++ split; [reflexivity|]. exists fb. split; [left | exact E].
           ++ split; [reflexivity|]. exists fb'. split; [now right | exact Hs].
        -- intros [H|(-> & _)]; left; [now right | now left].
    + apply String.eqb_neq in E.
      destruct (IH out found) as (found' & -> & Hf).
      exists found'. split.
      * now rewrite filter_cons_False by exact E.
      * intros x. rewrite Hf. split; [intros [H|(-> & fb' & Hin & Hs)] | ].
        -- now left.
        -- right. split; [reflexivity|]. exists fb'. split; [now right | exact Hs].
        -- intros [H|(-> & fb' & Hin & Hs)]; [now left|]. right.
           split; [reflexivity|]. exists fb'. split; [|exact Hs].
           apply elem_of_cons in Hin as [->|Hin]; [contradiction | exact Hin].
Qed.

Lemma prioritize_outer st ps : forall (out : list nat) (found : gset string),
  exists found' : gset string,
    fold_left (prioritize_one st) ps (out, found)
    = (out ++ (ps ≫= files_named st), found')
    /\ forall x : string, x ∈ found' <->
         x ∈ found \/ (x ∈ ps /\ exists fb, fb ∈ file_blocks st
                                           /\ node_subtitle st fb = x).
Proof.
  induction ps as [|p ps IH]; intros out found.
  - exists found. split; [simpl; now rewrite app_nil_r|].
    intros x. split; [tauto|]. intros [H|(Hin & _)]; [exact H|].
    now apply elem_of_nil in Hin.
  - cbn [fold_left]. unfold prioritize_one at 2.
    destruct (prioritize_inner st p (file_blocks st) out found)
      as (f1 & -> & Hf1).
    destruct (IH (out ++ filter (fun fb => node_subtitle st fb = p)
                           (file_blocks st)) f1) as (f2 & -> & Hf2).
    exists f2. split.
    + rewrite bind_cons. unfold files_named at 2. now rewrite <- app_assoc.
    + intros x. rewrite Hf2, Hf1, elem_of_cons. split.
      * intros [[H|(-> & H)]|(Hin & H)]; [now left | right | right].
        -- split; [now left | exact H].
        -- split; [now right | exact H].
      * intros [H|([->|Hin] & H)].
        -- left. now left.
        -- left. right. split; [reflexivity | exact H].
        -- right. split; [exact Hin | exact H].
Qed.

Lemma rest_loop st (found : gset string) l : forall out,
  fold_left
    (fun out file_block =>
       if decide (node_subtitle st file_block ∈ found)
       then out else out ++ [file_block]) l out
  = out ++ filter (fun fb => node_subtitle st fb ∉ found) l.
Proof.
  induction l as [|fb l IH]; intros out; [simpl; now rewrite app_nil_r|].
  cbn [fold_left]. rewrite IH. destruct (decide _) as [Hin|Hin].
  - rewrite filter_cons_False; [reflexivity | tauto].
  - rewrite filter_cons_True by exact Hin. now rewrite <- app_assoc.
Qed.

Lemma _files_prioritized_closed st :
  _files_prioritized st
  = (priority_files st ≫= files_named st)
    ++ filter (fun fb => node_subtitle st fb ∉ priority_files st)
         (file_blocks st).
Proof.
  unfold _files_prioritized.
  destruct (prioritize_outer st (priority_files st) [] ∅) as (found & -> & Hf).
  rewrite rest_loop. cbn [app]. f_equal.
  apply filter_ext_in. intros fb Hfb. rewrite Hf.
  split; intros H Hin; apply H.
  - right. split; [exact Hin|]. now exists fb.
  - destruct Hin as [Hin|[Hin _]]; [now apply elem_of_empty in Hin | exact Hin].
Qed.

(** *** Counting *)

Lemma occurrences_app {A} `{EqDecision A} (x : A) l1 l2 :
  occurrences x (l1 ++ l2) = occurrences x l1 + occurrences x l2.
Proof. unfold occurrences. now rewrite filter_app, length_app. Qed.

Lemma occurrences_cons {A} `{EqDecision A} (x y : A) l :
  occurrences x (y :: l)
  = (if decide (y = x) then 1 else 0) + occurrences x l.
Proof.
  unfold occurrences. destruct (decide (y = x)) as [E|E].
  - now rewrite filter_cons_True.
  - now rewrite filter_cons_False.
Qed.

Lemma occurrences_filter {A} `{EqDecision A} (P : A -> Prop)
  `{forall x, Decision (P x)} (x : A) l :
  occurrences x (filter P l) = if decide (P x) then occurrences x l else 0.
Proof.
  unfold occurrences. rewrite filter_and.
  destruct (decide (P x)) as [HP|HP].
  - f_equal. apply list_filter_iff. intros y. split; [tauto|].
    intros ->. tauto.
  - rewrite filter_none; [reflexivity|]. intros y _ [-> Hy]. tauto.
Qed.

Lemma occurrences_named st fb ps :
  occurrences fb (ps ≫= files_named st)
  = occurrences (node_subtitle st fb) ps * occurrences fb (file_blocks st).
Proof.
  induction ps as [|p ps IH]; [reflexivity|].
  rewrite bind_cons, occurrences_app, IH, occurrences_cons.
  unfold files_named at 1. rewrite occurrences_filter.
  destruct (decide (node_subtitle st fb = p)) as [E|E];
    destruct (decide (p = node_subtitle st fb)) as [E'|E']; try congruence; lia.
Qed.

Lemma occurrences_zero {A} `{EqDecision A} (x : A) l :
  occurrences x l = 0 <-> x ∉ l.
Proof.
  unfold occurrences. induction l as [|y l IH].
  - split; [intros _; apply not_elem_of_nil | reflexivity].
  - rewrite not_elem_of_cons. destruct (decide (y = x)) as [E|E].
    + rewrite filter_cons_True by exact E. simpl. split; [lia | intros [H _]; congruence].
    + rewrite filter_cons_False by exact E. rewrite IH.
      split; [intros H; split; [congruence | exact H] | tauto].
Qed.

Lemma occurrences_NoDup {A} `{EqDecision A} (x : A) l :
  NoDup l -> x ∈ l -> occurrences x l = 1.
Proof.
  induction 1 as [|y l Hy Hn IH]; intros Hin.
  - now apply elem_of_nil in Hin.
  - rewrite occurrences_cons. destruct (decide (y = x)) as [->|E].
    + apply occurrences_zero in Hy. lia.
    + apply elem_of_cons in Hin as [->|Hin]; [contradiction|].
      rewrite IH by exact Hin. reflexivity.
Qed.

(** X5 ([_files_prioritized]).  The files named in [priority_files] come
    first, name by name in the order of that list, the files of one name
    in the order of parsing; the files that the list does not name follow,
    in the order of parsing. *)
Theorem files_prioritized_order (st : State) :
  _files_prioritized st
  = (priority_files st ≫= files_named st)
    ++ filter (fun fb => node_subtitle st fb ∉ priority_files st)
         (file_blocks st).
Proof. apply _files_prioritized_closed. Qed.

(** X6 ([_files_prioritized]).  When no name is given twice in
    [priority_files], the result is a reordering of [file_blocks]: no file
    is lost and none is listed twice. *)
Theorem files_prioritized_is_a_reordering (st : State) :
  NoDup (priority_files st) ->
  _files_prioritized st ≡ₚ file_blocks st.
Proof.
  intros Hn. rewrite _files_prioritized_closed.
  apply (buckets_perm (node_subtitle st) _ Hn).
Qed.

Lemma files_prioritized_is_a_reordering_witness :
  _files_prioritized two_files ≡ₚ file_blocks two_files
  /\ _files_prioritized two_files = [1; 0]
  /\ file_blocks two_files = [0; 1].
Proof.
  split; [|split; vm_compute; reflexivity].
  apply files_prioritized_is_a_reordering.
  apply (bool_decide_unpack _). vm_compute. exact I.
Defined.

(** X7 ([_files_prioritized]).  A file is listed once for each time that
    its name occurs in [priority_files], and once when its name does not
    occur there: a name given twice lists its file twice, and a file is
    never left out. *)
Theorem files_prioritized_occurrences (st : State) (fb : nat) :
  occurrences fb (_files_prioritized st)
  = Nat.max 1 (occurrences (node_subtitle st fb) (priority_files st))
    * occurrences fb (file_blocks st).
Proof.
  rewrite _files_prioritized_closed, occurrences_app, occurrences_named,
    occurrences_filter.
  destruct (decide (node_subtitle st fb ∉ priority_files st)) as [H|H].
  - apply occurrences_zero in H. rewrite H. simpl. lia.
  - assert (H0 : occurrences (node_subtitle st fb) (priority_files st) <> 0).
    { intros E. apply occurrences_zero in E. contradiction. }
    rewrite Nat.max_r by lia. lia.
Qed.


(** *** The groups *)

Lemma in_list_iff x l : in_list x l = true <-> x ∈ l.
Proof.
  unfold in_list. rewrite existsb_exists. split.
  - intros (y & Hy & E). apply String.eqb_eq in E. subst.
    now apply list_elem_of_In.
  - intros H. exists x. split; [now apply list_elem_of_In | apply String.eqb_refl].
Qed.

Lemma nonempty_iff s : nonempty s = true <-> s <> "".
Proof.
  unfold nonempty. rewrite negb_true_iff. apply String.eqb_neq.
Qed.

Lemma named_groups st l : forall acc,
  NoDup acc -> "" ∉ acc ->
  let res :=
    fold_left
      (fun groups fblock =>
         let g := node_group st fblock in
         if nonempty g && negb (in_list g groups)
         then groups ++ [g] else groups) l acc in
  NoDup res /\ ("" ∉ res)
  /\ forall g, g ∈ res <->
       g ∈ acc \/ (g <> "" /\ exists fb, fb ∈ l /\ node_group st fb = g).
Proof.
  cbv zeta. induction l as [|fb l IH]; intros acc Hn He; cbn [fold_left].
  - split; [exact Hn|]. split; [exact He|]. intros g. split; [tauto|].
    intros [H|(_ & fb & Hfb & _)]; [exact H | now apply elem_of_nil in Hfb].
  - destruct (nonempty (node_group st fb) && negb (in_list (node_group st fb) acc))
      eqn:E.
    + apply andb_true_iff in E as [E1 E2]. apply nonempty_iff in E1.
      apply negb_true_iff in E2.
      assert (Hnot : node_group st fb ∉ acc).
      { intros Hin. apply in_list_iff in Hin. congruence. }
      destruct (IH (acc ++ [node_group st fb])) as (H1 & H2 & H3).
      { apply NoDup_app. split; [exact Hn|]. split; [|apply NoDup_singleton].
        intros x Hx Hx'. apply list_elem_of_singleton in Hx'. now subst. }
      { rewrite elem_of_app, list_elem_of_singleton. intros [H|H]; [tauto|].
        now apply E1. }
      split; [exact H1|]. split; [exact H2|].
      intros g. rewrite H3, elem_of_app, list_elem_of_singleton. split.
      * intros [[H| ->]|(Hg & fb' & Hin & Hs)]; [now left | right | right].
        -- split; [exact E1|]. exists fb. split; [left | reflexivity].
        -- split; [exact Hg|]. exists fb'. split; [now right | exact Hs].
      * intros [H|(Hg & fb' & Hin & Hs)]; [left; now left|].
        apply elem_of_cons in Hin as [->|Hin].
        -- left. right. now rewrite Hs.
        -- right. split; [exact Hg|]. now exists fb'.
    + destruct (IH acc Hn He) as (H1 & H2 & H3).
      split; [exact H1|]. split; [exact H2|].
      intros g. rewrite H3. split.
      * intros [H|(Hg & fb' & Hin & Hs)]; [now left | right].
        split; [exact Hg|]. exists fb'. split; [now right | exact Hs].
      * intros [H|(Hg & fb' & Hin & Hs)]; [now left|].
        apply elem_of_cons in Hin as [->|Hin].
        -- left. apply andb_false_iff in E as [E|E].
           ++ exfalso. apply nonempty_iff in Hg. congruence.
           ++ apply negb_false_iff, in_list_iff in E. now rewrite <- Hs.
        -- right. split; [exact Hg|]. now exists fb'.
Qed.

Lemma unnamed_group_stays st l : forall acc,
  "" ∈ acc ->
  fold_left
    (fun groups fblock =>
       let g := node_group st fblock in
       if negb (nonempty g) && negb (in_list g groups)
       then groups ++ [g] else groups) l acc = acc.
Proof.
  cbv zeta. induction l as [|fb l IH]; intros acc He; cbn [fold_left];
    [reflexivity|].
  destruct (negb (nonempty (node_group st fb))
            && negb (in_list (node_group st fb) acc)) eqn:E;
    [|now apply IH].
  apply andb_true_iff in E as [E1 E2].
  apply negb_true_iff in E1, E2. unfold nonempty in E1.
  apply negb_false_iff, String.eqb_eq in E1. rewrite E1 in E2.
  apply in_list_iff in He. congruence.
Qed.

Lemma unnamed_group st l : forall acc,
  "" ∉ acc ->
  fold_left
    (fun groups fblock =>
       let g := node_group st fblock in
       if negb (nonempty g) && negb (in_list g groups)
       then groups ++ [g] else groups) l acc
  = acc ++ (if decide (Exists (fun fb => node_group st fb = "") l)
            then [""] else []).
Proof.
  cbv zeta. induction l as [|fb l IH]; intros acc He; cbn [fold_left].
  - destruct (decide _) as [H|_]; [inversion H|]. now rewrite app_nil_r.
  - pose proof (unnamed_group_stays st l) as Hstay. cbv zeta in Hstay.
    destruct (negb (nonempty (node_group st fb))
              && negb (in_list (node_group st fb) acc)) eqn:E.
    + apply andb_true_iff in E as [E1 _].
      apply negb_true_iff in E1. unfold nonempty in E1.
      apply negb_false_iff, String.eqb_eq in E1. rewrite E1.
      rewrite Hstay
        by (rewrite elem_of_app, list_elem_of_singleton; now right).
      destruct (decide (Exists (fun fb0 => node_group st fb0 = "") (fb :: l)))
        as [_|Hno]; [reflexivity|].
      exfalso. apply Hno. now left.
    + cbv iota. rewrite (IH acc He). f_equal.
      assert (Hfb : node_group st fb <> "").
      { intros E1. rewrite E1 in E. cbn in E.
        destruct (in_list "" acc) eqn:Ei; [|discriminate].
        apply in_list_iff in Ei. contradiction. }
      destruct (decide (Exists (fun fb0 => node_group st fb0 = "") l))
        as [Hx|Hno];
        destruct (decide (Exists (fun fb0 => node_group st fb0 = "") (fb :: l)))
        as [Hy|Hno']; try reflexivity.
      * exfalso. apply Hno'. now right.
      * exfalso. apply Exists_cons in Hy as [Hy|Hy]; contradiction.
Qed.

Lemma file_groups_spec st prifiles :
  NoDup (file_groups st prifiles)
  /\ (forall g, g ∈ file_groups st prifiles <->
        exists fb, fb ∈ prifiles /\ node_group st fb = g)
  /\ (forall i, file_groups st prifiles !! i = Some "" ->
        S i = length (file_groups st prifiles)).
Proof.
  unfold file_groups.
  destruct (named_groups st prifiles [] (NoDup_nil_2) (not_elem_of_nil _))
    as (Hn & He & Hm).
  cbv zeta in Hn, He, Hm |- *.
  set (named := fold_left _ prifiles []) in *.
  pose proof (unnamed_group st prifiles named He) as Hu. cbv zeta in Hu.
  rewrite Hu. clear Hu.
  destruct (decide (Exists (fun fb => node_group st fb = "") prifiles))
    as [Hex|Hno]; rewrite Exists_exists in *.
  - split; [|split].
    + apply NoDup_app. split; [exact Hn|]. split; [|apply NoDup_singleton].
      intros x Hx Hx'. apply list_elem_of_singleton in Hx'. now subst.
    + intros g. rewrite elem_of_app, list_elem_of_singleton, Hm. split.
      * intros [[H|(_ & H)]| ->]; [now apply elem_of_nil in H | exact H | exact Hex].
      * intros (fb & Hfb & Hg). destruct (decide (g = "")) as [->|Hne];
          [now right | left; right]. split; [exact Hne|]. now exists fb.
    + intros i Hi. rewrite length_app. cbn [length].
      destruct (decide (i < length named)) as [Hlt|Hge].
      * rewrite lookup_app_l in Hi by exact Hlt.
        exfalso. apply He. eapply list_elem_of_lookup_2. exact Hi.
      * apply lookup_lt_Some in Hi. rewrite length_app in Hi. cbn in Hi. lia.
  - rewrite app_nil_r. split; [exact Hn|]. split.
    + intros g. rewrite Hm. split.
      * intros [H|(_ & H)]; [now apply elem_of_nil in H | exact H].
      * intros (fb & Hfb & Hg). right. split; [|now exists fb].
        intros ->. apply Hno. now exists fb.
    + intros i Hi. exfalso. apply He. eapply list_elem_of_lookup_2. exact Hi.
Qed.

(** X8 ([write_toc_file], [write_sidebar_file]).  The groups under which
    the files are listed are distinct, the group without a name comes last
    if it comes at all, and the listings of the groups taken together hold
    every file of [prifiles] with its number, once. *)
Theorem every_file_is_listed_under_one_group (st : State)
  (prifiles : list nat) :
  NoDup (file_groups st prifiles)
  /\ (forall i, file_groups st prifiles !! i = Some "" ->
        S i = length (file_groups st prifiles))
  /\ (file_groups st prifiles ≫= files_of_group st prifiles)
     ≡ₚ enumerate prifiles.
Proof.
  destruct (file_groups_spec st prifiles) as (Hn & Hm & Hl).
  split; [exact Hn|]. split; [exact Hl|].
  pose proof (buckets_perm (fun numbered : nat * nat => node_group st numbered.2)
                _ Hn (enumerate prifiles)) as Hp.
  cbv beta in Hp.
  match type of Hp with _ ++ ?f ≡ₚ _ => assert (Hnone : f = []) end.
  2:{ rewrite Hnone, app_nil_r in Hp. exact Hp. }
  apply filter_none.
  - intros [i fb] Hin Hnot. apply Hnot, Hm. exists fb. split; [|reflexivity].
    unfold enumerate in Hin. apply list_elem_of_lookup in Hin as [j Hj].
    rewrite list_lookup_imap in Hj.
    destruct (prifiles !! j) as [x|] eqn:Ex; [|discriminate].
    inversion Hj; subst. eapply list_elem_of_lookup_2. exact Ex.
Qed.
(* ===================================================================== *)
(** ** Well-formed states *)
(* ===================================================================== *)

Lemma core_fields a b :
  core a = core b ->
  cls a = cls b /\ parent a = parent b /\ subtitle a = subtitle b
  /\ aliases a = aliases b.
Proof. unfold core. intros H. inversion H. tauto. Qed.

Lemma core_names a b : core a = core b -> names_of a = names_of b.
Proof.
  intros H. apply core_fields in H as (_ & _ & Hs & Ha).
  unfold names_of. now rewrite Hs, Ha.
Qed.

Lemma core_tuple nd c p s a :
  Some (c, p, s, a) = Some (core nd) ->
  cls nd = c /\ parent nd = p /\ subtitle nd = s /\ aliases nd = a.
Proof. unfold core. intros H. inversion H. tauto. Qed.

(** The nodes of [h] are in [h'], up to what well-formedness does not
    read, and [h'] has the nodes [new] besides. *)
Lemma ext_length h h' new :
  core <$> h' = (core <$> h) ++ new -> length h' = length h + length new.
Proof.
  intros E. apply (f_equal length) in E.
  now rewrite length_app, !length_fmap in E.
Qed.

Lemma ext_old h h' new i nd :
  core <$> h' = (core <$> h) ++ new -> h !! i = Some nd ->
  exists nd', h' !! i = Some nd' /\ core nd' = core nd.
Proof.
  intros E H. assert (Hc : (core <$> h') !! i = Some (core nd)).
  { rewrite E, lookup_app_l by (rewrite length_fmap; eauto using lookup_lt_Some).
    now rewrite list_lookup_fmap, H. }
  rewrite list_lookup_fmap in Hc.
  destruct (h' !! i) as [nd'|]; [|discriminate].
  exists nd'. split; [reflexivity|].
  change (Some (core nd') = Some (core nd)) in Hc. congruence.
Qed.

Lemma ext_inv h h' new i nd' :
  core <$> h' = (core <$> h) ++ new -> h' !! i = Some nd' ->
  (exists nd, h !! i = Some nd /\ core nd = core nd')
  \/ (length h <= i /\ new !! (i - length h) = Some (core nd')).
Proof.
  intros E H. assert (Hc : (core <$> h') !! i = Some (core nd'))
    by now rewrite list_lookup_fmap, H.
  rewrite E in Hc. destruct (decide (i < length h)) as [Hlt|Hge].
  - left. rewrite lookup_app_l in Hc by now rewrite length_fmap.
    rewrite list_lookup_fmap in Hc.
    destruct (h !! i) as [nd|]; [|discriminate].
    exists nd. split; [reflexivity|].
    change (Some (core nd) = Some (core nd')) in Hc. congruence.
  - right. split; [lia|].
    rewrite lookup_app_r in Hc by (rewrite length_fmap; lia).
    now rewrite length_fmap in Hc.
Qed.

Lemma ext_cls_old h h' new i c :
  core <$> h' = (core <$> h) ++ new ->
  cls_at h i = Some c -> cls_at h' i = Some c.
Proof.
  unfold cls_at. intros E H.
  destruct (h !! i) as [nd|] eqn:Hi; [|discriminate].
  destruct (ext_old _ _ _ _ _ E Hi) as (nd' & -> & Hc).
  apply core_fields in Hc as (Hc & _). simpl in *. congruence.
Qed.

Lemma ext_cls_inv h h' new i c :
  core <$> h' = (core <$> h) ++ new -> i < length h ->
  cls_at h' i = Some c -> cls_at h i = Some c.
Proof.
  unfold cls_at. intros E Hlt H.
  destruct (h' !! i) as [nd'|] eqn:Hi; [|discriminate].
  destruct (ext_inv _ _ _ _ _ E Hi) as [(nd & -> & Hc)|[Hge _]]; [|lia].
  apply core_fields in Hc as (Hc & _). simpl in *. congruence.
Qed.

Lemma ext_cls_new h h' c p s a :
  core <$> h' = (core <$> h) ++ [(c, p, s, a)] ->
  cls_at h' (length h) = Some c.
Proof.
  unfold cls_at. intros E.
  assert (Hc : (core <$> h') !! length h = Some (c, p, s, a)).
  { rewrite E, lookup_app_r by now rewrite length_fmap.
    now rewrite length_fmap, Nat.sub_diag. }
  rewrite list_lookup_fmap in Hc.
  destruct (h' !! length h) as [nd|]; [|discriminate].
  inversion Hc. reflexivity.
Qed.

Lemma cls_at_lt h i c : cls_at h i = Some c -> i < length h.
Proof.
  unfold cls_at. destruct (h !! i) eqn:E; [|discriminate].
  intros _. eauto using lookup_lt_Some.
Qed.

Lemma ext_typed h h' new r c :
  core <$> h' = (core <$> h) ++ new -> typed h r c -> typed h' r c.
Proof. intros E H i Hi. eapply ext_cls_old; eauto. Qed.

Lemma ext_valid h h' new r :
  core <$> h' = (core <$> h) ++ new -> valid h r -> valid h' r.
Proof.
  intros E H i Hi. apply ext_length in E. specialize (H i Hi). lia.
Qed.

Lemma ext_parent_fits h h' new c p :
  core <$> h' = (core <$> h) ++ new -> parent_fits h c p -> parent_fits h' c p.
Proof.
  intros E. destruct c; simpl; eauto using ext_valid;
    intros (x & -> & H); exists x; eauto using ext_cls_old.
Qed.

Lemma ext_pointers h h' new cfb cs css ci cp :
  core <$> h' = (core <$> h) ++ new ->
  pointers_ok h cfb cs css ci cp -> pointers_ok h' cfb cs css ci cp.
Proof.
  intros E (H1 & H2 & H3 & H4 & H5 & H6).
  repeat split; eauto using ext_typed, ext_valid.
  intros p Hp Hc. apply (H6 p Hp).
  eapply ext_cls_inv; eauto.
Qed.

Lemma typed_None h c : typed h None c.
Proof. intros i Hi. discriminate. Qed.

Lemma typed_Some h i c : cls_at h i = Some c -> typed h (Some i) c.
Proof. intros H j Hj. now inversion Hj; subst. Qed.

Lemma valid_None h : valid h None.
Proof. intros i Hi. discriminate. Qed.

Lemma valid_Some h i : i < length h -> valid h (Some i).
Proof. intros H j Hj. now inversion Hj; subst. Qed.

(** A state with the nodes of a well-formed one, up to what
    well-formedness does not read. *)
Lemma wf_same_cores st st' :
  well_formed st ->
  core <$> heap st' = core <$> heap st ->
  file_blocks st' = file_blocks st ->
  items_by_name st' = items_by_name st ->
  pointers_ok (heap st) (curr_file_block st') (curr_section st')
    (curr_subsection st') (curr_item st') (curr_parent st') ->
  (forall t pc c data cb,
     header_defs st' !! t = Some (pc, c, data, Some cb) -> pc = Some ItemBlock) ->
  well_formed st'.
Proof.
  intros [Hp Hf Hn Hi Hc Hptr Hcb] E Ef Ei Hptr' Hcb'.
  assert (E0 : core <$> heap st' = (core <$> heap st) ++ [])
    by now rewrite app_nil_r.
  assert (E1 : core <$> heap st = (core <$> heap st') ++ [])
    by now rewrite app_nil_r.
  split.
  - intros i nd' Hnd'.
    destruct (ext_old _ _ _ _ _ E1 Hnd') as (nd & Hnd & Hcore).
    apply core_fields in Hcore as (Hcl & Hpa & _).
    destruct (Hp i nd Hnd) as [Hfit Hold]. rewrite <- Hcl, <- Hpa.
    split; [eauto using ext_parent_fits | exact Hold].
  - intros f. rewrite Ef, Hf. split; eauto using ext_cls_old.
  - now rewrite Ef.
  - intros k i Hk. rewrite Ei in Hk.
    destruct (Hi k i Hk) as (nd & Hnd & Hcl & Hin).
    destruct (ext_old _ _ _ _ _ E0 Hnd) as (nd' & Hnd' & Hcore).
    exists nd'. split; [exact Hnd'|].
    rewrite (core_names _ _ Hcore).
    apply core_fields in Hcore as (-> & _). auto.
  - intros i nd' k Hnd' Hcl Hin. rewrite Ei.
    destruct (ext_old _ _ _ _ _ E1 Hnd') as (nd & Hnd & Hcore).
    rewrite <- (core_names _ _ Hcore) in Hin.
    apply core_fields in Hcore as (Hcl' & _).
    eapply Hc; eauto. congruence.
  - eauto using ext_pointers.
  - exact Hcb'.
Qed.

(** A state with one node more than a well-formed one: the node has the
    parent that goes with its class; a File is listed, an Item is put in
    the index under its subtitle. *)
Lemma wf_new_node st st' c p s :
  well_formed st ->
  core <$> heap st' = (core <$> heap st) ++ [(c, p, s, [])] ->
  parent_fits (heap st) c p ->
  file_blocks st'
  = (if BlockCls_eqb c FileBlock then file_blocks st ++ [length (heap st)]
     else file_blocks st) ->
  items_by_name st'
  = (if BlockCls_eqb c ItemBlock
     then <[s := length (heap st)]> (items_by_name st)
     else items_by_name st) ->
  pointers_ok (heap st') (curr_file_block st') (curr_section st')
    (curr_subsection st') (curr_item st') (curr_parent st') ->
  (forall t pc c data cb,
     header_defs st' !! t = Some (pc, c, data, Some cb) -> pc = Some ItemBlock) ->
  well_formed st'.
Proof.
  intros [Hp Hf Hn Hi Hc Hptr Hcb] E Hfit Ef Ei Hptr' Hcb'.
  pose proof (ext_length _ _ _ E) as Hlen. cbn [length] in Hlen.
  pose proof (ext_cls_new _ _ _ _ _ _ E) as Hnew.
  assert (Hvalid : valid (heap st) p).
  { intros x ->. destruct c; simpl in Hfit;
      try (now apply Hfit); try discriminate;
      destruct Hfit as (y & Hy & Hcl); inversion Hy; subst;
      eauto using cls_at_lt. }
  split.
  - intros i nd' Hnd'.
    destruct (ext_inv _ _ _ _ _ E Hnd') as [(nd & Hnd & Hcore)|[Hge Hcore]].
    + apply core_fields in Hcore as (Hcl & Hpa & _).
      destruct (Hp i nd Hnd) as [Hfit' Hold]. rewrite <- Hcl, <- Hpa.
      split; [eauto using ext_parent_fits | exact Hold].
    + pose proof (lookup_lt_Some _ _ _ Hnd') as Hlt.
      assert (i = length (heap st)) by lia. subst i.
      rewrite Nat.sub_diag in Hcore.
      apply core_tuple in Hcore as (H1 & H2 & _). rewrite H1, H2.
      split; [eapply ext_parent_fits; [exact E | exact Hfit]|].
      intros x Hx. apply Hvalid. exact Hx.
  - intros f. rewrite Ef. destruct (BlockCls_eqb c FileBlock) eqn:Ec.
    + assert (c = FileBlock) by (destruct c; (discriminate || reflexivity)).
      subst c. rewrite elem_of_app, list_elem_of_singleton, Hf. split.
      * intros [H| ->]; [eauto using ext_cls_old | exact Hnew].
      * intros H. destruct (decide (f < length (heap st))) as [Hlt|Hge].
        -- left. eapply ext_cls_inv; eauto.
        -- right. apply cls_at_lt in H. lia.
    + rewrite Hf. split; [eauto using ext_cls_old|].
      intros H. destruct (decide (f < length (heap st))) as [Hlt|Hge].
      * eapply ext_cls_inv; eauto.
      * apply cls_at_lt in H as Hlt. assert (f = length (heap st)) by lia.
        subst f. rewrite Hnew in H. inversion H; subst.
        discriminate.
  - rewrite Ef. destruct (BlockCls_eqb c FileBlock); [|exact Hn].
    apply NoDup_app. split; [exact Hn|]. split; [|apply NoDup_singleton].
    intros x Hx Hx'. apply list_elem_of_singleton in Hx'. subst x.
    apply Hf, cls_at_lt in Hx. lia.
  - intros k i Hk. rewrite Ei in Hk.
    assert (Hold : items_by_name st !! k = Some i ->
                   exists nd, heap st' !! i = Some nd /\ cls nd = ItemBlock
                              /\ k ∈ names_of nd).
    { intros Hk'. destruct (Hi k i Hk') as (nd & Hnd & Hcl & Hin).
      destruct (ext_old _ _ _ _ _ E Hnd) as (nd' & Hnd' & Hcore).
      exists nd'. split; [exact Hnd'|].
      rewrite (core_names _ _ Hcore).
      apply core_fields in Hcore as (-> & _). auto. }
    destruct (BlockCls_eqb c ItemBlock) eqn:Ec; [|auto].
    destruct (decide (s = k)) as [->|Hne].
    + rewrite lookup_insert_eq in Hk. inversion Hk; subst i.
      unfold cls_at in Hnew.
      destruct (heap st' !! length (heap st)) as [nd|] eqn:Hnd; [|discriminate].
      exists nd. split; [reflexivity|].
      destruct (ext_inv _ _ _ _ _ E Hnd) as [(nd0 & Hnd0 & _)|[_ Hcore]].
      { apply lookup_lt_Some in Hnd0. lia. }
      rewrite Nat.sub_diag in Hcore.
      apply core_tuple in Hcore as (H1 & _ & H3 & _).
      split; [rewrite H1; destruct c; (discriminate || reflexivity)|].
      unfold names_of. rewrite H3. left.
    + rewrite lookup_insert_ne in Hk by exact Hne. auto.
  - intros i nd' k Hnd' Hcl Hin. rewrite Ei.
    destruct (ext_inv _ _ _ _ _ E Hnd') as [(nd & Hnd & Hcore)|[Hge Hcore]].
    + rewrite <- (core_names _ _ Hcore) in Hin.
      apply core_fields in Hcore as (Hcl' & _).
      assert (Hk : is_Some (items_by_name st !! k))
        by (eapply Hc; eauto; congruence).
      destruct (BlockCls_eqb c ItemBlock); [|exact Hk].
      destruct (decide (s = k)) as [->|Hne];
        [rewrite lookup_insert_eq; eauto
        | now rewrite lookup_insert_ne by exact Hne].
    + pose proof (lookup_lt_Some _ _ _ Hnd') as Hlt.
      assert (i = length (heap st)) by lia. subst i.
      rewrite Nat.sub_diag in Hcore.
      apply core_tuple in Hcore as (H1 & _ & H3 & H4).
      rewrite <- H1, Hcl. cbn.
      unfold names_of in Hin. rewrite H3, H4 in Hin.
      apply list_elem_of_singleton in Hin. subst k.
      rewrite lookup_insert_eq. eauto.
  - exact Hptr'.
  - exact Hcb'.
Qed.
(* ===================================================================== *)
(** ** What a block does to the log *)
(* ===================================================================== *)

Lemma keeps_log_ret t {A} (a : A) : keeps_log t (ret a).
Proof. intros st. reflexivity. Qed.

Lemma keeps_log_gets t {A} (g : State -> A) : keeps_log t (gets g).
Proof. intros st. reflexivity. Qed.

Lemma keeps_log_modify t (f : State -> State) :
  (forall st, errorlog (f st) = errorlog st) -> keeps_log t (modify f).
Proof. intros H st. apply H. Qed.

Lemma keeps_log_raise t {A} msg :
  keeps_log t (raise (A := A) (DocsGenException t msg)).
Proof. intros st. split; [reflexivity | eauto]. Qed.

Lemma keeps_log_raise_attr t {A} msg :
  keeps_log t (raise (A := A) (AttributeError msg)).
Proof. intros st. split; [reflexivity | eauto]. Qed.

Lemma keeps_log_bind t {A B} (m : M A) (f : A -> M B) :
  keeps_log t m -> (forall a, keeps_log t (f a)) -> keeps_log t (bind m f).
Proof.
  intros Hm Hf st. unfold bind. specialize (Hm st).
  destruct (m st) as [st1 a|st1 e]; [|exact Hm].
  specialize (Hf a st1). destruct (f a st1) as [st2 b|st2 e].
  - congruence.
  - destruct Hf as [Hl He]. split; [congruence | exact He].
Qed.

Lemma keeps_log_when t b (m : M unit) :
  keeps_log t m -> keeps_log t (when b m).
Proof. destruct b; [auto | intros _; apply keeps_log_ret]. Qed.

Lemma keeps_log_for_each t {A} (l : list A) (f : A -> M unit) :
  (forall a, keeps_log t (f a)) -> keeps_log t (for_each l f).
Proof.
  intros Hf. induction l as [|x l IH]; cbn [for_each].
  - apply keeps_log_ret.
  - apply keeps_log_bind; [apply Hf | intros _; exact IH].
Qed.

Lemma keeps_log_new_block t c ti s b o p m hs :
  keeps_log t (new_block c ti s b o p m hs).
Proof. intros st. reflexivity. Qed.

Ltac keeps_log_step :=
  match goal with
  | |- keeps_log _ (bind _ _) => apply keeps_log_bind; [|intros ?]
  | |- keeps_log _ (ret _) => apply keeps_log_ret
  | |- keeps_log _ (gets _) => apply keeps_log_gets
  | |- keeps_log _ (new_block _ _ _ _ _ _ _ _) => apply keeps_log_new_block
  | |- keeps_log _ (raise (DocsGenException _ _)) => apply keeps_log_raise
  | |- keeps_log _ (raise (AttributeError _)) => apply keeps_log_raise_attr
  | |- keeps_log _ (when _ _) => apply keeps_log_when
  | |- keeps_log _ (for_each _ _) => apply keeps_log_for_each; intros ?
  | |- keeps_log _ (modify _) => apply keeps_log_modify; intros ?; reflexivity
  | |- keeps_log _ (upd_node _ _) => apply keeps_log_modify; intros ?; reflexivity
  | |- keeps_log _ (upd_opts _) => apply keeps_log_modify; intros ?; reflexivity
  | |- keeps_log _ (define _ _) => apply keeps_log_modify; intros ?; reflexivity
  | |- keeps_log _ (if ?b then _ else _) => destruct b
  | |- keeps_log _ (match ?x with _ => _ end) => destruct x
  end.

Lemma keeps_log_mkfilenode t o : keeps_log t (_mkfilenode o).
Proof. unfold _mkfilenode. repeat keeps_log_step. Qed.

Lemma keeps_log_define_blocktype title meta :
  keeps_log "DefineHeader" (_define_blocktype title meta).
Proof. unfold _define_blocktype. repeat keeps_log_step. Qed.

Lemma keeps_log_block_per_line t c ti s b o p m :
  keeps_log t (block_per_line c ti s b o p m).
Proof.
  revert s. induction b as [|l b IH]; intros s; cbn [block_per_line].
  - apply keeps_log_ret.
  - repeat keeps_log_step. apply IH.
Qed.

Lemma keeps_log_callback t cb s : keeps_log t (run_callback cb s).
Proof.
  destruct cb; unfold run_callback, _status_block_cb, _alias_block_cb;
    repeat keeps_log_step.
Qed.

Lemma keeps_log_registered t d m s b o p :
  keeps_log t (registered_block d t m s b o p).
Proof.
  destruct d as [[[pc c] data] cb]. unfold registered_block.
  repeat keeps_log_step; apply keeps_log_callback.
Qed.

Lemma keeps_log_declare_item t s b o : keeps_log t (declare_item t s b o).
Proof.
  unfold declare_item.
  repeat first [apply keeps_log_mkfilenode | keeps_log_step].
Qed.

Section Log.

Variable env : Env.

Lemma keeps_log_dispatch title meta subtitle body origin :
  keeps_log title (dispatch env title meta subtitle body origin).
Proof.
  unfold dispatch. apply keeps_log_bind; [apply keeps_log_gets|]. intros parent.
  destruct (title == "DefineHeader") eqn:E.
  { apply String.eqb_eq in E. subst. apply keeps_log_define_blocktype. }
  unfold rc_only, no_body, need_subtitle, generate_docs_part, upd_file.
  repeat first [ apply keeps_log_mkfilenode
               | apply keeps_log_block_per_line
               | apply keeps_log_registered
               | apply keeps_log_declare_item
               | keeps_log_step ].
Qed.

End Log.

Lemma body_loop_raises title rest : forall first indent body n e,
  body_loop title rest first indent body n = inl e -> e = under_indented title.
Proof.
  induction rest as [|l rest IH]; intros first indent body n e H;
    cbn [body_loop] in H; [discriminate|].
  destruct (negb (Py.startswith l ("//" +:+ Py.mul " " indent))).
  - destruct (Py.startswith l "//  "); [|discriminate]. now inversion H.
  - now apply IH in H.
Qed.

Lemma skip_loop_log rest n st :
  errorlog (skip_loop rest n st).1 = errorlog st.
Proof. apply (same_log _ _ (skip_loop_same rest n st)). Qed.

Lemma after_block_log lines k st :
  exists st' k', after_block lines k st = Return st' k' /\ k <= k'
                 /\ errorlog st' = errorlog st.
Proof.
  destruct (after_block_same lines k st) as (st' & k' & E & Hs).
  destruct (after_block_ge lines k st) as (st2 & k2 & E2 & Hk).
  rewrite E in E2. inversion E2; subst.
  exists st2, k2. split; [exact E|]. split; [exact Hk | apply Hs].
Qed.

Section Log.

Variable env : Env.

(** One turn of [parse_lines]: at most one entry is added to the log, for
    a header between the line where the turn starts and the line where it
    ends; when the turn ends with an exception, nothing is added. *)
Lemma _parse_block_log lines n src st :
  match _parse_block env lines n src st with
  | Return st' n' =>
      n <= n'
      /\ exists new,
           errorlog st' = errorlog st ++ new /\ length new <= 1
           /\ Forall (fun e => entry_of lines src e
                               /\ n < log_line e <= n') new
  | Raise st' e =>
      errorlog st' = errorlog st
      /\ exists title hdr,
           header_at lines hdr title /\ n < hdr
           /\ (e = under_indented title \/ exists msg, e = AttributeError msg)
  end.
Proof.
  unfold _parse_block, bind at 1, _skip_lines.
  pose proof (skip_loop_log (drop n lines) n st) as Hlog.
  destruct (skip_loop (drop n lines) n st) as [st1 h] eqn:E. cbn [fst] in Hlog.
  apply skip_loop_spec in E as [Hle Hh].
  destruct (length lines <=? h) eqn:Hend.
  - cbn. split; [exact Hle|]. exists []. rewrite app_nil_r.
    split; [exact Hlog|]. split; [cbn; lia | constructor].
  - apply Nat.leb_gt in Hend.
    destruct Hh as [-> | (line & Hl & Hm)].
    { rewrite length_drop in Hend. lia. }
    rewrite lookup_drop in Hl. replace (n + (h - n)) with h in Hl by lia.
    rewrite Hl.
    destruct (header_match line) as [[[title meta] subtitle]|] eqn:Hhm;
      [|discriminate].
    assert (Hat : header_at lines (h + 1) title).
    { exists line, meta, subtitle. split; [lia|].
      replace (h + 1 - 1) with h by lia. now split. }
    destruct (extract_body title lines (h + 1)) as [e|[body k]] eqn:Eb.
    + cbn. split; [exact Hlog|]. exists title, (h + 1).
      split; [exact Hat|]. split; [lia|]. left.
      unfold extract_body in Eb. now apply body_loop_raises in Eb.
    + unfold extract_body in Eb. apply body_loop_ge in Eb.
      unfold try_log, bind.
      pose proof (keeps_log_dispatch env title meta subtitle body
                    (mkOrigin src (h + 1)) st1) as Hd.
      destruct (dispatch env title meta subtitle body (mkOrigin src (h + 1)) st1)
        as [st2 []|st2 e].
      * destruct (after_block_log lines k st2) as (st3 & k' & -> & Hk & Hl3).
        split; [lia|]. exists []. rewrite app_nil_r.
        split; [congruence|]. split; [cbn; lia | constructor].
      * destruct Hd as [Hl2 (msg & [-> | ->])].
        -- split; [congruence|]. exists title, (h + 1).
           split; [exact Hat|]. split; [lia|]. right. eauto.
        -- cbn. split; [lia|]. eexists [_].
           split; [rewrite Hl2, Hlog; reflexivity|].
           split; [cbn; lia|]. constructor; [|constructor].
           split; [|cbn; lia].
           split; [reflexivity|]. split; [reflexivity|]. cbn. eauto.
Qed.

Lemma parse_loop_log lines src : forall fuel n st,
  exists new,
    errorlog (state_of (parse_loop env fuel lines n src st))
    = errorlog st ++ new
    /\ Forall (fun e => entry_of lines src e /\ n < log_line e) new
    /\ StronglySorted (fun a b => log_line a < log_line b) new.
Proof.
  induction fuel as [|fuel IH]; intros n st; cbn [parse_loop].
  - exists []. rewrite app_nil_r.
    destruct (length lines <=? n); repeat split; constructor.
  - destruct (length lines <=? n) eqn:Hend.
    { exists []. rewrite app_nil_r. repeat split; constructor. }
    pose proof (_parse_block_log lines n src st) as Hb.
    destruct (_parse_block env lines n src st) as [st1 n1|st1 e].
    + destruct Hb as (Hle & new1 & Hl1 & Hlen & Hall1).
      destruct (IH n1 st1) as (new2 & Hl2 & Hall2 & Hs2).
      exists (new1 ++ new2). split; [rewrite Hl2, Hl1; now rewrite app_assoc|].
      split.
      * apply Forall_app. split.
        -- eapply Forall_impl; [exact Hall1|]. cbn. intros e [He Hn].
           split; [exact He | lia].
        -- eapply Forall_impl; [exact Hall2|]. cbn. intros e [He Hn].
           split; [exact He | lia].
      * destruct new1 as [|e1 [|e1' new1]]; [exact Hs2| |cbn in Hlen; lia].
        cbn. constructor; [exact Hs2|].
        apply Forall_cons in Hall1 as [[_ H1] _].
        eapply Forall_impl; [exact Hall2|]. cbn. intros e [_ He]. lia.
    + cbn. exists []. rewrite app_nil_r. destruct Hb as [Hl _].
      split; [exact Hl|]. split; constructor.
Qed.

End Log.

(** X9 ([parse_lines], [_parse_block]).  Whatever the state it starts
    from and however it ends, [parse_lines] only adds to the log: the
    entries that were there stay, and each new entry has the level FAIL,
    names the source file given to [parse_lines] and the line of a header
    of the text, and holds a [DocsGenException] raised in the name of that
    header's title; the new entries come in the order of their lines, one
    at most per header. *)
Theorem log_entries_point_at_headers (env : Env) (lines : list string)
  (src_file : string) (st : State) :
  exists new,
    errorlog (state_of (parse_lines env lines 0 src_file st))
    = errorlog st ++ new
    /\ Forall (entry_of lines src_file) new
    /\ StronglySorted (fun a b => log_line a < log_line b) new.
Proof.
  destruct (parse_loop_log env lines src_file (length lines - 0) 0 st)
    as (new & Hl & Hall & Hs).
  exists new. split; [|split; [|exact Hs]].
  - unfold parse_lines, bind.
    destruct (parse_loop env (length lines - 0) lines 0 src_file st);
      exact Hl.
  - eapply Forall_impl; [exact Hall|]. cbn. tauto.
Qed.
(* ===================================================================== *)
(** ** The steps of a block keep the state well-formed *)
(* ===================================================================== *)

Lemma cores_alter (f : Node -> Node) (i : nat) (h : list Node) :
  (forall nd, core (f nd) = core nd) -> core <$> alter f i h = core <$> h.
Proof.
  intros Hf. revert i. induction h as [|x h IH]; intros i; [reflexivity|].
  destruct i as [|i]; cbn.
  - now rewrite Hf.
  - f_equal. apply IH.
Qed.

Lemma cores_attach p id (h : list Node) :
  core <$> attach p id h = core <$> h.
Proof.
  destruct p as [p|]; [|reflexivity]. now apply cores_alter.
Qed.

Lemma cores_new_block c t s b o p m hs (h : list Node) :
  core <$> attach p (length h) (h ++ [new_node c t s b o p m hs])
  = (core <$> h) ++ [(c, p, s, [])].
Proof. now rewrite cores_attach, fmap_app. Qed.

(** *** The rules of [safe] *)

Lemma safe_ret t {A} (a : A) st (Q : A -> State -> Prop) :
  well_formed st -> Q a st -> safe t (ret a) st Q.
Proof. intros; split; assumption. Qed.

Lemma safe_raise t {A} e st (Q : A -> State -> Prop) :
  well_formed st -> raised_for t e -> safe t (raise e) st Q.
Proof. intros; split; assumption. Qed.

Lemma safe_raise_title t {A} msg st (Q : A -> State -> Prop) :
  well_formed st -> safe t (raise (DocsGenException t msg)) st Q.
Proof. intros; apply safe_raise; [assumption | right; eauto]. Qed.

Lemma safe_bind t {A B} (m : M A) (f : A -> M B) st Q1 Q2 :
  safe t m st Q1 ->
  (forall st1 a, well_formed st1 -> Q1 a st1 -> safe t (f a) st1 Q2) ->
  safe t (bind m f) st Q2.
Proof.
  unfold safe, bind. destruct (m st) as [st1 a|st1 e]; [|auto].
  intros [Hwf HQ] Hf. exact (Hf st1 a Hwf HQ).
Qed.

Lemma safe_weaken t {A} (m : M A) st (Q1 Q2 : A -> State -> Prop) :
  safe t m st Q1 -> (forall a st', well_formed st' -> Q1 a st' -> Q2 a st') ->
  safe t m st Q2.
Proof.
  unfold safe. destruct (m st) as [st1 a|st1 e]; [|auto].
  intros [Hwf HQ] H. auto.
Qed.

Lemma safe_bind_gets t {A B} (g : State -> A) (f : A -> M B) st Q :
  safe t (f (g st)) st Q -> safe t (bind (gets g) f) st Q.
Proof. exact id. Qed.

Lemma safe_bind_modify t {B} (g : State -> State) (f : unit -> M B) st Q :
  safe t (f tt) (g st) Q -> safe t (bind (modify g) f) st Q.
Proof. exact id. Qed.

Lemma safe_modify t (g : State -> State) st (Q : unit -> State -> Prop) :
  well_formed (g st) -> Q tt (g st) -> safe t (modify g) st Q.
Proof. intros; split; assumption. Qed.

(** *** States that differ in what well-formedness does not read *)

Lemma wf_frame st st' :
  well_formed st ->
  core <$> heap st' = core <$> heap st ->
  file_blocks st' = file_blocks st ->
  items_by_name st' = items_by_name st ->
  curr_file_block st' = curr_file_block st ->
  curr_section st' = curr_section st ->
  curr_subsection st' = curr_subsection st ->
  curr_item st' = curr_item st ->
  curr_parent st' = curr_parent st ->
  header_defs st' = header_defs st ->
  well_formed st'.
Proof.
  intros Hwf E Ef Ei E1 E2 E3 E4 E5 Ed.
  apply (wf_same_cores st); try assumption.
  - rewrite E1, E2, E3, E4, E5. apply Hwf.
  - rewrite Ed. apply Hwf.
Qed.

Ltac frame Hwf :=
  apply (wf_frame _ _ Hwf); try reflexivity.

Lemma wf_upd_node st i f :
  well_formed st -> (forall nd, core (f nd) = core nd) ->
  well_formed (set_heap (alter f i (heap st)) st).
Proof.
  intros Hwf Hf. frame Hwf. cbn. now apply cores_alter.
Qed.

Lemma wf_set_opts st o : well_formed st -> well_formed (set_opts o st).
Proof. intros Hwf. now frame Hwf. Qed.

Lemma wf_set_errorlog st l : well_formed st -> well_formed (set_errorlog l st).
Proof. intros Hwf. now frame Hwf. Qed.

Lemma wf_close_item st : well_formed st -> well_formed (close_item st).
Proof.
  intros Hwf. unfold close_item. destruct (curr_item st) as [i|] eqn:Ei;
    [|exact Hwf].
  destruct (wf_pointers _ Hwf) as (H1 & H2 & H3 & H4 & H5 & H6).
  pose proof (H4 i Ei) as Hcl. unfold cls_at in Hcl.
  destruct (heap st !! i) as [nd|] eqn:Hnd; [|discriminate].
  cbn in Hcl. inversion Hcl as [Hc].
  destruct (wf_parents _ Hwf i nd Hnd) as [Hfit Hold].
  rewrite Hc in Hfit. destruct Hfit as (s & Hs & Hsec).
  apply (wf_same_cores st); try reflexivity; try apply Hwf.
  cbn. unfold node_parent. rewrite Hnd. cbn. rewrite Hs.
  repeat split; try assumption.
  - apply typed_None.
  - apply valid_Some. eauto using cls_at_lt.
  - intros p Hp Hit. inversion Hp; subst. congruence.
Qed.

Lemma wf_skip_loop rest : forall n st,
  well_formed st -> well_formed (skip_loop rest n st).1.
Proof.
  induction rest as [|l rest IH]; intros n st Hwf; cbn [skip_loop].
  - now apply wf_close_item.
  - set (st1 := if is_some (curr_item st) && negb (Py.startswith l "//")
                then close_item st else st).
    assert (Hwf1 : well_formed st1).
    { subst st1. destruct (_ && _); [now apply wf_close_item | exact Hwf]. }
    destruct (is_some (header_match l)); [exact Hwf1 | now apply IH].
Qed.

Lemma wf_after_block lines k st :
  well_formed st ->
  exists st' k', after_block lines k st = Return st' k' /\ well_formed st'.
Proof.
  intros Hwf. unfold after_block, bind, when, modify, ret, _skip_lines.
  destruct (_ || _).
  - pose proof (wf_skip_loop (drop k lines) k (close_item st)
                  (wf_close_item _ Hwf)) as H.
    destruct (skip_loop (drop k lines) k (close_item st)) as [st' k'].
    eauto.
  - pose proof (wf_skip_loop (drop k lines) k st Hwf) as H.
    destruct (skip_loop (drop k lines) k st) as [st' k']. eauto.
Qed.

(** *** Nodes *)

Lemma heap_new_block c t s b o p m hs st :
  new_block c t s b o p m hs st
  = Return (set_heap (attach p (length (heap st))
                        (heap st ++ [new_node c t s b o p m hs])) st)
      (length (heap st)).
Proof. reflexivity. Qed.

Lemma ext_new_valid h h' x :
  core <$> h' = (core <$> h) ++ [x] -> valid h' (Some (length h)).
Proof.
  intros E. apply valid_Some. apply ext_length in E. cbn in E. lia.
Qed.

Lemma ext_new_typed h h' c p s a :
  core <$> h' = (core <$> h) ++ [(c, p, s, a)] -> typed h' (Some (length h)) c.
Proof. intros E. apply typed_Some. eapply ext_cls_new; eauto. Qed.

(** A block that hangs anywhere is added: the pointers stay. *)
Lemma wf_leaf st c t s b o p m hs :
  well_formed st -> valid (heap st) p -> is_leaf c = true ->
  well_formed (set_heap (attach p (length (heap st))
                           (heap st ++ [new_node c t s b o p m hs])) st).
Proof.
  intros Hwf Hp Hc.
  apply (wf_new_node st _ c p s); try assumption.
  - apply cores_new_block.
  - destruct c; try discriminate; exact Hp.
  - destruct c; try discriminate; reflexivity.
  - destruct c; try discriminate; reflexivity.
  - eapply ext_pointers; [apply cores_new_block | apply Hwf].
  - apply Hwf.
Qed.

Lemma safe_leaf title st c t s b o p m hs :
  well_formed st -> valid (heap st) p -> is_leaf c = true ->
  safe title (new_block c t s b o p m hs ;; ret tt) st
    (fun _ st' => length (heap st) <= length (heap st')).
Proof.
  intros Hwf Hp Hc. split; [now apply wf_leaf|].
  cbn. rewrite length_attach, length_app. lia.
Qed.

Lemma safe_block_per_line title c t o p m body : forall s st,
  well_formed st -> valid (heap st) p -> is_leaf c = true ->
  safe title (block_per_line c t s body o p m) st (fun _ _ => True).
Proof.
  induction body as [|l body IH]; intros s st Hwf Hp Hc; cbn [block_per_line].
  - now apply safe_ret.
  - unfold safe, bind. rewrite heap_new_block. apply IH; [|..|exact Hc].
    + now apply wf_leaf.
    + intros i Hi. cbn. rewrite length_attach, length_app.
      specialize (Hp i Hi). lia.
Qed.

(** *** Registered headers *)

Lemma wf_define st t pc c data :
  well_formed st ->
  well_formed (set_header_defs (<[t := (pc, c, data, None)]> (header_defs st)) st).
Proof.
  intros Hwf. apply (wf_same_cores st); try reflexivity; try apply Hwf.
  cbn. intros t' pc' c' data' cb H.
  destruct (decide (t = t')) as [->|Hne].
  - rewrite lookup_insert_eq in H. discriminate.
  - rewrite lookup_insert_ne in H by exact Hne.
    eapply wf_callbacks; eauto.
Qed.

Lemma safe_define_blocktype title meta st :
  well_formed st ->
  safe "DefineHeader" (_define_blocktype title meta) st (fun _ _ => True).
Proof.
  intros Hwf. unfold _define_blocktype, define.
  repeat match goal with
         | |- safe _ (if ?b then _ else _) _ _ => destruct b
         | |- safe _ (match ?x with _ => _ end) _ _ => destruct x
         | |- safe _ (modify _) _ _ =>
             apply safe_modify; [now apply wf_define | exact I]
         | |- safe _ (raise (DocsGenException _ _)) _ _ =>
             now apply safe_raise_title
         | |- safe _ (raise (AttributeError _)) _ _ =>
             apply safe_raise; [exact Hwf | left; now split]
         end.
Qed.

(** *** The File node *)

Lemma not_item_new h h' c p s a ci :
  core <$> h' = (core <$> h) ++ [(c, p, s, a)] -> c <> ItemBlock ->
  forall x, Some (length h) = Some x -> cls_at h' x = Some ItemBlock ->
            ci = Some x.
Proof.
  intros E Hc x Hx Hcl. inversion Hx; subst x.
  rewrite (ext_cls_new _ _ _ _ _ _ E) in Hcl. congruence.
Qed.

Lemma item_parent_old h h' new ci cp :
  core <$> h' = (core <$> h) ++ new -> valid h cp ->
  (forall p, cp = Some p -> cls_at h p = Some ItemBlock -> ci = Some p) ->
  forall p, cp = Some p -> cls_at h' p = Some ItemBlock -> ci = Some p.
Proof.
  intros E Hv H p Hp Hcl. apply (H p Hp).
  eapply ext_cls_inv; eauto.
Qed.

Ltac pointers E Hwf :=
  let H1 := fresh in let H2 := fresh in let H3 := fresh in
  let H4 := fresh in let H5 := fresh in let H6 := fresh in
  destruct (wf_pointers _ Hwf) as (H1 & H2 & H3 & H4 & H5 & H6);
  repeat split;
  eauto using typed_None, ext_typed, ext_new_typed, valid_None, ext_valid,
    ext_new_valid, item_parent_old.

Lemma safe_mkfilenode title o st :
  well_formed st ->
  safe title (_mkfilenode o) st
    (fun _ st' => is_Some (curr_file_block st')
                  /\ length (heap st) <= length (heap st')
                  /\ curr_section st' = curr_section st
                  /\ curr_item st' = curr_item st).
Proof.
  intros Hwf. unfold _mkfilenode. apply safe_bind_gets.
  destruct (curr_file_block st) as [f|] eqn:Hf.
  - apply safe_ret; [exact Hwf|]. rewrite Hf. eauto.
  - unfold safe, bind. rewrite heap_new_block. cbn.
    split; [|split; [eauto | split; [rewrite length_app; lia | auto]]].
    set (n := new_node FileBlock "LibFile" (file o) [] o None "" None).
    assert (E : core <$> heap st ++ [n]
                = (core <$> heap st) ++ [(FileBlock, None, file o, [])])
      by now rewrite fmap_app.
    apply (wf_new_node st _ FileBlock None (file o));
      try assumption; try reflexivity; [|apply Hwf].
    cbn. pointers E Hwf.
    eapply not_item_new; [exact E | discriminate].
Qed.

(** *** The checks and the options *)

Lemma safe_rc_only title o st :
  well_formed st -> safe title (rc_only title o) st (fun _ st' => st' = st).
Proof.
  intros Hwf. unfold rc_only. destruct (negb _).
  - now apply safe_raise_title.
  - now apply safe_ret.
Qed.

Lemma safe_no_body title b st :
  well_formed st -> safe title (no_body title b) st (fun _ st' => st' = st).
Proof.
  intros Hwf. unfold no_body. destruct (some_list b).
  - now apply safe_raise_title.
  - now apply safe_ret.
Qed.

Lemma safe_need_subtitle title s st :
  well_formed st ->
  safe title (need_subtitle title s) st (fun _ st' => st' = st).
Proof.
  intros Hwf. unfold need_subtitle. destruct (negb _).
  - now apply safe_raise_title.
  - now apply safe_ret.
Qed.

Lemma safe_upd_opts title f st :
  well_formed st -> safe title (upd_opts f) st (fun _ _ => True).
Proof.
  intros Hwf. apply safe_modify; [now apply wf_set_opts | exact I].
Qed.

Lemma safe_generate_docs_part title part st :
  well_formed st ->
  safe title (generate_docs_part title part) st (fun _ _ => True).
Proof.
  intros Hwf. unfold generate_docs_part.
  repeat match goal with
         | |- safe _ (if ?b then _ else _) _ _ => destruct b
         end;
    first [now apply safe_upd_opts | now apply safe_raise_title].
Qed.

Lemma safe_for_each title {A} (f : A -> M unit) l : forall st,
  (forall a st, well_formed st -> safe title (f a) st (fun _ _ => True)) ->
  well_formed st -> safe title (for_each l f) st (fun _ _ => True).
Proof.
  induction l as [|x l IH]; intros st Hf Hwf; cbn [for_each].
  - now apply safe_ret.
  - eapply safe_bind; [now apply Hf|]. intros st1 _ Hwf1 _. now apply IH.
Qed.

Lemma safe_upd_file title f st :
  well_formed st -> (forall nd, core (f nd) = core nd) ->
  safe title (upd_file f) st (fun _ _ => True).
Proof.
  intros Hwf Hf. unfold upd_file. apply safe_bind_gets.
  destruct (curr_file_block st).
  - apply safe_modify; [now apply wf_upd_node | exact I].
  - now apply safe_ret.
Qed.

(** *** Sections and Subsections *)

Lemma wf_new_section st t s b o f :
  well_formed st -> curr_file_block st = Some f ->
  well_formed
    (set_curr_parent (Some (length (heap st)))
       (set_curr_subsection None
          (set_curr_section (Some (length (heap st)))
             (set_heap (attach (Some f) (length (heap st))
                          (heap st ++ [new_node SectionBlock t s b o (Some f) "" None]))
                st)))).
Proof.
  intros Hwf Hf.
  pose proof (cores_new_block SectionBlock t s b o (Some f) "" None (heap st))
    as E.
  assert (Hcl : cls_at (heap st) f = Some FileBlock).
  { destruct (wf_pointers _ Hwf) as (H1 & _). now apply H1. }
  apply (wf_new_node st _ SectionBlock (Some f) s);
    try assumption; try reflexivity; [cbn; eauto| |apply Hwf].
  cbn. pointers E Hwf.
  eapply not_item_new; [exact E | discriminate].
Qed.

Lemma wf_new_subsection st t s b o sec :
  well_formed st -> curr_section st = Some sec ->
  well_formed
    (set_curr_parent (Some (length (heap st)))
       (set_curr_subsection (Some (length (heap st)))
          (set_heap (attach (Some sec) (length (heap st))
                       (heap st ++ [new_node SubsectionBlock t s b o (Some sec) "" None]))
             st))).
Proof.
  intros Hwf Hs.
  pose proof (cores_new_block SubsectionBlock t s b o (Some sec) "" None (heap st))
    as E.
  assert (Hcl : cls_at (heap st) sec = Some SectionBlock).
  { destruct (wf_pointers _ Hwf) as (_ & H2 & _). now apply H2. }
  apply (wf_new_node st _ SubsectionBlock (Some sec) s);
    try assumption; try reflexivity; [cbn; eauto| |apply Hwf].
  cbn. pointers E Hwf.
  eapply not_item_new; [exact E | discriminate].
Qed.

(** *** Items *)

Lemma wf_new_item st t s b o sec :
  well_formed st -> curr_section st = Some sec ->
  well_formed
    (set_curr_parent (Some (length (heap st)))
       (set_curr_item (Some (length (heap st)))
          (set_items_by_name (<[s := length (heap st)]> (items_by_name st))
             (set_heap (attach (Some sec) (length (heap st))
                          (heap st ++ [new_node ItemBlock t s b o (Some sec) "" None]))
                st)))).
Proof.
  intros Hwf Hs.
  pose proof (cores_new_block ItemBlock t s b o (Some sec) "" None (heap st))
    as E.
  assert (Hcl : cls_at (heap st) sec = Some SectionBlock).
  { destruct (wf_pointers _ Hwf) as (_ & H2 & _). now apply H2. }
  apply (wf_new_node st _ ItemBlock (Some sec) s);
    try assumption; try reflexivity; [cbn; eauto| |apply Hwf].
  cbn. pointers E Hwf.
Qed.

Lemma wf_set_parent_section st :
  well_formed st ->
  well_formed (set_curr_parent (curr_section st) st).
Proof.
  intros Hwf. destruct (wf_pointers _ Hwf) as (H1 & H2 & H3 & H4 & H5 & H6).
  apply (wf_same_cores st); try reflexivity; try apply Hwf.
  cbn. repeat split; try assumption.
  - intros p Hp. eauto using cls_at_lt.
  - intros p Hp Hcl. rewrite (H2 p Hp) in Hcl. discriminate.
Qed.

Lemma safe_declare_item title subtitle body origin st :
  well_formed st ->
  safe title (declare_item title subtitle body origin) st (fun _ _ => True).
Proof.
  intros Hwf. unfold declare_item.
  eapply safe_bind; [now apply safe_mkfilenode|].
  intros st1 [] Hwf1 ([f Hf] & _). apply safe_bind_gets.
  assert (Hsec : exists st2 sec,
    when (negb (is_some (curr_section st1)))
      (let! cfb := gets curr_file_block in
       let! s := new_block SectionBlock "Section" "" [] origin cfb "" None in
       modify (set_curr_section (Some s))) st1 = Return st2 tt
    /\ well_formed st2 /\ curr_section st2 = Some sec).
  { destruct (curr_section st1) as [sec|] eqn:Hs; cbn [is_some negb when].
    - exists st1, sec. auto.
    - eexists _, _. unfold bind, gets. rewrite Hf, heap_new_block. cbn.
      split; [reflexivity|]. split; [|reflexivity].
      pose proof (cores_new_block SectionBlock "Section" "" [] origin (Some f)
                    "" None (heap st1)) as E.
      assert (Hcl : cls_at (heap st1) f = Some FileBlock).
      { destruct (wf_pointers _ Hwf1) as (H1 & _). now apply H1. }
      apply (wf_new_node st1 _ SectionBlock (Some f) "");
        try assumption; try reflexivity; [cbn; eauto| |apply Hwf1].
      cbn. pointers E Hwf1. }
  destruct Hsec as (st2 & sec & E2 & Hwf2 & Hs2).
  unfold safe. rewrite (bind_Return _ _ _ _ _ E2), bind_gets, bind_modify,
    bind_gets.
  pose proof (wf_set_parent_section _ Hwf2) as Hwf3.
  set (st3 := set_curr_parent (curr_section st2) st2) in *.
  change (items_by_name st3) with (items_by_name st2).
  destruct (items_by_name st2 !! subtitle) as [prev|].
  - rewrite bind_gets. split; [exact Hwf3 | right; eauto].
  - rewrite Hs2. unfold bind. rewrite heap_new_block. cbn.
    split; [|exact I].
    assert (Hs3 : curr_section st3 = Some sec) by exact Hs2.
    exact (wf_new_item st3 title subtitle body origin sec Hwf3 Hs3).
Qed.

(** *** Aliases *)

Lemma cls_at_alter (f : Node -> Node) i (h : list Node) j :
  (forall nd, cls (f nd) = cls nd) -> cls_at (alter f i h) j = cls_at h j.
Proof.
  intros Hf. unfold cls_at. destruct (decide (i = j)) as [->|Hne].
  - rewrite list_lookup_alter_eq. destruct (h !! j); cbn; [now rewrite Hf | reflexivity].
  - now rewrite list_lookup_alter_ne.
Qed.

Lemma same_cls_parent_fits h h' c p :
  (forall i, cls_at h' i = cls_at h i) -> length h' = length h ->
  parent_fits h c p -> parent_fits h' c p.
Proof.
  intros Hc Hl. destruct c; simpl; try (intros H i Hi; rewrite Hl; now apply H);
    try (intros (x & Hx & H); exists x; now rewrite Hc); auto.
Qed.

Lemma same_cls_pointers h h' cfb cs css ci cp :
  (forall i, cls_at h' i = cls_at h i) -> length h' = length h ->
  pointers_ok h cfb cs css ci cp -> pointers_ok h' cfb cs css ci cp.
Proof.
  intros Hc Hl (H1 & H2 & H3 & H4 & H5 & H6).
  split; [intros i Hi; rewrite Hc; auto|].
  split; [intros i Hi; rewrite Hc; auto|].
  split; [intros i Hi; rewrite Hc; auto|].
  split; [intros i Hi; rewrite Hc; auto|].
  split; [intros i Hi; rewrite Hl; auto|].
  intros p Hp Hcl. rewrite Hc in Hcl. auto.
Qed.

Lemma alias_loop (i : nat) names : forall st,
  for_each names
    (fun alias =>
       modify (fun st => set_items_by_name
                           (<[alias := i]> (items_by_name st)) st)) st
  = Return (set_items_by_name
              (fold_left (fun m a => <[a := i]> m) names (items_by_name st)) st)
      tt.
Proof.
  induction names as [|a names IH]; intros st; cbn [for_each fold_left].
  - destruct st; reflexivity.
  - rewrite bind_modify, IH. reflexivity.
Qed.

Lemma fold_insert_lookup (i : nat) names : forall (m : gmap string nat) b,
  fold_left (fun m a => <[a := i]> m) names m !! b
  = if decide (b ∈ names) then Some i else m !! b.
Proof.
  induction names as [|a names IH]; intros m b; cbn [fold_left].
  - destruct (decide (b ∈ [])) as [H|_]; [now apply elem_of_nil in H | reflexivity].
  - rewrite IH. destruct (decide (b ∈ names)) as [Hin|Hout].
    + destruct (decide (b ∈ a :: names)) as [_|Hn]; [reflexivity|].
      exfalso. apply Hn. now right.
    + destruct (decide (a = b)) as [->|Hne].
      * rewrite lookup_insert_eq.
        destruct (decide (b ∈ b :: names)) as [_|Hn]; [reflexivity|].
        exfalso. apply Hn. left.
      * rewrite lookup_insert_ne by exact Hne.
        destruct (decide (b ∈ a :: names)) as [Hin|_]; [|reflexivity].
        apply elem_of_cons in Hin as [-> | Hin]; contradiction.
Qed.

Lemma wf_aliases st i names :
  well_formed st -> curr_item st = Some i ->
  well_formed
    (set_items_by_name
       (fold_left (fun m a => <[a := i]> m) names (items_by_name st))
       (set_heap (alter (fun n => node_set_aliases (aliases n ++ names) n) i
                    (heap st)) st)).
Proof.
  intros Hwf Hi.
  set (f := fun n => node_set_aliases (aliases n ++ names) n).
  assert (Hcls : forall j, cls_at (alter f i (heap st)) j = cls_at (heap st) j)
    by (intros j; now apply cls_at_alter).
  assert (Hlen : length (alter f i (heap st)) = length (heap st))
    by apply length_alter.
  assert (Hitem : cls_at (heap st) i = Some ItemBlock).
  { destruct (wf_pointers _ Hwf) as (_ & _ & _ & H4 & _). now apply H4. }
  unfold cls_at in Hitem.
  destruct (heap st !! i) as [ndi|] eqn:Hndi; [|discriminate].
  cbn in Hitem. inversion Hitem as [Hci].
  assert (Hlook : forall j nd', alter f i (heap st) !! j = Some nd' ->
            exists nd, heap st !! j = Some nd /\ cls nd' = cls nd
                       /\ parent nd' = parent nd
                       /\ ((j = i /\ names_of nd' = names_of nd ++ names)
                           \/ (j <> i /\ names_of nd' = names_of nd))).
  { intros j nd' H. destruct (decide (i = j)) as [<-|Hne].
    - rewrite list_lookup_alter_eq, Hndi in H. cbn in H. inversion H; subst nd'.
      exists ndi. split; [exact Hndi|]. repeat split. now left.
    - rewrite list_lookup_alter_ne in H by exact Hne.
      exists nd'. split; [exact H|]. repeat split. right. split; congruence. }
  split; cbn.
  - intros j nd' Hnd'. destruct (Hlook j nd' Hnd') as (nd & Hnd & -> & -> & _).
    destruct (wf_parents _ Hwf j nd Hnd) as [Hfit Hold].
    split; [eapply same_cls_parent_fits; eauto | exact Hold].
  - intros x. rewrite Hcls. apply Hwf.
  - apply Hwf.
  - intros k j. rewrite fold_insert_lookup.
    destruct (decide (k ∈ names)) as [Hin|Hout].
    + intros H. inversion H; subst j. exists (f ndi).
      rewrite list_lookup_alter_eq, Hndi. split; [reflexivity|].
      split; [exact Hci|]. unfold names_of, f. cbn.
      right. apply elem_of_app. now right.
    + intros H. destruct (wf_index _ Hwf k j H) as (nd & Hnd & Hcl & Hk).
      destruct (decide (i = j)) as [<-|Hne].
      * exists (f ndi). rewrite list_lookup_alter_eq, Hndi.
        split; [reflexivity|]. split; [exact Hci|].
        assert (nd = ndi) by congruence. subst nd.
        unfold names_of, f in *. cbn.
        apply elem_of_cons in Hk as [->|Hk]; [left|right].
        apply elem_of_app. now left.
      * exists nd. now rewrite list_lookup_alter_ne by exact Hne.
  - intros j nd' k Hnd' Hcl Hk. rewrite fold_insert_lookup.
    destruct (decide (k ∈ names)) as [Hin|Hout]; [eauto|].
    destruct (Hlook j nd' Hnd') as (nd & Hnd & Hc & _ & Hn).
    eapply (wf_covers _ Hwf j nd); [exact Hnd | congruence|].
    destruct Hn as [[_ Hn]|[_ Hn]]; rewrite Hn in Hk; [|exact Hk].
    apply elem_of_app in Hk as [Hk|Hk]; [exact Hk | contradiction].
  - eapply same_cls_pointers; [exact Hcls | exact Hlen | apply Hwf].
  - apply Hwf.
Qed.

Lemma safe_alias_block_cb title subtitle st i :
  well_formed st -> curr_item st = Some i ->
  safe title (_alias_block_cb subtitle) st (fun _ _ => True).
Proof.
  intros Hwf Hi. unfold _alias_block_cb. apply safe_bind_gets. rewrite Hi.
  unfold upd_node. apply safe_bind_modify. unfold safe.
  rewrite alias_loop. split; [|exact I].
  exact (wf_aliases st i _ Hwf Hi).
Qed.

Lemma safe_status_block_cb title subtitle st i :
  well_formed st -> curr_item st = Some i ->
  safe title (_status_block_cb subtitle) st (fun _ _ => True).
Proof.
  intros Hwf Hi. unfold _status_block_cb. apply safe_bind_gets. rewrite Hi.
  apply safe_modify; [now apply wf_upd_node | exact I].
Qed.

Lemma safe_callback title cb subtitle st i :
  well_formed st -> curr_item st = Some i ->
  safe title (run_callback cb subtitle) st (fun _ _ => True).
Proof.
  destruct cb; [apply safe_status_block_cb | apply safe_alias_block_cb].
Qed.

Lemma isinstance_item st :
  well_formed st -> isinstance st (curr_parent st) ItemBlock = true ->
  curr_item st = curr_parent st /\ is_Some (curr_item st).
Proof.
  intros Hwf H. unfold isinstance in H.
  destruct (curr_parent st) as [p|] eqn:Hp; [|discriminate]. cbn in H.
  destruct (heap st !! p) as [nd|] eqn:Hnd; [|discriminate].
  destruct (wf_pointers _ Hwf) as (_ & _ & _ & _ & _ & H6).
  assert (E : curr_item st = Some p).
  { apply H6; [exact Hp|]. unfold cls_at. rewrite Hnd. cbn.
    destruct (cls nd); (discriminate || reflexivity). }
  rewrite E. eauto.
Qed.

Lemma safe_registered_block d title meta subtitle body origin st :
  well_formed st -> header_defs st !! title = Some d ->
  safe title
    (registered_block d title meta subtitle body origin (curr_parent st))
    st (fun _ _ => True).
Proof.
  intros Hwf Hd. destruct d as [[[pc c] data] cb]. unfold registered_block.
  apply safe_bind_gets.
  assert (Hp : valid (heap st) (curr_parent st))
    by (destruct (wf_pointers _ Hwf) as (_ & _ & _ & _ & H5 & _); exact H5).
  match goal with |- safe _ (when ?b _) _ _ => destruct b eqn:Hfits end;
    cbn [when]; [|now apply safe_ret].
  assert (Hcreate : forall m : M unit,
            (m = (new_block c title subtitle body origin (curr_parent st) ""
                    None ;; ret tt)
             \/ m = (new_block c title subtitle body origin (curr_parent st) ""
                       data ;; ret tt)
             \/ m = (new_block c title subtitle body origin (curr_parent st)
                       meta None ;; ret tt)) ->
            is_leaf c = true ->
            safe title m st (fun _ st' => curr_item st' = curr_item st)).
  { intros m Hm Hc. unfold safe.
    destruct Hm as [-> | [-> | ->]]; unfold bind; rewrite heap_new_block;
      cbn; (split; [now apply wf_leaf | reflexivity]). }
  eapply safe_bind with (Q1 := fun _ st' => curr_item st' = curr_item st).
  - destruct c; try (apply Hcreate; [tauto | reflexivity]);
      now apply safe_ret.
  - intros st1 [] Hwf1 Hci. destruct cb as [cb|]; [|now apply safe_ret].
    assert (pc = Some ItemBlock) by exact (wf_callbacks _ Hwf _ _ _ _ _ Hd).
    subst pc.
    destruct (isinstance_item st Hwf Hfits) as [_ [i Hi]].
    apply (safe_callback title cb subtitle st1 i); congruence.
Qed.

(** *** The dispatch on the title *)

Lemma valid_longer (h h' : list Node) r :
  length h <= length h' -> valid h r -> valid h' r.
Proof. intros Hl H i Hi. specialize (H i Hi). lia. Qed.

Lemma valid_typed h r c : typed h r c -> valid h r.
Proof. intros H i Hi. eauto using cls_at_lt. Qed.

Section Safe.

Variable env : Env.

Lemma safe_dispatch title meta subtitle body origin st :
  well_formed st ->
  safe title (dispatch env title meta subtitle body origin) st
    (fun _ _ => True).
Proof.
  intros Hwf. unfold dispatch. apply safe_bind_gets.
  destruct (wf_pointers _ Hwf) as (Hp1 & Hp2 & Hp3 & Hp4 & Hp5 & Hp6).
  destruct (title == "DefineHeader") eqn:E1.
  { apply String.eqb_eq in E1. subst. now apply safe_define_blocktype. }
  destruct (title == "IgnoreFiles").
  { eapply safe_bind; [now apply safe_rc_only|]. intros st1 [] _ ->.
    apply safe_bind_modify. apply safe_modify; [now frame Hwf | exact I]. }
  destruct (title == "PrioritizeFiles").
  { eapply safe_bind; [now apply safe_rc_only|]. intros st1 [] _ ->.
    apply safe_modify; [now frame Hwf | exact I]. }
  destruct (title == "DocsDirectory").
  { eapply safe_bind; [now apply safe_rc_only|]. intros st1 [] _ ->.
    eapply safe_bind; [now apply safe_no_body|]. intros st1 [] _ ->.
    now apply safe_upd_opts. }
  destruct (title == "ProjectName").
  { eapply safe_bind; [now apply safe_rc_only|]. intros st1 [] _ ->.
    eapply safe_bind; [now apply safe_no_body|]. intros st1 [] _ ->.
    now apply safe_upd_opts. }
  destruct (title == "TargetProfile").
  { eapply safe_bind; [now apply safe_rc_only|]. intros st1 [] _ ->.
    eapply safe_bind; [now apply safe_no_body|]. intros st1 [] _ ->.
    eapply safe_bind with (Q1 := fun _ st' => st' = st).
    - destruct (negb _); [now apply safe_raise_title | now apply safe_ret].
    - intros st1 [] _ ->. now apply safe_upd_opts. }
  destruct (title == "GenerateDocs").
  { eapply safe_bind; [now apply safe_rc_only|]. intros st1 [] _ ->.
    eapply safe_bind; [now apply safe_no_body|]. intros st1 [] _ ->.
    apply safe_bind_gets. destruct (negb _); cbn [when]; [|now apply safe_ret].
    apply safe_for_each; [|exact Hwf].
    intros part st1 Hwf1. now apply safe_generate_docs_part. }
  destruct ((title == "vim") || (title == "emacs")).
  { now apply safe_ret. }
  destruct (in_list title ["File"; "LibFile"]).
  { apply safe_bind_gets. destruct (curr_file_block st) as [f|] eqn:Hf;
      cbn [is_some]; [now apply safe_raise_title|].
    unfold safe, bind. rewrite heap_new_block. cbn. split; [|exact I].
    set (n := new_node FileBlock title subtitle body origin None "" None).
    assert (E : core <$> heap st ++ [n]
                = (core <$> heap st) ++ [(FileBlock, None, subtitle, [])])
      by now rewrite fmap_app.
    apply (wf_new_node st _ FileBlock None subtitle);
      try assumption; try reflexivity; [|apply Hwf].
    cbn. pointers E Hwf.
    eapply not_item_new; [exact E | discriminate]. }
  apply safe_bind_gets. apply safe_bind_gets.
  destruct (negb (is_some (curr_file_block st)) && strict st).
  { now apply safe_raise_title. }
  destruct (title == "Section").
  { eapply safe_bind; [now apply safe_mkfilenode|].
    intros st1 [] Hwf1 ([f Hf] & _). apply safe_bind_gets. rewrite Hf.
    unfold safe, bind. rewrite heap_new_block. cbn. split; [|exact I].
    exact (wf_new_section st1 title subtitle body origin f Hwf1 Hf). }
  destruct (title == "Subsection").
  { apply safe_bind_gets. destruct (curr_section st) as [sec|] eqn:Hs;
      cbn [is_some negb]; [|now apply safe_raise_title].
    eapply safe_bind; [now apply safe_need_subtitle|]. intros st1 [] _ ->.
    unfold safe, bind. rewrite heap_new_block. cbn. split; [|exact I].
    exact (wf_new_subsection st title subtitle body origin sec Hwf Hs). }
  destruct (title == "Includes").
  { eapply safe_bind; [now apply safe_mkfilenode|].
    intros st1 [] Hwf1 _. apply safe_bind_gets.
    eapply safe_weaken; [apply safe_leaf; [assumption| |reflexivity] | auto].
    eapply valid_typed. apply Hwf1. }
  destruct (title == "FileSummary").
  { eapply safe_bind; [now apply safe_need_subtitle|]. intros st1 [] _ ->.
    eapply safe_bind; [now apply safe_mkfilenode|]. intros st1 [] Hwf1 _.
    now apply safe_upd_file. }
  destruct (title == "FileGroup").
  { eapply safe_bind; [now apply safe_need_subtitle|]. intros st1 [] _ ->.
    eapply safe_bind; [now apply safe_mkfilenode|]. intros st1 [] Hwf1 _.
    now apply safe_upd_file. }
  destruct (title == "FileFootnotes").
  { eapply safe_bind; [now apply safe_need_subtitle|]. intros st1 [] _ ->.
    eapply safe_bind; [now apply safe_mkfilenode|]. intros st1 [] Hwf1 _.
    now apply safe_upd_file. }
  destruct (title == "CommonCode").
  { eapply safe_bind; [now apply safe_mkfilenode|]. intros st1 [] Hwf1 _.
    now apply safe_upd_file. }
  destruct (title == "Figure").
  { eapply safe_bind; [now apply safe_mkfilenode|].
    intros st1 [] Hwf1 (_ & Hlen & _).
    eapply safe_weaken; [apply safe_leaf; [assumption| |reflexivity] | auto].
    eapply valid_longer; eauto. }
  destruct (title == "Example").
  { apply safe_bind_gets. destruct (curr_item st); cbn [is_some when];
      [|now apply safe_ret].
    eapply safe_weaken; [now apply safe_leaf | auto]. }
  destruct (title == "Figures").
  { eapply safe_bind; [now apply safe_mkfilenode|].
    intros st1 [] Hwf1 (_ & Hlen & _).
    apply safe_block_per_line; [assumption| |reflexivity].
    eapply valid_longer; eauto. }
  destruct (title == "Examples").
  { apply safe_bind_gets. destruct (curr_item st); cbn [is_some when];
      [|now apply safe_ret].
    now apply safe_block_per_line. }
  apply safe_bind_gets.
  destruct (header_defs st !! title) as [d|] eqn:Hd.
  { now apply safe_registered_block. }
  destruct (in_list title ["Constant"; "Function"; "Module"; "Function&Module"]).
  { now apply safe_declare_item. }
  destruct (title == "Topics").
  { apply safe_bind_gets. destruct (curr_item st); cbn [is_some when];
      [|now apply safe_ret].
    eapply safe_weaken; [now apply safe_leaf | auto]. }
  destruct (title == "See Also").
  { apply safe_bind_gets. destruct (curr_item st); cbn [is_some when];
      [|now apply safe_ret].
    eapply safe_weaken; [now apply safe_leaf | auto]. }
  now apply safe_raise_title.
Qed.

End Safe.

(** *** Blocks, files, sessions *)

Section Safe.

Variable env : Env.

Lemma _parse_block_safe lines n src st :
  well_formed st ->
  match _parse_block env lines n src st with
  | Return st' _ => well_formed st'
  | Raise st' e => well_formed st' /\ escapes lines e
  end.
Proof.
  intros Hwf. unfold _parse_block, bind at 1, _skip_lines.
  pose proof (wf_skip_loop (drop n lines) n st Hwf) as Hwf1.
  destruct (skip_loop (drop n lines) n st) as [st1 h] eqn:E. cbn [fst] in Hwf1.
  apply skip_loop_spec in E as [Hle Hh].
  destruct (length lines <=? h) eqn:Hend; [exact Hwf1|].
  apply Nat.leb_gt in Hend.
  destruct (lines !! h) as [line|] eqn:Hl; [|exact Hwf1].
  destruct (header_match line) as [[[title meta] subtitle]|] eqn:Hhm;
    [|exact Hwf1].
  assert (Hat : header_at lines (h + 1) title).
  { exists line, meta, subtitle. split; [lia|].
    replace (h + 1 - 1) with h by lia. now split. }
  destruct (extract_body title lines (h + 1)) as [e|[body k]] eqn:Eb.
  - cbn. split; [exact Hwf1|]. exists title, (h + 1).
    split; [exact Hat|]. left.
    unfold extract_body in Eb. now apply body_loop_raises in Eb.
  - unfold try_log, bind.
    pose proof (safe_dispatch env title meta subtitle body
                  (mkOrigin src (h + 1)) st1 Hwf1) as Hd. unfold safe in Hd.
    destruct (dispatch env title meta subtitle body (mkOrigin src (h + 1)) st1)
      as [st2 []|st2 e].
    + destruct Hd as [Hwf2 _].
      destruct (wf_after_block lines k st2 Hwf2) as (st3 & k' & -> & Hwf3).
      exact Hwf3.
    + destruct Hd as [Hwf2 [[-> ->] | [msg ->]]].
      * split; [exact Hwf2|]. exists "DefineHeader", (h + 1).
        split; [exact Hat|]. right. now split.
      * now apply wf_set_errorlog.
Qed.

Lemma parse_loop_safe lines src : forall fuel n st,
  well_formed st ->
  match parse_loop env fuel lines n src st with
  | Return st' _ => well_formed st'
  | Raise st' e => well_formed st' /\ escapes lines e
  end.
Proof.
  induction fuel as [|fuel IH]; intros n st Hwf; cbn [parse_loop].
  - now destruct (length lines <=? n).
  - destruct (length lines <=? n); [exact Hwf|].
    pose proof (_parse_block_safe lines n src st Hwf) as Hb.
    destruct (_parse_block env lines n src st) as [st1 n1|st1 e];
      [now apply IH | exact Hb].
Qed.

Lemma parse_lines_safe lines n src st :
  well_formed st ->
  match parse_lines env lines n src st with
  | Return st' _ => well_formed st'
  | Raise st' e => well_formed st' /\ escapes lines e
  end.
Proof.
  intros Hwf. unfold parse_lines, bind.
  pose proof (parse_loop_safe lines src (length lines - n) n st Hwf) as H.
  now destruct (parse_loop env (length lines - n) lines n src st).
Qed.

Lemma builtin_callbacks t pc c data cb :
  builtin_header_defs !! t = Some (pc, c, data, Some cb) -> pc = Some ItemBlock.
Proof.
  unfold builtin_header_defs. cbn [list_to_map foldr].
  repeat match goal with
         | |- <[?k := _]> _ !! t = _ -> _ =>
             destruct (decide (k = t)) as [<-|?];
             [rewrite lookup_insert_eq; intros H; now inversion H
             | rewrite lookup_insert_ne by assumption]
         end.
  rewrite lookup_empty. discriminate.
Qed.

Lemma wf_blank o is_strict : well_formed (blank o is_strict).
Proof.
  split; cbn.
  - intros i nd H. now rewrite lookup_nil in H.
  - intros f. unfold cls_at. rewrite lookup_nil. cbn.
    split; [intros H; now apply elem_of_nil in H | discriminate].
  - constructor.
  - intros k i H. now rewrite lookup_empty in H.
  - intros i nd k H. now rewrite lookup_nil in H.
  - repeat split; try apply typed_None; try apply valid_None.
    discriminate.
  - intros t pc c data cb H. now rewrite lookup_empty in H.
Qed.

Lemma _reset_header_defs_safe st :
  well_formed st -> well_formed (state_of (_reset_header_defs env st)).
Proof.
  intros Hwf. unfold _reset_header_defs. rewrite bind_modify.
  assert (Hwf0 : well_formed (set_header_defs builtin_header_defs st)).
  { apply (wf_same_cores st); try reflexivity; try apply Hwf.
    cbn. apply builtin_callbacks. }
  unfold bind.
  pose proof (parse_lines_safe default_lines 0 "Defaults" _ Hwf0) as H1.
  destruct (parse_lines env default_lines 0 "Defaults"
              (set_header_defs builtin_header_defs st)) as [st1 []|st1 e];
    [|apply H1].
  destruct (rcfile env) as [ls|]; [|exact H1].
  pose proof (parse_lines_safe (commented ls) 0 RCFILE _ H1) as H2.
  destruct (parse_lines env (commented ls) 0 RCFILE st1) as [st2 []|st2 e];
    [exact H2 | apply H2].
Qed.

Lemma init_safe o is_strict : well_formed (state_of (init env o is_strict)).
Proof. apply _reset_header_defs_safe, wf_blank. Qed.

Lemma parse_file_safe filename contents commentless st :
  well_formed st ->
  well_formed (state_of (parse_file env filename contents commentless st)).
Proof.
  intros Hwf. unfold parse_file. rewrite bind_gets.
  destruct (decide _); [exact Hwf|].
  rewrite !bind_modify.
  assert (Hwf0 : well_formed
            (set_curr_section None (set_curr_file_block None st))).
  { destruct (wf_pointers _ Hwf) as (H1 & H2 & H3 & H4 & H5 & H6).
    apply (wf_same_cores st); try reflexivity; try apply Hwf.
    cbn. repeat split; try apply typed_None; assumption. }
  unfold bind.
  pose proof (_reset_header_defs_safe _ Hwf0) as H1.
  destruct (_reset_header_defs env
              (set_curr_section None (set_curr_file_block None st)))
    as [st1 []|st1 e]; [|exact H1].
  cbn in H1.
  pose proof (parse_lines_safe
                (if commentless then commented contents else contents)
                0 filename st1 H1) as H2.
  destruct (parse_lines env _ 0 filename st1) as [st2 []|st2 e];
    [exact H2 | apply H2].
Qed.

Lemma parse_files_safe commentless filenames : forall st,
  well_formed st ->
  well_formed (state_of (parse_files env filenames commentless st)).
Proof.
  unfold parse_files.
  induction filenames as [|[name contents] filenames IH]; intros st Hwf;
    cbn [for_each]; [exact Hwf|].
  unfold bind.
  pose proof (parse_file_safe name contents commentless st Hwf) as H1.
  destruct (parse_file env name contents commentless st) as [st1 []|st1 e];
    [now apply IH | exact H1].
Qed.

Lemma session_safe o is_strict filenames commentless :
  well_formed (state_of (session env o is_strict filenames commentless)).
Proof.
  unfold session. pose proof (init_safe o is_strict) as H0.
  destruct (init env o is_strict) as [st0 []|st0 e]; [|exact H0].
  now apply parse_files_safe.
Qed.

End Safe.

(** X10 ([parse_lines], [_parse_block], [_skip_lines], [_mkfilenode],
    [_define_blocktype], the callbacks).  Parsing keeps the state
    well-formed, whether it returns or ends with an exception: every node
    has the parent that goes with its class (none for a File, a File for a
    Section, a Section for a Subsection and for an Item), [file_blocks]
    lists the File nodes once each, the index holds the names of the Items
    and nothing else, and the context pointers point to nodes of the right
    class. *)
Theorem parsing_keeps_the_state_well_formed (env : Env) (lines : list string)
  (line_num : nat) (src_file : string) (st : State) :
  well_formed st ->
  well_formed (state_of (parse_lines env lines line_num src_file st)).
Proof.
  intros Hwf.
  pose proof (parse_lines_safe env lines line_num src_file st Hwf) as H.
  destruct (parse_lines env lines line_num src_file st) as [st' []|st' e];
    [exact H | apply H].
Qed.

Lemma parsing_keeps_the_state_well_formed_witness :
  well_formed (state_of (parse_lines env0 dup_lines 0 "foo.scad"
                           (blank opts0 false))).
Proof.
  apply parsing_keeps_the_state_well_formed. apply wf_blank.
Defined.

(** X11 ([__init__], [_reset_header_defs], [parse_file], [parse_files]).
    Whatever the RC file holds and whatever files are parsed, a parser
    made afresh and given files to parse is left in a well-formed state. *)
Theorem session_state_is_well_formed (env : Env) (o : Options)
  (is_strict : bool) (filenames : list (string * list string))
  (commentless : bool) :
  well_formed (state_of (session env o is_strict filenames commentless)).
Proof. apply session_safe. Qed.

(** X12 ([parse_lines], [_parse_block]).  From a well-formed state, two
    exceptions only can leave [parse_lines]: the [DocsGenException] of a
    body line with less indentation than the first, raised in the name of
    a header of the text, and the [AttributeError] of a DefineHeader whose
    Headers option has no value.  In particular the callbacks of Status
    and Alias blocks always find the Item that they write to. *)
Theorem what_leaves_parse_lines (env : Env) (lines : list string)
  (line_num : nat) (src_file : string) (st st' : State) (e : Exn) :
  well_formed st ->
  parse_lines env lines line_num src_file st = Raise st' e ->
  escapes lines e.
Proof.
  intros Hwf E.
  pose proof (parse_lines_safe env lines line_num src_file st Hwf) as H.
  rewrite E in H. apply H.
Qed.

Lemma what_leaves_parse_lines_witness :
  escapes under_indented_lines (under_indented "Section").
Proof.
  refine (what_leaves_parse_lines env0 under_indented_lines 0 "shapes.scad"
            (blank opts0 false) _ _ _ _).
  - apply wf_blank.
  - vm_compute. reflexivity.
Defined.

Lemma elem_of_indexed_names st name :
  name ∈ get_indexed_names st <-> is_Some (items_by_name st !! name).
Proof.
  unfold get_indexed_names. rewrite (sorted_perm _).
  rewrite list_elem_of_fmap. split.
  - intros ([k i] & -> & H). apply elem_of_map_to_list in H. cbn. eauto.
  - intros [i H]. exists (name, i). split; [reflexivity|].
    now apply elem_of_map_to_list.
Qed.

(** X13 ([get_indexed_names], with the declarations and [_alias_block_cb]).
    After a session, the names that [get_indexed_names] yields are the
    names of the Items of the store, their subtitles and their aliases:
    each of those and nothing else. *)
Theorem indexed_names_are_the_names_of_the_items (env : Env) (o : Options)
  (is_strict : bool) (filenames : list (string * list string))
  (commentless : bool) (name : string) :
  let st := state_of (session env o is_strict filenames commentless) in
  name ∈ get_indexed_names st
  <-> exists i nd, heap st !! i = Some nd /\ cls nd = ItemBlock
                   /\ name ∈ names_of nd.
Proof.
  intros st. pose proof (session_safe env o is_strict filenames commentless)
    as Hwf. fold st in Hwf.
  rewrite elem_of_indexed_names. split.
  - intros [i H]. exists i. now apply (wf_index _ Hwf).
  - intros (i & nd & Hnd & Hcl & Hin). now apply (wf_covers _ Hwf i nd).
Qed.

(** X14 (the declarations of [_parse_block], [_mkfilenode]).  After a
    session, every Item of the store hangs under a Section that was made
    before it, and this Section under a File made before the Section and
    listed in [file_blocks]. *)
Theorem every_item_is_under_a_section_of_a_file (env : Env) (o : Options)
  (is_strict : bool) (filenames : list (string * list string))
  (commentless : bool) (i : nat) (nd : Node) :
  let st := state_of (session env o is_strict filenames commentless) in
  heap st !! i = Some nd -> cls nd = ItemBlock ->
  exists s f snd fnd,
    parent nd = Some s /\ s < i
    /\ heap st !! s = Some snd /\ cls snd = SectionBlock
    /\ parent snd = Some f /\ f < s
    /\ heap st !! f = Some fnd /\ cls fnd = FileBlock
    /\ f ∈ file_blocks st.
Proof.
  intros st Hnd Hcl.
  pose proof (session_safe env o is_strict filenames commentless) as Hwf.
  fold st in Hwf.
  destruct (wf_parents _ Hwf i nd Hnd) as [Hfit Hold]. rewrite Hcl in Hfit.
  destruct Hfit as (s & Hs & Hsec). unfold cls_at in Hsec.
  destruct (heap st !! s) as [snd|] eqn:Hsnd; [|discriminate].
  cbn in Hsec. inversion Hsec as [Hcs].
  destruct (wf_parents _ Hwf s snd Hsnd) as [Hfit' Hold']. rewrite Hcs in Hfit'.
  destruct Hfit' as (f & Hf & Hfile).
  pose proof Hfile as Hfile'. unfold cls_at in Hfile.
  destruct (heap st !! f) as [fnd|] eqn:Hfnd; [|discriminate].
  cbn in Hfile. inversion Hfile as [Hcf].
  exists s, f, snd, fnd. repeat split; auto.
  now apply (wf_files _ Hwf).
Qed.

Lemma every_item_is_under_a_section_of_a_file_witness :
  exists nd s f snd fnd,
    heap after_dup !! 2 = Some nd
    /\ parent nd = Some s /\ s < 2
    /\ heap after_dup !! s = Some snd /\ cls snd = SectionBlock
    /\ parent snd = Some f /\ f < s
    /\ heap after_dup !! f = Some fnd /\ cls fnd = FileBlock
    /\ f ∈ file_blocks after_dup.
Proof.
  eexists.
  edestruct (every_item_is_under_a_section_of_a_file env0 opts0 false
               [("foo.scad", dup_lines)] false 2)
    as (s & f & snd & fnd & H).
  - vm_compute. reflexivity.
  - reflexivity.
  - exists s, f, snd, fnd. split; [vm_compute; reflexivity | exact H].
Defined.
(* ===================================================================== *)
(** ** The configuration directives *)
(* ===================================================================== *)

Section Config.

Variable env : Env.

Lemma rc_title_not_define title :
  title ∈ rc_titles -> (title == "DefineHeader") = false.
Proof.
  unfold rc_titles. rewrite !elem_of_cons, elem_of_nil.
  intros [->|[->|[->|[->|[->|[->|[]]]]]]]; reflexivity.
Qed.

Lemma dispatch_outside_rc title meta subtitle body origin st :
  title ∈ rc_titles -> file origin <> RCFILE ->
  dispatch env title meta subtitle body origin st
  = Raise st (disallowed title).
Proof.
  intros Ht Hf. apply String.eqb_neq in Hf.
  unfold rc_titles in Ht. rewrite !elem_of_cons, elem_of_nil in Ht.
  unfold dispatch. rewrite bind_gets.
  destruct Ht as [->|[->|[->|[->|[->|[->|[]]]]]]];
    cbn [String.eqb Ascii.eqb Bool.eqb];
    unfold rc_only; rewrite Hf; reflexivity.
Qed.

End Config.

(** Where the header of a block stands: the line [n] (counted from 0) of
    [lines] is a header.  When a line of the body is under-indented, the
    exception of line 240 leaves [_parse_block] before the [try]; when
    the dispatch raises a [DocsGenException], whatever the body, the
    state gets one more entry in the log and the scan goes on after the
    body. *)
Lemma _parse_block_rejected (env : Env) lines n src st line title meta
  subtitle name msg :
  lines !! n = Some line ->
  header_match line = Some (title, meta, subtitle) ->
  (forall body,
     dispatch env title meta subtitle body (mkOrigin src (n + 1)) st
     = Raise st (DocsGenException name msg)) ->
  _parse_block env lines n src st
  = match extract_body title lines (n + 1) with
    | inr (_, k) =>
        Return (logged src (n + 1) (DocsGenException name msg) st) k
    | inl _ => Raise st (under_indented title)
    end.
Proof.
  intros Hl Hm Hd.
  destruct (extract_body title lines (n + 1)) as [e|[body k]] eqn:Hb.
  - rewrite (_parse_block_under_indented env _ _ _ _ _ _ _ _ _ Hl Hm Hb).
    f_equal. unfold extract_body in Hb. now apply body_loop_raises in Hb.
  - rewrite (_parse_block_at_header env _ _ _ _ _ _ _ _ _ _ Hl Hm Hb).
    unfold try_log, bind. now rewrite Hd.
Qed.

(** X15 ([_parse_block]).  A configuration directive (IgnoreFiles,
    PrioritizeFiles, DocsDirectory, ProjectName, TargetProfile,
    GenerateDocs) whose header is met in a file that is not the RC file
    changes nothing but the log: an entry is added for its header, of
    level FAIL, and the scan goes on right after the body of the block.
    The one exception is a body with an under-indented line: the
    exception of line 240 then leaves [_parse_block] before the title is
    looked at, the state unchanged and nothing logged. *)
Theorem config_directive_outside_the_rc_file (env : Env)
  (lines : list string) (n : nat)
  (src_file : string) (st : State) (line title meta subtitle : string) :
  lines !! n = Some line ->
  header_match line = Some (title, meta, subtitle) ->
  title ∈ rc_titles -> src_file <> RCFILE ->
  _parse_block env lines n src_file st
  = match extract_body title lines (n + 1) with
    | inr (_, k) => Return (logged src_file (n + 1) (disallowed title) st) k
    | inl _ => Raise st (under_indented title)
    end.
Proof.
  intros Hl Hm Ht Hs.
  apply (_parse_block_rejected env _ _ _ _ _ _ _ _ _ _ Hl Hm).
  intros body.
  exact (dispatch_outside_rc env title meta subtitle body
           (mkOrigin src_file (n + 1)) st Ht Hs).
Qed.

Lemma config_directive_outside_the_rc_file_witness :
  _parse_block env0 ["// ProjectName: Shapes"; "// Section: Solids"] 0
    "shapes.scad" (blank opts0 false)
  = Return (logged "shapes.scad" 1 (disallowed "ProjectName")
              (blank opts0 false)) 1
  /\ _parse_block env0 ["// IgnoreFiles: a"; "//     deep"; "//   shallow"] 0
       "x.scad" (blank opts0 false)
     = Raise (blank opts0 false) (under_indented "IgnoreFiles").
Proof.
  split.
  - refine (eq_trans
              (config_directive_outside_the_rc_file env0
                 ["// ProjectName: Shapes"; "// Section: Solids"] 0
                 "shapes.scad" (blank opts0 false) "// ProjectName: Shapes"
                 "ProjectName" "" "Shapes" _ _ _ _) _).
    + reflexivity.
    + vm_compute. reflexivity.
    + unfold rc_titles. apply (bool_decide_unpack _). vm_compute. exact I.
    + discriminate.
    + vm_compute. reflexivity.
  - refine (eq_trans
              (config_directive_outside_the_rc_file env0
                 ["// IgnoreFiles: a"; "//     deep"; "//   shallow"] 0
                 "x.scad" (blank opts0 false) "// IgnoreFiles: a"
                 "IgnoreFiles" "" "a" _ _ _ _) _).
    + reflexivity.
    + vm_compute. reflexivity.
    + unfold rc_titles. apply (bool_decide_unpack _). vm_compute. exact I.
    + discriminate.
    + vm_compute. reflexivity.
Defined.

(** *** GenerateDocs *)

Section Docs.

Variable env : Env.

Lemma upd_opts_twice f g st :
  set_opts (g (opts (set_opts (f (opts st)) st))) (set_opts (f (opts st)) st)
  = set_opts (g (f (opts st))) st.
Proof. reflexivity. Qed.

Lemma in_list_cons x y l : in_list x (y :: l) = (x == y) || in_list x l.
Proof. reflexivity. Qed.

Lemma with_docs_nil o : with_docs [] o = o.
Proof.
  destruct o. unfold with_docs. cbn. now rewrite !orb_false_r.
Qed.

Lemma generate_docs_known title part st :
  Py.upper (Py.strip part) ∈ known_kinds ->
  generate_docs_part title part st
  = Return (set_opts (with_docs [Py.upper (Py.strip part)] (opts st)) st) tt.
Proof.
  unfold known_kinds. rewrite !elem_of_cons, elem_of_nil.
  unfold generate_docs_part, upd_opts, modify.
  set (o := opts st).
  intros [E|[E|[E|[E|[E|[E|[E|[]]]]]]]]; rewrite E;
    cbn [String.eqb Ascii.eqb Bool.eqb in_list existsb orb];
    unfold with_docs; cbn [in_list existsb String.eqb Ascii.eqb Bool.eqb orb];
    rewrite ?orb_false_r, ?orb_true_r; destruct st; reflexivity.
Qed.

Lemma with_docs_app k1 k2 o :
  with_docs k2 (with_docs k1 o) = with_docs (k1 ++ k2) o.
Proof.
  unfold with_docs, in_list. cbn. rewrite !existsb_app.
  f_equal; destruct (gen_files o), (gen_toc o), (gen_index o), (gen_topics o),
    (gen_cheat o), (gen_sidebar o);
    repeat match goal with |- context [existsb ?f ?l] => destruct (existsb f l) end;
    reflexivity.
Qed.

Lemma generate_docs_loop title parts : forall st,
  Forall (fun part => Py.upper (Py.strip part) ∈ known_kinds) parts ->
  for_each parts (generate_docs_part title) st
  = Return (set_opts (with_docs (map (fun part => Py.upper (Py.strip part)) parts)
                        (opts st)) st) tt.
Proof.
  induction parts as [|p parts IH]; intros st H; cbn [for_each map].
  - rewrite with_docs_nil. destruct st; reflexivity.
  - apply Forall_cons in H as [Hp H]. unfold bind.
    rewrite (generate_docs_known _ _ _ Hp), (IH _ H). cbn [opts set_opts].
    rewrite with_docs_app. reflexivity.
Qed.

Lemma generate_docs_unknown title part st :
  Py.upper (Py.strip part) ∉ known_kinds ->
  generate_docs_part title part st
  = Raise st (DocsGenException title
                ("Unknown type " +:+ dquote +:+ Py.strip part +:+ dquote
                 +:+ ", while declaring block:")).
Proof.
  unfold known_kinds. rewrite !not_elem_of_cons.
  intros (H1 & H2 & H3 & H4 & H5 & H6 & H7 & _).
  apply String.eqb_neq in H1, H2, H3, H4, H5, H6, H7.
  unfold generate_docs_part. cbn [in_list existsb].
  now rewrite H1, H2, H3, H4, H5, H6, H7.
Qed.

End Docs.

(** X16 ([_parse_block], GenerateDocs).  In the RC file, a GenerateDocs
    block without a body changes nothing when the options already ask for
    one of files, TOC, index, topics or cheat sheet.  Otherwise it turns
    on the option of each kind that its subtitle names, the names being
    cut at the commas, trimmed and read without regard to case; at the
    first name that is not a kind it raises, the options turned on for
    the names before it staying on. *)
Theorem generate_docs_defers_to_the_options (env : Env)
  (meta subtitle : string)
  (origin : OriginInfo) (st : State) :
  file origin = RCFILE ->
  (docs_chosen (opts st) = true ->
   dispatch env "GenerateDocs" meta subtitle [] origin st = Return st tt)
  /\ (docs_chosen (opts st) = false ->
      Forall (fun kind => kind ∈ known_kinds) (docs_kinds subtitle) ->
      dispatch env "GenerateDocs" meta subtitle [] origin st
      = Return (set_opts (with_docs (docs_kinds subtitle) (opts st)) st) tt)
  /\ (forall before part after,
        docs_chosen (opts st) = false ->
        Py.split "," subtitle = before ++ part :: after ->
        Forall (fun p => Py.upper (Py.strip p) ∈ known_kinds) before ->
        Py.upper (Py.strip part) ∉ known_kinds ->
        dispatch env "GenerateDocs" meta subtitle [] origin st
        = Raise
            (set_opts
               (with_docs (map (fun p => Py.upper (Py.strip p)) before)
                  (opts st)) st)
            (DocsGenException "GenerateDocs"
               ("Unknown type " +:+ dquote +:+ Py.strip part +:+ dquote
                +:+ ", while declaring block:"))).
Proof.
  intros Hf.
  assert (E : dispatch env "GenerateDocs" meta subtitle [] origin st
              = when (negb (docs_chosen (opts st)))
                  (for_each (Py.split "," subtitle)
                     (generate_docs_part "GenerateDocs")) st).
  { unfold dispatch. rewrite bind_gets.
    cbn [String.eqb Ascii.eqb Bool.eqb]. unfold rc_only, no_body.
    rewrite Hf. reflexivity. }
  rewrite E. split; [|split].
  - intros ->. reflexivity.
  - intros -> H. cbn [negb when]. apply generate_docs_loop.
    unfold docs_kinds in H. now apply Forall_fmap in H.
  - intros before part after -> Hs Hb Hp. cbn [negb when]. rewrite Hs.
    clear Hs E. revert st. induction before as [|p before IH]; intros st.
    + cbn [app for_each map]. unfold bind.
      rewrite (generate_docs_unknown _ _ _ Hp), with_docs_nil.
      now destruct st.
    + apply Forall_cons in Hb as [Hp0 Hb]. cbn [app for_each map]. unfold bind.
      rewrite (generate_docs_known _ _ _ Hp0), (IH Hb). cbn [opts set_opts].
      now rewrite with_docs_app.
Qed.

Lemma generate_docs_defers_to_the_options_witness :
  dispatch env0 "GenerateDocs" "" "Files, toc" [] (mkOrigin RCFILE 1)
    (blank opts0 false)
  = Return (set_opts (with_docs ["FILES"; "TOC"] opts0) (blank opts0 false)) tt.
Proof.
  refine (proj1 (proj2 (generate_docs_defers_to_the_options env0 "" "Files, toc"
                          (mkOrigin RCFILE 1) (blank opts0 false) _)) _ _).
  - reflexivity.
  - reflexivity.
  - apply (bool_decide_unpack _). vm_compute. exact I.
Defined.

(** *** IgnoreFiles *)

(** X17 ([_parse_block], IgnoreFiles, with [parse_file]).  In the RC file,
    an IgnoreFiles block adds its subtitle and the lines of its body,
    trimmed, to the patterns, and the files to ignore become the files
    that [glob] finds for any of the patterns, old or new; [parse_file]
    then leaves the state as it is for each of these files. *)
Theorem ignored_files_are_not_parsed (env : Env) (meta subtitle : string)
  (body : list string) (origin : OriginInfo) (st : State) :
  file origin = RCFILE ->
  exists st',
    dispatch env "IgnoreFiles" meta subtitle body origin st = Return st' tt
    /\ ignored_file_pats st'
       = ignored_file_pats st ++ map Py.strip (with_subtitle subtitle body)
    /\ (forall filename,
          filename ∈ ignored_files st'
          <-> exists pat, pat ∈ ignored_file_pats st'
                          /\ filename ∈ glob env pat true)
    /\ (forall filename contents commentless,
          filename ∈ ignored_files st' ->
          parse_file env filename contents commentless st' = Return st' tt).
Proof.
  intros Hf.
  set (pats := ignored_file_pats st ++ map Py.strip (with_subtitle subtitle body)).
  exists (set_ignored_files
            (list_to_set (concat (map (fun pat => glob env pat true) pats)))
            (set_ignored_file_pats pats st)).
  split.
  { unfold dispatch. rewrite bind_gets.
    cbn [String.eqb Ascii.eqb Bool.eqb]. unfold rc_only. rewrite Hf.
    reflexivity. }
  split; [reflexivity|]. split.
  - intros filename. cbn [ignored_files set_ignored_files ignored_file_pats
                            set_ignored_file_pats].
    rewrite elem_of_list_to_set, list_elem_of_In, in_concat.
    split.
    + intros (l & Hl & Hin). apply in_map_iff in Hl as (pat & <- & Hpat).
      exists pat. split; now apply list_elem_of_In.
    + intros (pat & Hpat & Hin). exists (glob env pat true).
      split; [|now apply list_elem_of_In].
      apply in_map_iff. exists pat. split; [reflexivity|].
      now apply list_elem_of_In.
  - intros filename contents commentless Hin.
    unfold parse_file. rewrite bind_gets.
    destruct (decide _) as [_|Hn]; [reflexivity | contradiction].
Qed.

Lemma ignored_files_are_not_parsed_witness :
  exists st',
    dispatch env_literal "IgnoreFiles" "" "tmp.scad" ["  test_*.scad "]
      (mkOrigin RCFILE 1) (blank opts0 false) = Return st' tt
    /\ ignored_file_pats st' = ["tmp.scad"; "test_*.scad"]
    /\ parse_file env_literal "tmp.scad" ["// LibFile: tmp.scad"] false st'
       = Return st' tt.
Proof.
  destruct (ignored_files_are_not_parsed env_literal "" "tmp.scad"
              ["  test_*.scad "] (mkOrigin RCFILE 1) (blank opts0 false)
              eq_refl)
    as (st' & E & Hp & Hi & Hparse).
  exists st'. split; [exact E|]. split; [exact Hp|].
  apply Hparse, Hi. exists "tmp.scad". split.
  - rewrite Hp. left.
  - left.
Defined.
(* ===================================================================== *)
(** ** One block per line of the body *)
(* ===================================================================== *)

(** The loop of the Figures and Examples blocks: one block is made for
    each line of the body, in the order of the lines; the first one has
    the subtitle of the header, the others have none. *)
Lemma block_per_line_spec c t o p m body : forall s st,
  c <> ItemBlock ->
  exists st',
    block_per_line c t s body o p m st = Return st' tt
    /\ grows st st'
    /\ length (heap st') = length (heap st) + length body
    /\ curr_parent st' = curr_parent st
    /\ forall i line, body !! i = Some line ->
         exists nd, heap st' !! (length (heap st) + i) = Some nd
                    /\ is_block c t (if i =? 0 then s else "") [line] o p nd
                    /\ meta nd = m.
Proof.
  intros s st Hc. revert s st.
  induction body as [|l body IH]; intros s st; cbn [block_per_line].
  - exists st. split; [reflexivity|]. split; [apply grows_refl|].
    split; [cbn; lia|]. split; [reflexivity|]. intros i line H.
    now rewrite lookup_nil in H.
  - destruct (grows_new_block c t s [l] o p m None st Hc)
      as (st1 & E1 & G1 & Hh & _ & _ & _ & _ & Hp1).
    unfold bind. rewrite E1.
    destruct (IH "" st1) as (st2 & E2 & G2 & Hlen & Hp2 & Hall).
    exists st2. split; [exact E2|]. split; [eauto using grows_trans|].
    assert (Hl1 : length (heap st1) = S (length (heap st))).
    { rewrite Hh, length_attach, length_app. cbn. lia. }
    split; [rewrite Hlen, Hl1; cbn; lia|]. split; [congruence|].
    intros i line Hi. destruct i as [|i].
    + cbn in Hi. inversion Hi; subst line. rewrite Nat.add_0_r.
      destruct (lookup_attach p (length (heap st))
                  (heap st ++ [new_node c t s [l] o p m None])
                  (length (heap st)) (new_node c t s [l] o p m None))
        as (nd1 & Hnd1 & Hsame1).
      { rewrite lookup_app_r by lia. now rewrite Nat.sub_diag. }
      rewrite <- Hh in Hnd1.
      destruct (grows_nodes _ _ G2 _ _ Hnd1) as (nd2 & Hnd2 & Hsame2).
      exists nd2. split; [exact Hnd2|].
      pose proof (same_node_fields _ _ (same_node_trans _ _ _ Hsame1 Hsame2))
        as (? & ? & ? & ? & ? & ? & ?).
      unfold is_block. cbn in *. repeat split; congruence.
    + cbn in Hi. destruct (Hall i line Hi) as (nd & Hnd & Hb & Hm).
      exists nd. replace (length (heap st) + S i) with (length (heap st1) + i)
        by lia.
      split; [exact Hnd|]. split; [|exact Hm].
      destruct i; exact Hb.
Qed.

(** X18 ([_parse_block], Examples).  With an Item open, an Examples block
    makes one Example block for each line of its body, in the order of
    the lines, each with that line as its body and the current parent as
    its parent; the first has the subtitle of the Examples header and the
    others have none, so that a header with a subtitle and no body makes
    nothing.  With no Item open the block is dropped. *)
Theorem examples_block_makes_one_example_per_line (env : Env)
  (m subtitle : string) (body : list string) (origin : OriginInfo)
  (st : State) :
  guard_passes st ->
  (curr_item st = None ->
   dispatch env "Examples" m subtitle body origin st = Return st tt)
  /\ (is_Some (curr_item st) ->
      exists st',
        dispatch env "Examples" m subtitle body origin st = Return st' tt
        /\ grows st st'
        /\ length (heap st') = length (heap st) + length body
        /\ forall i line, body !! i = Some line ->
             exists nd,
               heap st' !! (length (heap st) + i) = Some nd
               /\ is_block ExampleBlock "Example"
                    (if i =? 0 then subtitle else "") [line] origin
                    (curr_parent st) nd
               /\ meta nd = m).
Proof.
  intros Hg. apply guard_cases in Hg.
  assert (E : dispatch env "Examples" m subtitle body origin st
              = when (is_some (curr_item st))
                  (block_per_line ExampleBlock "Example" subtitle body origin
                     (curr_parent st) m) st).
  { unfold dispatch. rewrite bind_gets.
    cbn [String.eqb Ascii.eqb Bool.eqb in_list existsb orb].
    rewrite !bind_gets, Hg, bind_gets. reflexivity. }
  rewrite E. split.
  - intros ->. reflexivity.
  - intros [it ->]. cbn [is_some when].
    destruct (block_per_line_spec ExampleBlock "Example" origin
                (curr_parent st) m body subtitle st)
      as (st' & E' & G & Hlen & _ & Hall); [discriminate|].
    exists st'. auto.
Qed.

Lemma examples_block_makes_one_example_per_line_witness :
  exists st',
    dispatch env0 "Examples" "" "Two calls" ["bar(1);"; "bar(2);"]
      (mkOrigin "foo.scad" 2) item_open = Return st' tt
    /\ length (heap st') = length (heap item_open) + 2.
Proof.
  destruct (proj2 (examples_block_makes_one_example_per_line env0 ""
                     "Two calls" ["bar(1);"; "bar(2);"]
                     (mkOrigin "foo.scad" 2) item_open
                     (or_introl eq_refl)))
    as (st' & E & _ & Hlen & _).
  - vm_compute. eauto.
  - exists st'. split; [exact E | exact Hlen].
Defined.
(* ===================================================================== *)
(** ** Lines *)
(* ===================================================================== *)

Lemma all_chars_dot_newline s :
  all_chars cls_dot (s +:+ newline) = false.
Proof.
  rewrite all_chars_app. cbn. now rewrite andb_false_r.
Qed.

Lemma append_inj_r (a b c : string) : a +:+ c = b +:+ c -> a = b.
Proof.
  revert b. induction a as [|x a IH]; intros b H.
  - destruct b as [|y b]; [reflexivity|].
    apply (f_equal String.length) in H. cbn in H. rewrite length_append in H.
    lia.
  - destruct b as [|y b].
    + apply (f_equal String.length) in H. cbn in H. rewrite length_append in H.
      lia.
    + cbn in H. inversion H. f_equal. now apply IH.
Qed.

(** A text that ends with a newline does not end with a non-empty run of
    other characters. *)
Lemma newline_is_last a x : forall line,
  line +:+ newline = a +:+ x -> all_chars cls_dot x = true -> x = "".
Proof.
  induction a as [|c a IH]; intros line H Hx.
  - cbn in H. subst x. now rewrite all_chars_dot_newline in Hx.
  - destruct line as [|d line].
    + cbn in H. inversion H as [[Hc Ha]].
      destruct a; [cbn in Ha; now subst | discriminate].
    + cbn in H. inversion H. eauto.
Qed.

Lemma header_line_newline line t m s :
  all_chars cls_dot line = true ->
  header_line (line +:+ newline) t m s <-> header_line line t m s.
Proof.
  intros Hline. split.
  - intros (mp & sp & e & E & Ht & Hm & He & Hs).
    exists mp, sp, "". split; [|split; [exact Ht|split; [exact Hm|split; [now left | exact Hs]]]].
    rewrite append_nil_r. destruct He as [-> | ->].
    + exfalso. rewrite append_nil_r in E.
      assert (Hx : all_chars cls_dot (":" +:+ sp) = true).
      { destruct Hs as [[-> _]|(u & -> & Hu & _)]; [reflexivity|].
        cbn. exact Hu. }
      replace ("// " +:+ t +:+ mp +:+ ":" +:+ sp)
        with (("// " +:+ t +:+ mp) +:+ (":" +:+ sp)) in E
        by now rewrite !append_assoc.
      pose proof (newline_is_last _ _ _ E Hx). discriminate.
    + apply (append_inj_r _ _ newline).
      rewrite E. now rewrite !append_assoc.
  - intros (mp & sp & e & E & Ht & Hm & He & Hs).
    destruct He as [-> | ->].
    + exists mp, sp, newline.
      split; [|split; [exact Ht|split; [exact Hm|split; [now right | exact Hs]]]].
      rewrite E, append_nil_r. now rewrite !append_assoc.
    + exfalso. rewrite E in Hline.
      replace ("// " +:+ t +:+ mp +:+ ":" +:+ sp +:+ newline)
        with (("// " +:+ t +:+ mp +:+ ":" +:+ sp) +:+ newline) in Hline
        by now rewrite !append_assoc.
      now rewrite all_chars_dot_newline in Hline.
Qed.

(** X19 ([_header_pat], [_parse_block]).  A line is read as the same
    header, or as no header, with and without the newline that
    [readlines] leaves at its end. *)
Theorem header_match_ignores_the_newline (line : string) :
  all_chars cls_dot line = true ->
  header_match (line +:+ newline) = header_match line.
Proof.
  intros Hline.
  destruct (header_match line) as [[[t m] s]|] eqn:E.
  - apply header_match_complete, header_line_newline; [exact Hline|].
    now apply header_match_sound.
  - destruct (header_match (line +:+ newline)) as [[[t m] s]|] eqn:E';
      [|reflexivity].
    apply header_match_sound in E'.
    apply (proj1 (header_line_newline line t m s Hline)) in E'.
    apply header_match_complete in E'. congruence.
Qed.

Lemma header_match_ignores_the_newline_witness :
  header_match ("// Function&Module: cuboid()" +:+ newline)
  = header_match "// Function&Module: cuboid()".
Proof.
  apply header_match_ignores_the_newline. reflexivity.
Defined.

(** *** The body of a block *)

Lemma header_not_body r : header_match ("//  " +:+ r) = None.
Proof. reflexivity. Qed.

Lemma rstrip_idem s : Py.rstrip (Py.rstrip s) = Py.rstrip s.
Proof.
  induction s as [|c s IH]; [reflexivity|]. cbn [Py.rstrip].
  destruct (Py.rstrip s) as [|d r] eqn:E.
  - destruct (Py.isspace c) eqn:Ec; [reflexivity|].
    cbn. now rewrite Ec.
  - change (Py.rstrip (String c (String d r)))
      with (match Py.rstrip (String d r) with
            | "" => if Py.isspace c then "" else String c ""
            | String x y => String c (String x y)
            end).
    now rewrite IH.
Qed.

Lemma prefix_of_prefix p q s :
  String.prefix (p +:+ q) s = true -> String.prefix p s = true.
Proof.
  intros H. apply prefix_iff in H as [r ->]. rewrite append_assoc.
  apply prefix_append.
Qed.

Lemma blanks_two indent :
  2 <= indent -> "//" +:+ Py.mul " " indent = "//  " +:+ Py.mul " " (indent - 2).
Proof.
  intros H. destruct indent as [|[|k]]; try lia.
  cbn. now rewrite Nat.sub_0_r.
Qed.

Lemma first_indent r :
  2 <= String.length (Py.slice_from 2 ("//  " +:+ r))
       - String.length (Py.lstrip (Py.slice_from 2 ("//  " +:+ r))).
Proof.
  change (Py.slice_from 2 ("//  " +:+ r)) with (Py.mul " " 2 +:+ r).
  rewrite lstrip_blanks, length_append, length_blanks.
  pose proof (length_lstrip r). lia.
Qed.

Lemma body_loop_spec title rest : forall first indent acc n body k,
  2 <= indent ->
  body_loop title rest first indent acc n = inr (body, k) ->
  exists new,
    body = acc ++ new /\ k = n + length new /\ length new <= length rest
    /\ Forall (fun b => Py.rstrip b = b) new
    /\ forall j, j < length new ->
         exists l, rest !! j = Some l /\ Py.startswith l "//  " = true.
Proof.
  induction rest as [|l rest IH]; intros first indent acc n body k Hi H;
    cbn [body_loop] in H.
  - inversion H; subst. exists []. rewrite app_nil_r. cbn.
    repeat split; [lia | lia | constructor | intros j Hj; lia].
  - destruct (negb (Py.startswith l ("//" +:+ Py.mul " " indent))) eqn:Ep.
    + destruct (Py.startswith l "//  "); [discriminate|].
      inversion H; subst. exists []. rewrite app_nil_r. cbn.
      repeat split; [lia | lia | constructor | intros j Hj; lia].
    + apply negb_false_iff in Ep.
      assert (Hl : Py.startswith l "//  " = true).
      { unfold Py.startswith in *. rewrite (blanks_two _ Hi) in Ep.
        eapply prefix_of_prefix. exact Ep. }
      apply IH in H as (new & -> & -> & Hlen & Hall & Hst).
      * exists (Py.rstrip
                  (Py.slice_from
                     (if first
                      then String.length (Py.slice_from 2 l)
                           - String.length (Py.lstrip (Py.slice_from 2 l))
                      else indent) (Py.slice_from 2 l)) :: new).
        split; [now rewrite <- app_assoc|]. split; [cbn; lia|].
        split; [cbn; lia|]. split; [constructor; [apply rstrip_idem | exact Hall]|].
        intros [|j] Hj; [exists l; split; [reflexivity | exact Hl]|].
        cbn in Hj. apply Hst. lia.
      * destruct first; [|exact Hi].
        unfold Py.startswith in Ep. apply prefix_iff in Ep as [r ->].
        rewrite append_assoc.
        change ("//" +:+ Py.mul " " indent +:+ r)
          with (String "/" (String "/" (Py.mul " " indent +:+ r))).
        cbn [Py.slice_from]. rewrite lstrip_blanks, length_append, length_blanks.
        pose proof (length_lstrip r). lia.
Qed.

(** X20 ([_parse_block], the loop of the body).  The body of a block is
    made of the lines that follow the header, one for one: each of them
    starts with "//" and two blanks and is no header, so that a header
    always ends the body of the block before it; the lines of the body
    have no whitespace at their right; and the body is empty exactly when
    the line after the header does not start with "//" and two blanks. *)
Theorem body_ends_before_the_next_header (title : string)
  (lines : list string) (n : nat) (body : list string) (k : nat) :
  extract_body title lines n = inr (body, k) ->
  k = n + length body
  /\ (forall i, n <= i < k ->
        exists l, lines !! i = Some l /\ Py.startswith l "//  " = true
                  /\ header_match l = None)
  /\ Forall (fun b => Py.rstrip b = b) body
  /\ (body = [] <->
      forall l, lines !! n = Some l -> Py.startswith l "//  " = false).
Proof.
  unfold extract_body. intros H.
  pose proof H as H0.
  apply body_loop_spec in H as (new & -> & -> & Hlen & Hall & Hst); [|lia].
  cbn [app]. split; [reflexivity|]. split; [|split; [exact Hall|]].
  - intros i Hi. destruct (Hst (i - n)) as (l & Hl & Hp); [lia|].
    rewrite lookup_drop in Hl. replace (n + (i - n)) with i in Hl by lia.
    exists l. split; [exact Hl|]. split; [exact Hp|].
    unfold Py.startswith in Hp. apply prefix_iff in Hp as [r ->].
    apply header_not_body.
  - split.
    + intros -> l Hl. destruct (drop n lines) as [|l' rest] eqn:Ed.
      { apply (f_equal (fun x => x !! 0)) in Ed.
        rewrite lookup_drop, Nat.add_0_r, Hl in Ed. discriminate. }
      assert (l' = l).
      { apply (f_equal (fun x => x !! 0)) in Ed.
        rewrite lookup_drop, Nat.add_0_r, Hl in Ed. cbn in Ed. congruence. }
      subst l'. cbn [body_loop app] in H0.
      change ("//" +:+ Py.mul " " 2) with "//  " in H0.
      destruct (Py.startswith l "//  ") eqn:Ep; [|reflexivity].
      cbn [negb] in H0. apply body_loop_spec in H0 as (new & Hn & _); [|].
      * destruct new; discriminate.
      * unfold Py.startswith in Ep. apply prefix_iff in Ep as [r ->].
        apply first_indent.
    + intros Hno. destruct new as [|b new]; [reflexivity|].
      destruct (Hst 0) as (l & Hl & Hp); [cbn; lia|].
      rewrite lookup_drop, Nat.add_0_r in Hl. rewrite (Hno l Hl) in Hp.
      discriminate.
Qed.

Lemma body_ends_before_the_next_header_witness :
  3 = 1 + length ["cube(10);"; "  sphere(5);"]
  /\ (forall i, 1 <= i < 3 ->
        exists l, indented_lines !! i = Some l
                  /\ Py.startswith l "//  " = true /\ header_match l = None).
Proof.
  destruct (body_ends_before_the_next_header "Example" indented_lines 1
              ["cube(10);"; "  sphere(5);"] 3) as (H1 & H2 & _).
  - vm_compute. reflexivity.
  - split; [exact H1 | exact H2].
Defined.

(** *** The lines between two blocks *)

Lemma close_item_idem st : close_item (close_item st) = close_item st.
Proof.
  apply close_item_no_item. unfold close_item.
  destruct (curr_item st) eqn:E; [reflexivity | exact E].
Qed.

Lemma skip_loop_full rest : forall n st,
  let r := skip_loop rest n st in
  n <= r.2 <= n + length rest
  /\ (forall j l, j < r.2 - n -> rest !! j = Some l -> header_match l = None)
  /\ (r.2 < n + length rest ->
      exists l, rest !! (r.2 - n) = Some l /\ is_Some (header_match l))
  /\ ((r.2 < n + length rest
       /\ forall j l, j < r.2 - n -> rest !! j = Some l ->
                      Py.startswith l "//" = true) ->
      r.1 = st)
  /\ ((r.2 = n + length rest
       \/ exists j l, j < r.2 - n /\ rest !! j = Some l
                      /\ Py.startswith l "//" = false) ->
      r.1 = close_item st).
Proof.
  induction rest as [|l rest IH]; intros n st; cbn zeta; cbn [skip_loop].
  - cbn. split; [lia|]. split; [intros j l' Hj; lia|].
    split; [lia|]. split; [intros [H _]; lia|]. reflexivity.
  - destruct (header_match l) as [x|] eqn:Hm; cbn [is_some].
    + pose proof (header_starts_with_slashes _ _ Hm) as Hsl.
      rewrite Hsl, andb_false_r. cbn. split; [lia|].
      split; [intros j l' Hj; lia|].
      split; [intros _; rewrite Nat.sub_diag; eauto|].
      split; [reflexivity|].
      intros [H|(j & l' & Hj & _)]; lia.
    + set (st1 := if is_some (curr_item st) && negb (Py.startswith l "//")
                  then close_item st else st).
      specialize (IH (S n) st1). cbn zeta in IH.
      set (r := skip_loop rest (S n) st1) in *.
      destruct IH as (Hb & Hno & Hhd & Hsame & Hclose).
      set (h := r.2) in *. cbn [length].
      split; [lia|]. split; [|split; [|split]].
      * intros j l' Hj Hl. destruct j as [|j]; [cbn in Hl; congruence|].
        cbn in Hl. apply (Hno j); [lia | exact Hl].
      * intros Hlt. destruct (Hhd ltac:(lia)) as (l' & Hl & Hh).
        exists l'. split; [|exact Hh].
        replace (h - n) with (S (h - S n)) by lia. exact Hl.
      * intros [Hlt Hall]. rewrite Hsame.
        -- subst st1. rewrite (Hall 0 l); [|lia|reflexivity].
           now rewrite andb_false_r.
        -- split; [lia|]. intros j l' Hj Hl. apply (Hall (S j)); [lia | exact Hl].
      * intros Hc.
        assert (Hst1 : st1 = st \/ st1 = close_item st).
        { subst st1. destruct (_ && _); auto. }
        assert (Hcc : close_item st1 = close_item st).
        { destruct Hst1 as [-> | ->]; [reflexivity | apply close_item_idem]. }
        destruct Hc as [Hend|(j & l' & Hj & Hl & Hp)].
        -- rewrite Hclose; [exact Hcc | left; lia].
        -- destruct j as [|j].
           ++ cbn in Hl. inversion Hl; subst l'.
              pose proof (skip_loop_no_item rest (S n) st1) as Hk.
              fold r in Hk.
              destruct (curr_item st) as [it|] eqn:Hi.
              ** assert (E1 : st1 = close_item st)
                   by (subst st1; now rewrite Hp).
                 rewrite Hk; [exact E1|]. rewrite E1. unfold close_item.
                 now rewrite Hi.
              ** assert (E1 : st1 = st) by (subst st1; reflexivity).
                 rewrite Hk by congruence.
                 now rewrite E1, (close_item_no_item st Hi).
           ++ cbn in Hl. rewrite Hclose; [exact Hcc|].
              right. exists j, l'. split; [lia|]. now split.
Qed.

(** X21 ([_skip_lines]).  [_skip_lines] always returns; it stops at the
    first header at or after the line it starts from, or at the end of
    the text when there is none.  It leaves the state as it is when it
    stops at a header and every line that it passed starts with "//";
    when it passed a line that is no comment, or reached the end, the
    open Item is closed and its parent is the current parent again. *)
Theorem skip_lines_stops_at_the_next_header (lines : list string) (n : nat)
  (st : State) :
  exists st' h,
    _skip_lines lines n st = Return st' h /\ n <= h
    /\ (forall i l, n <= i < h -> lines !! i = Some l -> header_match l = None)
    /\ (forall l, lines !! h = Some l -> is_Some (header_match l))
    /\ ((is_Some (lines !! h)
         /\ forall i l, n <= i < h -> lines !! i = Some l ->
                        Py.startswith l "//" = true) ->
        st' = st)
    /\ ((lines !! h = None
         \/ exists i l, n <= i < h /\ lines !! i = Some l
                        /\ Py.startswith l "//" = false) ->
        st' = close_item st).
Proof.
  unfold _skip_lines.
  pose proof (skip_loop_full (drop n lines) n st) as H. cbn zeta in H.
  destruct (skip_loop (drop n lines) n st) as [st' h]. cbn [fst snd] in H.
  destruct H as (Hb & Hno & Hhd & Hsame & Hclose).
  rewrite length_drop in *.
  exists st', h. split; [reflexivity|]. split; [lia|].
  assert (Hin : forall l, lines !! h = Some l -> h < n + (length lines - n)).
  { intros l Hl. apply lookup_lt_Some in Hl. lia. }
  split; [|split; [|split]].
  - intros i l Hi Hl. apply (Hno (i - n)); [lia|].
    rewrite lookup_drop. now replace (n + (i - n)) with i by lia.
  - intros l Hl. destruct (Hhd (Hin l Hl)) as (l' & Hl' & Hh).
    rewrite lookup_drop in Hl'. replace (n + (h - n)) with h in Hl' by lia.
    congruence.
  - intros [[l Hl] Hall]. apply Hsame. split; [eauto|].
    intros j l' Hj Hl'. rewrite lookup_drop in Hl'.
    apply (Hall (n + j)); [lia | exact Hl'].
  - intros Hc. apply Hclose. destruct Hc as [Hnone|(i & l & Hi & Hl & Hp)].
    + left. apply lookup_ge_None in Hnone. lia.
    + right. exists (i - n), l. split; [lia|].
      rewrite lookup_drop. replace (n + (i - n)) with i by lia. now split.
Qed.
(* ===================================================================== *)
(** ** Defining a header and using it *)
(* ===================================================================== *)

Lemma define_blocktype_registers title meta st kind c :
  first_kind (_parse_meta_dict meta) = Some (kind, c) -> c <> TableBlock ->
  _define_blocktype title meta st
  = Return
      (set_header_defs
         (<[Py.strip title := (parentspec_of meta, c, None, None)]>
            (header_defs st)) st) tt.
Proof.
  intros Hk Hc.
  unfold _define_blocktype, parentspec_of, define.
  unfold first_kind, kind_table in Hk. cbn [List.find fst] in Hk.
  repeat match type of Hk with
         | (if ?b then _ else _) = _ =>
             destruct b; [inversion Hk; subst; try reflexivity; congruence|]
         end.
  discriminate.
Qed.

Lemma first_kind_classes d kind c :
  first_kind d = Some (kind, c) ->
  c = NumberedListBlock \/ c = BulletListBlock \/ c = TableBlock
  \/ c = ExampleBlock \/ c = FigureBlock \/ c = LabelBlock \/ c = TextBlock
  \/ c = GenericBlock.
Proof.
  unfold first_kind. intros H. apply find_some in H as [H _].
  unfold kind_table in H. cbn in H.
  repeat (destruct H as [H|H]; [inversion H; tauto|]). contradiction.
Qed.

Ltac not_builtin t Hnot :=
  repeat match goal with
         | |- context [String.eqb t ?k] =>
             let E := fresh "E" in
             destruct (String.eqb t k) eqn:E;
             [ exfalso; apply String.eqb_eq in E; apply Hnot; rewrite E;
               unfold builtin_titles; apply list_elem_of_In; cbn; tauto
             | ]
         end.

Section Use.

Variable env : Env.

Lemma dispatch_registered t m subtitle body origin st d :
  t ∉ builtin_titles -> guard_passes st ->
  header_defs st !! t = Some d ->
  dispatch env t m subtitle body origin st
  = registered_block d t m subtitle body origin (curr_parent st) st.
Proof.
  intros Hnot Hg Hd. apply guard_cases in Hg.
  unfold dispatch. rewrite bind_gets. cbn [in_list existsb].
  not_builtin t Hnot. cbn [orb].
  rewrite !bind_gets, Hg, bind_gets, Hd. reflexivity.
Qed.

End Use.

(** X22 ([_define_blocktype], [_parse_block]).  A title that a
    DefineHeader registers with a kind other than Table, and that is not
    one of the titles that the parser tells before it looks into the
    registry, is dispatched by the registry from then on: when the parent
    asked for is there, a block of the class of that kind is made with
    the title, subtitle, body and origin of the header and the current
    parent as its parent; when ItemOnly is asked for and the current
    parent is no Item, the block is dropped.  This holds for the titles
    Constant, Function, Module, Function&Module, Topics and See Also as
    well, which no longer declare Items or make Topics blocks once they
    are registered. *)
Theorem defined_header_is_used (env : Env)
  (title meta kind : string) (c : BlockCls) (m subtitle : string)
  (body : list string) (origin : OriginInfo) (st : State) :
  first_kind (_parse_meta_dict meta) = Some (kind, c) -> c <> TableBlock ->
  Py.strip title ∉ builtin_titles -> guard_passes st ->
  exists st1,
    _define_blocktype title meta st = Return st1 tt
    /\ (parent_wanted (parentspec_of meta) st = false ->
        dispatch env (Py.strip title) m subtitle body origin st1
        = Return st1 tt)
    /\ (parent_wanted (parentspec_of meta) st = true ->
        exists st2 nd,
          dispatch env (Py.strip title) m subtitle body origin st1
          = Return st2 tt
          /\ length (heap st2) = S (length (heap st))
          /\ heap st2 !! length (heap st) = Some nd
          /\ is_block c (Py.strip title) subtitle body origin
               (curr_parent st) nd
          /\ items_by_name st2 = items_by_name st
          /\ errorlog st2 = errorlog st).
Proof.
  intros Hk Hc Hnot Hg.
  rewrite (define_blocktype_registers title meta st kind c Hk Hc).
  pose (d := (parentspec_of meta, c, None, None) : HeaderDef).
  pose (st1 := set_header_defs (<[Py.strip title := d]> (header_defs st)) st).
  exists st1. split; [reflexivity|].
  assert (Hg1 : guard_passes st1) by exact Hg.
  assert (Hd : header_defs st1 !! Py.strip title = Some d)
    by apply lookup_insert_eq.
  rewrite (dispatch_registered env _ m subtitle body origin st1 d Hnot Hg1 Hd).
  unfold registered_block, d. rewrite bind_gets.
  change (match parentspec_of meta with
          | Some pc => isinstance st1 (curr_parent st1) pc
          | None => true
          end) with (parent_wanted (parentspec_of meta) st).
  split; [intros ->; reflexivity|]. intros ->. cbn [when].
  change (curr_parent st1) with (curr_parent st).
  assert (Hnew : forall mm,
    exists st2 nd,
      (new_block c (Py.strip title) subtitle body origin (curr_parent st) mm
         None ;; ret tt ;; ret tt) st1 = Return st2 tt
      /\ length (heap st2) = S (length (heap st))
      /\ heap st2 !! length (heap st) = Some nd
      /\ is_block c (Py.strip title) subtitle body origin (curr_parent st) nd
      /\ items_by_name st2 = items_by_name st
      /\ errorlog st2 = errorlog st).
  { intros mm. unfold bind. rewrite heap_new_block. cbn.
    set (n := new_node c (Py.strip title) subtitle body origin
                (curr_parent st) mm None).
    destruct (lookup_attach (curr_parent st) (length (heap st))
                (heap st ++ [n]) (length (heap st)) n) as (nd & Hnd & Hsame).
    { rewrite lookup_app_r by lia. now rewrite Nat.sub_diag. }
    eexists _, nd. split; [reflexivity|]. cbn.
    split; [rewrite length_attach, length_app; cbn; lia|].
    split; [exact Hnd|]. split; [|split; reflexivity].
    apply same_node_fields in Hsame as (? & ? & ? & ? & ? & ? & ?).
    unfold is_block. subst n. cbn in *. repeat split; congruence. }
  destruct (first_kind_classes _ _ _ Hk)
    as [->|[->|[->|[->|[->|[->|[->| ->]]]]]]];
    try contradiction; apply Hnew.
Qed.

Lemma defined_header_is_used_witness :
  exists st1 st2 nd,
    _define_blocktype "Function" "Text" at_function = Return st1 tt
    /\ dispatch env0 "Function" "" "bar()" [] (mkOrigin "foo.scad" 2) st1
       = Return st2 tt
    /\ heap st2 !! length (heap at_function) = Some nd
    /\ cls nd = TextBlock
    /\ items_by_name st2 = items_by_name at_function.
Proof.
  destruct (defined_header_is_used env0 "Function" "Text" "Text" TextBlock
              "" "bar()" [] (mkOrigin "foo.scad" 2) at_function)
    as (st1 & E1 & _ & H).
  - vm_compute. reflexivity.
  - discriminate.
  - unfold builtin_titles. intros Hin. apply list_elem_of_In in Hin.
    cbn in Hin. repeat destruct Hin as [Hin|Hin]; try discriminate. exact Hin.
  - left. reflexivity.
  - destruct (H eq_refl) as (st2 & nd & E2 & _ & Hnd & Hb & Hi & _).
    exists st1, st2, nd. repeat split; try assumption. apply Hb.
Defined.

(* ===================================================================== *)
(** ** The options of a header *)
(* ===================================================================== *)

Lemma meta_dict_add_insert (d : gmap string MetaVal) part :
  meta_dict_add d part = <[option_key part := option_value part]> d.
Proof.
  unfold meta_dict_add, option_key, option_value.
  destruct (Py.contains "=" part) eqn:E; [|reflexivity].
  destruct (split1_go_contains part "" E) as (key & val & Hs).
  unfold Py.split1. rewrite Hs. reflexivity.
Qed.

Lemma meta_fold_other k parts : forall d : gmap string MetaVal,
  Forall (fun q => option_key q <> k) parts ->
  fold_left meta_dict_add parts d !! k = d !! k.
Proof.
  induction parts as [|p parts IH]; intros d H; cbn [fold_left];
    [reflexivity|].
  apply Forall_cons in H as [Hp H]. rewrite (IH _ H), meta_dict_add_insert.
  now apply lookup_insert_ne.
Qed.

(** X23 ([_parse_meta_dict]).  Of the tokens of an option string that
    stand for the same key, the last one decides: the key has the text
    that follows the first "=" of that token, or the integer 1 when the
    token has no "=". *)
Theorem last_option_wins (meta : string) (before : list string)
  (part : string) (after : list string) :
  Py.split ";" meta = before ++ part :: after ->
  Forall (fun q => option_key q <> option_key part) after ->
  _parse_meta_dict meta !! option_key part = Some (option_value part).
Proof.
  intros Hs Ha. unfold _parse_meta_dict. rewrite Hs, fold_left_app.
  cbn [fold_left]. rewrite (meta_fold_other _ _ _ Ha), meta_dict_add_insert.
  apply lookup_insert_eq.
Qed.

Lemma last_option_wins_witness :
  _parse_meta_dict "Table;Headers=Name|Size;ItemOnly;Headers" !! "Headers"
  = Some VOne.
Proof.
  apply (last_option_wins "Table;Headers=Name|Size;ItemOnly;Headers"
           ["Table"; "Headers=Name|Size"; "ItemOnly"] "Headers" []).
  - vm_compute. reflexivity.
  - constructor.
Defined.
(* ===================================================================== *)
(** ** Blocks that are turned down *)
(* ===================================================================== *)

Ltac not_among t Hnot l :=
  repeat match goal with
         | |- context [String.eqb t ?k] =>
             let E := fresh "E" in
             destruct (String.eqb t k) eqn:E;
             [ exfalso; apply String.eqb_eq in E; apply Hnot; rewrite E;
               unfold l; apply list_elem_of_In; cbn; tauto
             | ]
         end.

Section Rejected.

Variable env : Env.

Lemma dispatch_strict title meta subtitle body origin st :
  title ∉ unguarded_titles -> strict st = true -> curr_file_block st = None ->
  dispatch env title meta subtitle body origin st
  = Raise st (file_wanted title).
Proof.
  intros Hnot Hs Hf. unfold dispatch. rewrite bind_gets.
  cbn [in_list existsb]. not_among title Hnot unguarded_titles. cbn [orb].
  now rewrite !bind_gets, Hf, Hs.
Qed.

Lemma dispatch_file_twice title meta subtitle body origin st f :
  title = "File" \/ title = "LibFile" -> curr_file_block st = Some f ->
  dispatch env title meta subtitle body origin st
  = Raise st (file_twice title).
Proof.
  intros Ht Hf. unfold dispatch. rewrite bind_gets.
  destruct Ht as [-> | ->];
    cbn [String.eqb Ascii.eqb Bool.eqb in_list existsb orb];
    now rewrite bind_gets, Hf.
Qed.

Lemma dispatch_unrecognized title meta subtitle body origin st :
  title ∉ builtin_titles -> title ∉ late_titles ->
  header_defs st !! title = None -> guard_passes st ->
  dispatch env title meta subtitle body origin st
  = Raise st (unrecognized title).
Proof.
  intros Hnot Hlate Hd Hg. apply guard_cases in Hg.
  unfold dispatch. rewrite bind_gets. cbn [in_list existsb].
  not_among title Hnot builtin_titles. cbn [orb].
  rewrite !bind_gets, Hg, bind_gets, Hd.
  not_among title Hlate late_titles. reflexivity.
Qed.

End Rejected.

(** X24 ([_parse_block], strict mode).  In strict mode, as long as the
    file has no File or LibFile block, the header of every block but
    these two, DefineHeader, the configuration directives and the editor
    mode lines is turned down: nothing changes but the log, which gets an entry for the
    header, and the scan goes on after the body.  The one exception is a
    body with an under-indented line: the exception of line 240 then
    leaves [_parse_block], the state unchanged and nothing logged. *)
Theorem strict_mode_wants_a_file_block (env : Env) (lines : list string)
  (n : nat) (src_file : string) (st : State)
  (line title meta subtitle : string) :
  lines !! n = Some line ->
  header_match line = Some (title, meta, subtitle) ->
  title ∉ unguarded_titles -> strict st = true -> curr_file_block st = None ->
  _parse_block env lines n src_file st
  = match extract_body title lines (n + 1) with
    | inr (_, k) => Return (logged src_file (n + 1) (file_wanted title) st) k
    | inl _ => Raise st (under_indented title)
    end.
Proof.
  intros Hl Hm Hnot Hs Hf.
  apply (_parse_block_rejected env _ _ _ _ _ _ _ _ _ _ Hl Hm).
  intros body. now apply dispatch_strict.
Qed.

Lemma strict_mode_wants_a_file_block_witness :
  _parse_block env0 ["// Function: bar()"; "//   Returns a bar."] 0
    "foo.scad" (blank opts0 true)
  = Return (logged "foo.scad" 1 (file_wanted "Function") (blank opts0 true)) 2
  /\ _parse_block env0 ["// Function: bar()"; "//     deep"; "//   shallow"] 0
       "foo.scad" (blank opts0 true)
     = Raise (blank opts0 true) (under_indented "Function").
Proof.
  assert (Hnot : "Function" ∉ unguarded_titles).
  { unfold unguarded_titles. intros Hin. apply list_elem_of_In in Hin.
    cbn in Hin. repeat destruct Hin as [Hin|Hin]; try discriminate.
    exact Hin. }
  split.
  - refine (eq_trans
              (strict_mode_wants_a_file_block env0
                 ["// Function: bar()"; "//   Returns a bar."] 0 "foo.scad"
                 (blank opts0 true) "// Function: bar()" "Function" "" "bar()"
                 _ _ Hnot _ _) _);
      try reflexivity; vm_compute; reflexivity.
  - refine (eq_trans
              (strict_mode_wants_a_file_block env0
                 ["// Function: bar()"; "//     deep"; "//   shallow"] 0
                 "foo.scad" (blank opts0 true) "// Function: bar()" "Function"
                 "" "bar()" _ _ Hnot _ _) _);
      try reflexivity; vm_compute; reflexivity.
Defined.

(** X25 ([_parse_block], File and LibFile).  The header of a File or
    LibFile block met when the file already has its File block, given or
    made up, is turned down: nothing changes but the log, which gets an
    entry for the header, and the scan goes on after the body.  The one
    exception is a body with an under-indented line: the exception of
    line 240 then leaves [_parse_block], the state unchanged and nothing
    logged. *)
Theorem second_file_block_is_turned_down (env : Env) (lines : list string)
  (n : nat) (src_file : string) (st : State)
  (line title meta subtitle : string) :
  lines !! n = Some line ->
  header_match line = Some (title, meta, subtitle) ->
  title = "File" \/ title = "LibFile" -> is_Some (curr_file_block st) ->
  _parse_block env lines n src_file st
  = match extract_body title lines (n + 1) with
    | inr (_, k) => Return (logged src_file (n + 1) (file_twice title) st) k
    | inl _ => Raise st (under_indented title)
    end.
Proof.
  intros Hl Hm Ht [f Hf].
  apply (_parse_block_rejected env _ _ _ _ _ _ _ _ _ _ Hl Hm).
  intros body.
  now apply (dispatch_file_twice env title meta subtitle body _ st f).
Qed.

Lemma second_file_block_is_turned_down_witness :
  _parse_block env0 ["// LibFile: foo.scad"; "// File: bar.scad"] 1
    "foo.scad" at_function
  = Return (logged "foo.scad" 2 (file_twice "File") at_function) 2
  /\ _parse_block env0
       ["// LibFile: foo.scad"; "// File: bar.scad"; "//     deep";
        "//   shallow"] 1 "foo.scad" at_function
     = Raise at_function (under_indented "File").
Proof.
  split.
  - refine (eq_trans
              (second_file_block_is_turned_down env0
                 ["// LibFile: foo.scad"; "// File: bar.scad"] 1 "foo.scad"
                 at_function "// File: bar.scad" "File" "" "bar.scad"
                 _ _ _ _) _).
    + reflexivity.
    + vm_compute. reflexivity.
    + now left.
    + vm_compute. eauto.
    + vm_compute. reflexivity.
  - refine (eq_trans
              (second_file_block_is_turned_down env0
                 ["// LibFile: foo.scad"; "// File: bar.scad"; "//     deep";
                  "//   shallow"] 1 "foo.scad"
                 at_function "// File: bar.scad" "File" "" "bar.scad"
                 _ _ _ _) _).
    + reflexivity.
    + vm_compute. reflexivity.
    + now left.
    + vm_compute. eauto.
    + vm_compute. reflexivity.
Defined.

(** X26 ([_parse_block], the last case).  A header whose title is none of
    the titles that the parser knows and is not in the registry, strict
    mode letting it through, is turned down as an unrecognized block:
    nothing changes but the log, which gets an entry for the header, and
    the scan goes on after the body.  The one exception is a body with
    an under-indented line: the exception of line 240 then leaves
    [_parse_block], the state unchanged and nothing logged. *)
Theorem unknown_title_is_turned_down (env : Env) (lines : list string)
  (n : nat) (src_file : string) (st : State)
  (line title meta subtitle : string) :
  lines !! n = Some line ->
  header_match line = Some (title, meta, subtitle) ->
  title ∉ builtin_titles -> title ∉ late_titles ->
  header_defs st !! title = None -> guard_passes st ->
  _parse_block env lines n src_file st
  = match extract_body title lines (n + 1) with
    | inr (_, k) => Return (logged src_file (n + 1) (unrecognized title) st) k
    | inl _ => Raise st (under_indented title)
    end.
Proof.
  intros Hl Hm Hnot Hlate Hd Hg.
  apply (_parse_block_rejected env _ _ _ _ _ _ _ _ _ _ Hl Hm).
  intros body. now apply dispatch_unrecognized.
Qed.

Lemma unknown_title_is_turned_down_witness :
  _parse_block env0 ["// Returns: a bar"] 0 "foo.scad" (fresh false)
  = Return (logged "foo.scad" 1 (unrecognized "Returns") (fresh false)) 1
  /\ _parse_block env0 ["// Bogus: a"; "//     deep"; "//   shallow"] 0
       "foo.scad" (fresh false)
     = Raise (fresh false) (under_indented "Bogus").
Proof.
  assert (Hnot : forall t, t = "Returns" \/ t = "Bogus" ->
                           (t ∉ builtin_titles) /\ (t ∉ late_titles)).
  { intros t Ht. split; intros Hin; apply list_elem_of_In in Hin; cbn in Hin;
      destruct Ht as [-> | ->];
      repeat destruct Hin as [Hin|Hin]; try discriminate; exact Hin. }
  split.
  - destruct (Hnot "Returns") as [H1 H2]; [now left|].
    refine (eq_trans
              (unknown_title_is_turned_down env0 ["// Returns: a bar"] 0
                 "foo.scad" (fresh false) "// Returns: a bar" "Returns" ""
                 "a bar" _ _ H1 H2 _ _) _).
    + reflexivity.
    + vm_compute. reflexivity.
    + vm_compute. reflexivity.
    + left. reflexivity.
    + vm_compute. reflexivity.
  - destruct (Hnot "Bogus") as [H1 H2]; [now right|].
    refine (eq_trans
              (unknown_title_is_turned_down env0
                 ["// Bogus: a"; "//     deep"; "//   shallow"] 0
                 "foo.scad" (fresh false) "// Bogus: a" "Bogus" ""
                 "a" _ _ H1 H2 _ _) _).
    + reflexivity.
    + vm_compute. reflexivity.
    + vm_compute. reflexivity.
    + left. reflexivity.
    + vm_compute. reflexivity.
Defined.

(* ===================================================================== *)
(** ** A text without headers *)
(* ===================================================================== *)

Lemma skip_loop_no_header rest : forall n st,
  Forall (fun l => header_match l = None) rest ->
  skip_loop rest n st = (close_item st, n + length rest).
Proof.
  induction rest as [|l rest IH]; intros n st H; cbn [skip_loop length].
  - now rewrite Nat.add_0_r.
  - apply Forall_cons in H as [Hl H]. rewrite Hl. cbn [is_some].
    rewrite (IH _ _ H). f_equal; [|lia].
    destruct (_ && _); [apply close_item_idem | reflexivity].
Qed.

Lemma parse_loop_done env fuel lines n src st :
  length lines <= n -> parse_loop env fuel lines n src st = Return st n.
Proof.
  intros H. apply Nat.leb_le in H. destruct fuel; cbn [parse_loop]; now rewrite H.
Qed.

(** X27 ([parse_lines], [_parse_block], [_skip_lines]).  An empty text
    leaves the state as it is.  A text that is not empty and has no header
    only closes the Item that is open, if there is one: no node is made,
    nothing is logged, no exception leaves. *)
Theorem text_without_headers (env : Env) (lines : list string)
  (src_file : string) (st : State) :
  Forall (fun l => header_match l = None) lines ->
  parse_lines env lines 0 src_file st
  = Return (if decide (lines = []) then st else close_item st) tt.
Proof.
  intros H. unfold parse_lines, bind. rewrite Nat.sub_0_r.
  destruct lines as [|l lines]; [reflexivity|].
  destruct (decide (l :: lines = [])) as [E|_]; [discriminate|].
  change (length (l :: lines)) with (S (length lines)).
  cbn [parse_loop]. change (S (length lines) <=? 0) with false. cbv iota.
  assert (E : _parse_block env (l :: lines) 0 src_file st
              = Return (close_item st) (S (length lines))).
  { unfold _parse_block, bind, _skip_lines. cbn [drop].
    rewrite (skip_loop_no_header _ _ _ H). cbn [Nat.add length].
    now rewrite Nat.leb_refl. }
  rewrite E, parse_loop_done; [reflexivity | cbn; lia].
Qed.

Lemma text_without_headers_witness :
  parse_lines env0 ["x = 1;"; "// a comment"; ""] 0 "foo.scad" item_open
  = Return (close_item item_open) tt.
Proof.
  apply (text_without_headers env0 ["x = 1;"; "// a comment"; ""] "foo.scad"
           item_open).
  repeat constructor.
Defined.

(* ===================================================================== *)
(** ** Declarations over a whole session *)
(* ===================================================================== *)

























Section Declares.

Variable env : Env.













End Declares.

(* ===================================================================== *)
(** ** Sections, leaves and declarations, at a header *)
(* ===================================================================== *)

Lemma section_is_guarded : "Section" ∉ unguarded_titles.
Proof.
  unfold unguarded_titles. intros Hin. apply list_elem_of_In in Hin.
  cbn in Hin. repeat destruct Hin as [Hin|Hin]; try discriminate. exact Hin.
Qed.

Lemma leaf_is_guarded title :
  title = "Example" \/ title = "Topics" \/ title = "See Also" ->
  title ∉ unguarded_titles.
Proof.
  unfold unguarded_titles. intros Ht Hin. apply list_elem_of_In in Hin.
  cbn in Hin. destruct Ht as [-> | [-> | ->]];
    repeat destruct Hin as [Hin|Hin]; try discriminate; exact Hin.
Qed.


(** C9 (as amended).  A Section header is met while the unit has no File
    node and no Item is open.  Outside strict mode, the body of the block
    being well indented, [_parse_block] makes a placeholder File node
    named after the source file, attaches the new Section to it and makes
    the Section the current section and the current parent; nothing is
    logged.  In strict mode the header is turned down: the log gets one
    FAIL entry and neither node is made.  When a line of the body is
    under-indented, the exception of line 240 leaves [_parse_block] in
    either mode, the state unchanged and nothing logged. *)
Theorem orphan_section_gets_placeholder_file (env : Env)
  (lines : list string) (n : nat) (src : string) (st : State)
  (line meta subtitle : string) :
  lines !! n = Some line ->
  header_match line = Some ("Section", meta, subtitle) ->
  curr_file_block st = None ->
  curr_item st = None ->
  match extract_body "Section" lines (n + 1) with
  | inl _ =>
      _parse_block env lines n src st = Raise st (under_indented "Section")
  | inr (body, k) =>
      if strict st
      then _parse_block env lines n src st
           = Return (logged src (n + 1) (file_wanted "Section") st) k
      else exists st' k',
             _parse_block env lines n src st = Return st' k'
             /\ placeholder_file_made src (n + 1) subtitle body st st'
  end.
Proof.
  intros Hl Hm Hf Hi.
  destruct (extract_body "Section" lines (n + 1)) as [e|[body k]] eqn:Hb.
  - rewrite (_parse_block_under_indented env _ _ _ _ _ _ _ _ _ Hl Hm Hb).
    f_equal. unfold extract_body in Hb. now apply body_loop_raises in Hb.
  - rewrite (_parse_block_at_header env _ _ src st _ _ _ _ _ _ Hl Hm Hb).
    destruct (strict st) eqn:Hs.
    + unfold try_log, bind.
      now rewrite (dispatch_strict env "Section" meta subtitle body _ st
                     section_is_guarded Hs Hf).
    + destruct (dispatch_section env meta subtitle body
                  (mkOrigin src (n + 1)) st Hs Hf)
        as (st1 & E & Hh & Hcf & Hfb & Hcs & Hcp & Hci & Hlog & _).
      destruct (after_block_no_item lines k st1) as [k' Ek]; [congruence|].
      exists st1, k'. split.
      * unfold try_log. now rewrite (bind_Return _ _ _ _ _ E), Ek.
      * unfold placeholder_file_made. simpl in Hh. tauto.
Qed.

Lemma orphan_section_witness :
  (exists st' k',
     _parse_block env0 orphan_section_lines 0 "shapes.scad" (fresh false)
     = Return st' k'
     /\ placeholder_file_made "shapes.scad" 1 "Shapes" ["Basic shapes."]
          (fresh false) st')
  /\ _parse_block env0 orphan_section_lines 0 "shapes.scad" (fresh true)
     = Return (logged "shapes.scad" 1 (file_wanted "Section") (fresh true)) 2
  /\ _parse_block env0 under_indented_lines 0 "shapes.scad" (fresh false)
     = Raise (fresh false) (under_indented "Section").
Proof.
  split; [|split].
  - exact (orphan_section_gets_placeholder_file env0 orphan_section_lines 0
             "shapes.scad" (fresh false) "// Section: Shapes" "" "Shapes"
             eq_refl eq_refl eq_refl eq_refl).
  - exact (orphan_section_gets_placeholder_file env0 orphan_section_lines 0
             "shapes.scad" (fresh true) "// Section: Shapes" "" "Shapes"
             eq_refl eq_refl eq_refl eq_refl).
  - exact (orphan_section_gets_placeholder_file env0 under_indented_lines 0
             "shapes.scad" (fresh false) "// Section: Shapes" "" "Shapes"
             eq_refl eq_refl eq_refl eq_refl).
Defined.

(** C3 (as amended).  An Example header, or a Topics or See Also header
    whose title is not in the registry, is met while no Item is open.
    When strict mode lets the block through (the parser is not strict, or
    the unit has a File node) and the body is well indented, the whole
    state is left as it was: no node, no log entry.  In strict mode
    without a File node the header is turned down with one FAIL entry and
    no node; when a line of the body is under-indented, the exception of
    line 240 leaves [_parse_block], the state unchanged and nothing
    logged. *)
Theorem leaf_without_open_item (env : Env) (lines : list string) (n : nat)
  (src : string) (st : State) (line title meta subtitle : string) :
  lines !! n = Some line ->
  header_match line = Some (title, meta, subtitle) ->
  title = "Example"
  \/ ((title = "Topics" \/ title = "See Also")
      /\ header_defs st !! title = None) ->
  curr_item st = None ->
  match extract_body title lines (n + 1) with
  | inl _ => _parse_block env lines n src st = Raise st (under_indented title)
  | inr (_, k) =>
      if strict st && negb (is_some (curr_file_block st))
      then _parse_block env lines n src st
           = Return (logged src (n + 1) (file_wanted title) st) k
      else exists k', _parse_block env lines n src st = Return st k'
  end.
Proof.
  intros Hl Hm Ht Hi.
  destruct (extract_body title lines (n + 1)) as [e|[body k]] eqn:Hb.
  - rewrite (_parse_block_under_indented env _ _ _ _ _ _ _ _ _ Hl Hm Hb).
    f_equal. unfold extract_body in Hb. now apply body_loop_raises in Hb.
  - rewrite (_parse_block_at_header env _ _ src st _ _ _ _ _ _ Hl Hm Hb).
    unfold try_log.
    destruct (strict st && negb (is_some (curr_file_block st))) eqn:Hg.
    + apply andb_true_iff in Hg as [Hs Hf].
      destruct (curr_file_block st) eqn:Hcf; [discriminate|].
      unfold bind.
      rewrite (dispatch_strict env title meta subtitle body _ st); auto.
      apply leaf_is_guarded. tauto.
    + assert (Hg' : guard_passes st).
      { unfold guard_passes. destruct (strict st); [|now left].
        destruct (curr_file_block st); [right; eauto | discriminate]. }
      destruct (after_block_no_item lines k st Hi) as [k' Ek].
      exists k'. destruct Ht as [-> | [Ht Hd]].
      * now rewrite (bind_Return _ _ _ _ _
                       (dispatch_example_no_item env meta subtitle body _ st
                          Hi Hg')), Ek.
      * now rewrite (bind_Return _ _ _ _ _
                       (dispatch_topics_no_item env title meta subtitle body
                          _ st Ht Hd Hi Hg')), Ek.
Qed.

Lemma leaf_without_open_item_witness :
  (exists k',
     _parse_block env0 example_lines 1 "shapes.scad" after_libfile
     = Return after_libfile k')
  /\ _parse_block env0 ["// Example: A cube"; "//   cube(10);"] 0
       "shapes.scad" (fresh true)
     = Return (logged "shapes.scad" 1 (file_wanted "Example") (fresh true)) 2
  /\ _parse_block env0 ["// Topics: Shapes"; "//     deep"; "//   shallow"] 0
       "shapes.scad" (fresh false)
     = Raise (fresh false) (under_indented "Topics").
Proof.
  split; [|split].
  - refine (leaf_without_open_item env0 example_lines 1 "shapes.scad"
              after_libfile "// Example: A cube" "Example" "" "A cube"
              eq_refl _ (or_introl eq_refl) _);
      vm_compute; reflexivity.
  - refine (leaf_without_open_item env0
              ["// Example: A cube"; "//   cube(10);"] 0 "shapes.scad"
              (fresh true) "// Example: A cube" "Example" "" "A cube"
              eq_refl _ (or_introl eq_refl) _);
      vm_compute; reflexivity.
  - refine (leaf_without_open_item env0
              ["// Topics: Shapes"; "//     deep"; "//   shallow"] 0
              "shapes.scad" (fresh false) "// Topics: Shapes" "Topics" ""
              "Shapes" eq_refl _ (or_intror (conj (or_introl eq_refl) _)) _);
      vm_compute; reflexivity.
Defined.



